(** * gvisor-ligolo: a shallow embedding of parts of the sentry and of runsc

    Each module embeds one source file (or one function of it) as executable
    Rocq definitions; the theorems about them come after the embedding, one
    module of theorems for each module of code.

    - [AIO]      pkg/sentry/mm/aio_context.go
    - [Arch]     pkg/sentry/arch/arch.go (amd64 mmap layout)
    - [Filter]   runsc/boot/filter/config.go (controlServerFilters)
    - [VFS]      pkg/sentry/vfs/dentry.go (PrepareRenameDentry)
    - [SysMount] pkg/sentry/syscalls/linux/sys_mount.go (Mount)
    - [Boot]     runsc/boot controller (containerManager.Restore)
    - [Sandbox]  runsc/sandbox/sandbox.go (destroy, --cpu-num)

    The second part covers more of the same files and of their neighbours:

    - [AIOManager]   pkg/sentry/mm/aio_context.go (aioManager, aioMappable)
    - [ArchMore]     pkg/sentry/arch/arch.go (SyscallArgument, PIELoadAddress)
    - [VFSMore]      pkg/sentry/vfs/dentry.go (delete and rename protocols)
    - [SyscallsMore] pkg/sentry/syscalls/linux (umount2, sched_*, eventfd,
                     getTaskPathOperation)
    - [OwnerMatch]   pkg/sentry/socket/netfilter/owner_matcher.go
    - [SandboxMore]  runsc/sandbox/sandbox.go (createControlSocket,
                     DestroyContainer, configureStdios)
    - [ConfigFlags]  runsc/config/flags.go (isOverrideAllowed)
    - [Compat]       runsc/boot/loader.go (syscall trackers)
    - [ProcTasks]    pkg/sentry/fsimpl/proc/tasks.go (IterDirents, Stat) *)

From Stdlib Require Import ZArith Lia List Bool Sorted.
From Stdlib Require Import Floats.SpecFloat.
From stdpp Require Import base numbers option list gmap strings pretty.

Local Open Scope Z_scope.

(* ===================================================================== *)
(** ** Go integers *)
(* ===================================================================== *)

Module GoInt.

(** Conversion to uint32 and uint64: keep the low bits. *)
Definition u32 (x : Z) : Z := x mod 2 ^ 32.
Definition u64 (x : Z) : Z := x mod 2 ^ 64.

Definition maxInt64 : Z := 2 ^ 63 - 1.
Definition minInt64 : Z := - 2 ^ 63.

End GoInt.

(* ===================================================================== *)
(** ** pkg/sentry/mm/aio_context.go *)
(* ===================================================================== *)

Module AIO.
Import GoInt.

(** linuxerr values returned by this file. *)
Inductive errno := EINVAL | EAGAIN.

(** Go run-time panics and the explicit panic of this file. *)
Inductive panic :=
| PanicNegative      (* "AIOContext outstanding is going negative" *)
| PanicCloseNil      (* close of nil channel *)
| PanicCloseClosed   (* close of closed channel *)
| PanicSendClosed.   (* send on closed channel *)

(** The payload of a completed request ([data any]); the code never looks
    inside it. *)
Definition any := Z.

(** The channel object made by [make(chan struct{}, 1)]. It lives on the heap:
    [WaitChannel] hands it out, so it outlives the field that points to it.
    [ch_closes] counts the close operations that were carried out on it. *)
Record Chan := mkChan {
  ch_len : nat;        (* buffered elements, capacity 1 *)
  ch_closed : bool;
  ch_closes : nat
}.

Definition ch_cap : nat := 1.

(** The value of a [chan struct{}] variable: nil or the channel above. *)
Inductive chanptr := TheChan.

Record AIOContext := mkCtx {
  requestReady : option chanptr;
  results : list any;
  maxOutstanding : Z;
  outstanding : Z;
  dead : bool
}.

(** A context together with the channel object it was created with. *)
Record Machine := mkMachine {
  ctx : AIOContext;
  chan : Chan
}.

Inductive outcome (A : Type) :=
| Ret (a : A) (m : Machine)
| Panic (p : panic) (m : Machine).
Arguments Ret {A} a m.
Arguments Panic {A} p m.

(** [close(c)] *)
Definition go_close (c : option chanptr) (h : Chan) : panic + Chan :=
  match c with
  | None => inl PanicCloseNil
  | Some TheChan =>
      if ch_closed h then inl PanicCloseClosed
      else inr (mkChan (ch_len h) true (S (ch_closes h)))
  end.

(** [select { case c <- struct{}{}: default: }] *)
Definition go_try_send (c : option chanptr) (h : Chan) : panic + Chan :=
  match c with
  | None => inr h
  | Some TheChan =>
      if ch_closed h then inl PanicSendClosed
      else if (ch_len h <? ch_cap)%nat
           then inr (mkChan (S (ch_len h)) (ch_closed h) (ch_closes h))
           else inr h
  end.

Definition set_requestReady (c : AIOContext) (r : option chanptr) :=
  mkCtx r (results c) (maxOutstanding c) (outstanding c) (dead c).
Definition set_results (c : AIOContext) (l : list any) :=
  mkCtx (requestReady c) l (maxOutstanding c) (outstanding c) (dead c).
Definition set_outstanding (c : AIOContext) (n : Z) :=
  mkCtx (requestReady c) (results c) (maxOutstanding c) n (dead c).
Definition set_dead (c : AIOContext) (b : bool) :=
  mkCtx (requestReady c) (results c) (maxOutstanding c) (outstanding c) b.

(** The context stored by [aioManager.newAIOContext]. *)
Definition newContext (events : Z) : Machine :=
  mkMachine (mkCtx (Some TheChan) [] events 0 false) (mkChan 0 false 0).

(** [aioManager.newAIOContext]: false if [id] is in use. *)
Definition newAIOContext (contexts : gmap Z Machine) (events id : Z)
  : gmap Z Machine * bool :=
  match contexts !! id with
  | Some _ => (contexts, false)
  | None => (<[id := newContext events]> contexts, true)
  end.

Definition checkForDone (m : Machine) : outcome unit :=
  let c := ctx m in
  if dead c && (outstanding c =? 0) then
    match go_close (requestReady c) (chan m) with
    | inl p => Panic p m
    | inr h => Ret tt (mkMachine (set_requestReady c None) h)
    end
  else Ret tt m.

Definition destroy (m : Machine) : outcome unit :=
  checkForDone (mkMachine (set_dead (ctx m) true) (chan m)).

Definition Prepare (m : Machine) : outcome (option errno) :=
  let c := ctx m in
  if dead c then Ret (Some EINVAL) m
  else if outstanding c >=? maxOutstanding c then Ret (Some EAGAIN) m
  else Ret None (mkMachine (set_outstanding c (u32 (outstanding c + 1))) (chan m)).

Definition PopRequest (m : Machine) : outcome (option any) :=
  let c := ctx m in
  match results c with
  | e :: rest =>
      if outstanding c =? 0 then Panic PanicNegative m
      else
        let c1 := set_outstanding c (u32 (outstanding c - 1)) in
        let c2 := set_results c1 rest in
        match checkForDone (mkMachine c2 (chan m)) with
        | Ret _ m' => Ret (Some e) m'
        | Panic p m' => Panic p m'
        end
  | [] => Ret None m
  end.

Definition FinishRequest (data : any) (m : Machine) : outcome unit :=
  let c := set_results (ctx m) (results (ctx m) ++ [data]) in
  match go_try_send (requestReady c) (chan m) with
  | inl p => Panic p (mkMachine c (chan m))
  | inr h => Ret tt (mkMachine c h)
  end.

Definition WaitChannel (m : Machine) : option chanptr := requestReady (ctx m).

Definition Dead (m : Machine) : bool := dead (ctx m).

Definition CancelPendingRequest (m : Machine) : outcome unit :=
  let c := ctx m in
  if outstanding c =? 0 then Panic PanicNegative m
  else checkForDone (mkMachine (set_outstanding c (u32 (outstanding c - 1))) (chan m)).

Definition Drain (m : Machine) : outcome unit :=
  let c := ctx m in
  if outstanding c =? 0 then Ret tt m
  else
    let size := u32 (Z.of_nat (length (results c))) in
    if outstanding c <? size then Panic PanicNegative m
    else
      let c1 := set_outstanding c (u32 (outstanding c - size)) in
      let c2 := set_results c1 [] in
      checkForDone (mkMachine c2 (chan m)).

(** The calls a client of a context can make. *)
Inductive call :=
| CallPrepare
| CallFinishRequest (data : any)
| CallPopRequest
| CallCancelPendingRequest
| CallDrain
| CallDestroy.

(** One call: the next machine, or the panic that stops the program. *)
Definition step (c : call) (m : Machine) : panic + Machine :=
  let forget {A} (o : outcome A) : panic + Machine :=
    match o with Ret _ m' => inr m' | Panic p _ => inl p end in
  match c with
  | CallPrepare => forget (Prepare m)
  | CallFinishRequest d => forget (FinishRequest d m)
  | CallPopRequest => forget (PopRequest m)
  | CallCancelPendingRequest => forget (CancelPendingRequest m)
  | CallDrain => forget (Drain m)
  | CallDestroy => forget (destroy m)
  end.

(** The machines after each call of a sequence, up to the first panic. *)
Fixpoint run_trace (calls : list call) (m : Machine) : list Machine :=
  match calls with
  | [] => []
  | c :: rest =>
      match step c m with
      | inl _ => []
      | inr m' => m' :: run_trace rest m'
      end
  end.

(** The panic that ends a sequence of calls, if one does. *)
Fixpoint run_panic (calls : list call) (m : Machine) : option panic :=
  match calls with
  | [] => None
  | c :: rest =>
      match step c m with
      | inl p => Some p
      | inr m' => run_panic rest m'
      end
  end.

(** The machine after a whole sequence, if no call panics. *)
Fixpoint run (calls : list call) (m : Machine) : option Machine :=
  match calls with
  | [] => Some m
  | c :: rest =>
      match step c m with
      | inl _ => None
      | inr m' => run rest m'
      end
  end.

(** The point the notification channel is closed at. *)
Definition done (m : Machine) : bool :=
  dead (ctx m) && (outstanding (ctx m) =? 0).

(** Requests that were prepared and have not completed yet. *)
Definition pending (c : AIOContext) : Z :=
  outstanding c - Z.of_nat (length (results c)).

(** Field values a Go [uint32] can hold. *)
Definition wf (c : AIOContext) : Prop :=
  0 <= outstanding c < 2 ^ 32 /\ 0 <= maxOutstanding c < 2 ^ 32.

End AIO.

(* ===================================================================== *)
(** ** pkg/sentry/arch/arch.go: the amd64 mmap layout *)
(* ===================================================================== *)

Module Arch.
Import GoInt.

(** Modelled from the spec: pkg/hostarch is not among the sources. An Addr is
    a uint64 and a page has 4096 bytes; RoundDown clears the bits below the
    page size; RoundUp rounds up to the next page boundary and says whether
    that did not wrap around. *)
Definition PageSize : Z := 4096.

Definition RoundDown (v : Z) : Z := Z.land v (u64 (Z.lnot (PageSize - 1))).

Definition RoundUp (v : Z) : Z * bool :=
  let addr := RoundDown (u64 (v + PageSize - 1)) in
  (addr, addr >=? v).

(** Modelled from the spec: limits.Infinity (pkg/sentry/limits is not among
    the sources), the largest uint64. *)
Definition Infinity : Z := 2 ^ 64 - 1.

Definition maxAddr64 : Z := Z.shiftl 1 47 - PageSize.
Definition maxStackRand64 : Z := Z.shiftl 16 30.
Definition maxMmapRand64 : Z := Z.shiftl 1 28 * PageSize.
Definition minGap64 : Z := Z.shiftl 128 20 + maxStackRand64.
Definition preferredTopDownAllocMin : Z := 0x7e8000000000.
Definition preferredAllocationGap : Z := Z.shiftl 128 30.
Definition preferredTopDownBaseMin : Z :=
  preferredTopDownAllocMin + preferredAllocationGap.
Definition minMmapRand64 : Z := Z.shiftl 1 26 * PageSize.

Inductive MmapDirection := MmapBottomUp | MmapTopDown.

Record MmapLayout := mkLayout {
  MinAddr : Z;
  MaxAddr : Z;
  BottomUpBase : Z;
  TopDownBase : Z;
  DefaultDirection : MmapDirection;
  MaxStackRand : Z
}.

Definition Valid (m : MmapLayout) : bool :=
  if MinAddr m >? MaxAddr m then false
  else if BottomUpBase m <? MinAddr m then false
  else if BottomUpBase m >? MaxAddr m then false
  else if TopDownBase m <? MinAddr m then false
  else if TopDownBase m >? MaxAddr m then false
  else true.

(** How a call of NewMmapLayout ends. *)
Inductive result :=
| Error                              (* (MmapLayout{}, unix.EINVAL) *)
| Layout (l : MmapLayout)            (* (l, nil) *)
| PanicInvalid (l : MmapLayout)      (* panic("Invalid MmapLayout: ...") *)
| PanicInt63n.                       (* rand.Int63n panics on n <= 0 *)

(** [int64(x)] of a uint64: the same 64 bits read as a signed number. *)
Definition int64_of_uint64 (x : Z) : Z :=
  if x <? 2 ^ 63 then x else x - 2 ^ 64.

Section Random.
(** math/rand's Int63n: the draw it makes for each bound. Its contract, a
    value in [0, n) for n > 0 and a panic otherwise, is a hypothesis of the
    theorems and [mmapRand]'s [None]. The bound it is given is int64(max),
    which is negative for a max of 2^63 or more. *)
Variable Int63n : Z -> Z.

Definition mmapRand (max : Z) : option Z :=
  let n := int64_of_uint64 max in
  if n <=? 0 then None else Some (RoundDown (Int63n n)).

(** [stackCur] is [r.Get(limits.Stack).Cur]. *)
Definition NewMmapLayout (min max stackCur : Z) : result :=
  let '(min, ok) := RoundUp min in
  if negb ok then Error
  else
    let max := if max >? maxAddr64 then maxAddr64 else max in
    let max := RoundDown max in
    if min >? max then Error
    else
      let maxGap := (max / 6) * 5 in
      let gap := stackCur in
      let gap := if gap <? minGap64 then minGap64 else gap in
      let gap := if gap >? maxGap then maxGap else gap in
      let defaultDir :=
        if stackCur =? Infinity then MmapBottomUp else MmapTopDown in
      let topDownMin := u64 (u64 (max - gap) - maxMmapRand64) in
      let maxRand := maxMmapRand64 in
      let maxRand :=
        if topDownMin <? preferredTopDownBaseMin then
          let maxAdjust := u64 (maxRand - minMmapRand64) in
          let needAdjust := u64 (preferredTopDownBaseMin - topDownMin) in
          if needAdjust <=? maxAdjust then u64 (maxRand - needAdjust)
          else maxRand
        else maxRand in
      match mmapRand maxRand with
      | None => PanicInt63n
      | Some rnd =>
          let l := mkLayout min max
                     (RoundDown (u64 (max / 3 + rnd)))
                     (RoundDown (u64 (u64 (max - gap) - rnd)))
                     defaultDir maxRand in
          if negb (Valid l) then PanicInvalid l else Layout l
      end.
End Random.

End Arch.

(* ===================================================================== *)
(** ** runsc/boot/filter/config.go: controlServerFilters *)
(* ===================================================================== *)

Module Filter.
Import GoInt.

(** Modelled from the spec: package seccomp is not among the sources. A rule
    is a list of argument matchers, position by position; an argument with
    no matcher is not constrained; a syscall is allowed when one of its
    rules matches. [EqualTo] holds a uintptr. *)
Inductive matcher :=
| MatchAny
| EqualTo (v : Z).

Definition Rule := list matcher.

Definition matches (m : matcher) (arg : Z) : bool :=
  match m with
  | MatchAny => true
  | EqualTo v => arg =? v
  end.

Fixpoint rule_matches (r : Rule) (args : list Z) : bool :=
  match r, args with
  | [], _ => true
  | m :: r', a :: args' => matches m a && rule_matches r' args'
  | _ :: _, [] => false
  end.

Definition allows (rules : gmap Z (list Rule)) (sysno : Z) (args : list Z) : bool :=
  match rules !! sysno with
  | None => false
  | Some rs => existsb (fun r => rule_matches r args) rs
  end.

(** golang.org/x/sys/unix, linux/amd64. *)
Definition SYS_LISTEN : Z := 50.
Definition SYS_GETSOCKOPT : Z := 55.
Definition SYS_ACCEPT4 : Z := 288.
Definition SOL_SOCKET : Z := 1.
Definition SO_PEERCRED : Z := 17.

Definition controlServerFilters (fd : Z) : gmap Z (list Rule) :=
  <[SYS_ACCEPT4 := [[EqualTo (u64 fd)]]]>
  (<[SYS_LISTEN := [[EqualTo (u64 fd); EqualTo 16]]]>
  (<[SYS_GETSOCKOPT := [[MatchAny; EqualTo SOL_SOCKET; EqualTo SO_PEERCRED]]]>
   ∅)).

End Filter.

(* ===================================================================== *)
(** ** pkg/sentry/vfs/dentry.go: PrepareRenameDentry *)
(* ===================================================================== *)

Module VFS.

(** A [*Dentry] is its address; nil is [None]. *)
Definition Dentry := Z.

Inductive mutex :=
| mountMu                 (* vfs.mountMu *)
| dentryMu (d : Dentry).  (* d.mu *)

Inductive event :=
| Lock (m : mutex)
| Unlock (m : mutex).

Inductive errno := EBUSY.

(** [mntns.mountpoints[d]]: a missing key reads as 0. *)
Definition mountpoints_at (mountpoints : gmap Dentry Z) (d : Dentry) : Z :=
  default 0 (mountpoints !! d).

(** The mutex operations of one call, in program order, and the error. *)
Definition PrepareRenameDentry (mountpoints : gmap Dentry Z)
           (from : Dentry) (to : option Dentry) : list event * option errno :=
  let t0 := [Lock mountMu] in
  if negb (mountpoints_at mountpoints from =? 0) then
    (t0 ++ [Unlock mountMu], Some EBUSY)
  else
    match to with
    | Some to' =>
        if negb (mountpoints_at mountpoints to' =? 0) then
          (t0 ++ [Unlock mountMu], Some EBUSY)
        else
          (t0 ++ [Lock (dentryMu to')] ++ [Lock (dentryMu from)]
              ++ [Unlock mountMu], None)
    | None =>
        (t0 ++ [Lock (dentryMu from)] ++ [Unlock mountMu], None)
    end.

Definition PrepareDeleteDentry (mountpoints : gmap Dentry Z) (d : Dentry)
  : list event * option errno :=
  if negb (mountpoints_at mountpoints d =? 0) then
    ([Lock mountMu; Unlock mountMu], Some EBUSY)
  else ([Lock mountMu; Lock (dentryMu d); Unlock mountMu], None).

(** The dentries whose mutex a trace acquires, in the order it does. *)
Fixpoint dentry_locks (tr : list event) : list Dentry :=
  match tr with
  | [] => []
  | Lock (dentryMu d) :: tr' => d :: dentry_locks tr'
  | _ :: tr' => dentry_locks tr'
  end.

(** Acquired in ascending (resp. descending) address order. *)
Fixpoint ascending (l : list Dentry) : bool :=
  match l with
  | a :: ((b :: _) as l') => (a <? b) && ascending l'
  | _ => true
  end.

Fixpoint descending (l : list Dentry) : bool :=
  match l with
  | a :: ((b :: _) as l') => (b <? a) && descending l'
  | _ => true
  end.

(** Every dentry mutex is acquired while vfs.mountMu is held. *)
Fixpoint locks_under_mountMu (holding : bool) (tr : list event) : bool :=
  match tr with
  | [] => true
  | Lock mountMu :: tr' => locks_under_mountMu true tr'
  | Unlock mountMu :: tr' => locks_under_mountMu false tr'
  | Lock (dentryMu _) :: tr' => holding && locks_under_mountMu holding tr'
  | Unlock (dentryMu _) :: tr' => locks_under_mountMu holding tr'
  end.

End VFS.

(* ===================================================================== *)
(** ** pkg/sentry/syscalls/linux/sys_mount.go: Mount *)
(* ===================================================================== *)

Module SysMount.
Import GoInt.

(** Modelled from the spec: the mount flags of pkg/abi/linux and the errno
    values are not among the sources; they are the values of Linux's
    include/uapi/linux/mount.h and errno.h. *)
Definition MS_RDONLY : Z := 0x1.
Definition MS_NOSUID : Z := 0x2.
Definition MS_NODEV : Z := 0x4.
Definition MS_NOEXEC : Z := 0x8.
Definition MS_REMOUNT : Z := 0x20.
Definition MS_NOATIME : Z := 0x400.
Definition MS_NODIRATIME : Z := 0x800.
Definition MS_BIND : Z := 0x1000.
Definition MS_MOVE : Z := 0x2000.
Definition MS_REC : Z := 0x4000.
Definition MS_UNBINDABLE : Z := 0x20000.
Definition MS_PRIVATE : Z := 0x40000.
Definition MS_SLAVE : Z := 0x80000.
Definition MS_SHARED : Z := 0x100000.
Definition MS_STRICTATIME : Z := 0x1000000.
Definition MS_MGC_VAL : Z := 0xC0ED0000.
Definition MS_MGC_MSK : Z := 0xffff0000.

Definition errno := Z.
Definition EPERM : errno := 1.
Definition EINVAL : errno := 22.

(** [x &^ y] on uint64 *)
Definition andnot (x y : Z) : Z := Z.land x (u64 (Z.lnot y)).

(** Modelled from the spec: bits.IsPowerOfTwo64 (pkg/bits is not among the
    sources): exactly one bit is set. *)
Definition IsPowerOfTwo64 (v : Z) : bool :=
  if v =? 0 then false else Z.land v (u64 (v - 1)) =? 0.

Definition unsupported : Z :=
  Z.lor MS_REMOUNT (Z.lor MS_SLAVE (Z.lor MS_UNBINDABLE (Z.lor MS_MOVE
    (Z.lor MS_REC (Z.lor MS_NODIRATIME MS_STRICTATIME))))).

Definition propagationFlags : Z :=
  Z.lor MS_SHARED (Z.lor MS_PRIVATE (Z.lor MS_SLAVE MS_UNBINDABLE)).

Record MountOptions := mkOpts {
  NoATime : bool;
  NoExec : bool;
  NoDev : bool;
  NoSUID : bool;
  ReadOnly : bool
}.

(** The VFS operation a call of Mount ends in. *)
Inductive vfs_call :=
| BindAt
| SetMountPropagationAt (propFlag : Z)
| MountAt (opts : MountOptions).

(** What the task and its memory answer: the capability check and, for each
    helper, the error it returns ([None] is success). *)
Record env := mkEnv {
  hasCapSysAdmin : bool;
  copyInPath_target : option errno;
  getTaskPathOperation_target : option errno;
  copyInPath_source : option errno;
  getTaskPathOperation_source : option errno;
  BindAt_err : option errno;
  SetMountPropagationAt_err : option errno;
  CopyInString_source : option errno;
  CopyInString_type : option errno;
  dataAddr : Z;
  CopyInString_data : option errno;
  MountAt_err : option errno
}.

Definition strip_magic (flags : Z) : Z :=
  if Z.land flags MS_MGC_MSK =? MS_MGC_VAL then andnot flags MS_MGC_MSK
  else flags.

Definition has (flags f : Z) : bool := Z.land flags f =? f.

(** The error Mount returns ([None] is nil) and the VFS operation it called,
    if it got that far. [flags] is [args[3].Uint64()]. *)
Definition Mount (e : env) (flags : Z) : option errno * option vfs_call :=
  if negb (hasCapSysAdmin e) then (Some EPERM, None)
  else
    let flags := strip_magic flags in
    if negb (Z.land flags unsupported =? 0) then (Some EINVAL, None)
    else
      match copyInPath_target e with
      | Some err => (Some err, None)
      | None =>
      match getTaskPathOperation_target e with
      | Some err => (Some err, None)
      | None =>
        if has flags MS_BIND then
          match copyInPath_source e with
          | Some err => (Some err, None)
          | None =>
          match getTaskPathOperation_source e with
          | Some err => (Some err, None)
          | None => (BindAt_err e, Some BindAt)
          end end
        else
          let propFlag := Z.land flags propagationFlags in
          if negb (propFlag =? 0) then
            if negb (IsPowerOfTwo64 propFlag) then (Some EINVAL, None)
            else (SetMountPropagationAt_err e, Some (SetMountPropagationAt propFlag))
          else
            match CopyInString_source e with
            | Some err => (Some err, None)
            | None =>
            match CopyInString_type e with
            | Some err => (Some err, None)
            | None =>
            match (if dataAddr e =? 0 then None else CopyInString_data e) with
            | Some err => (Some err, None)
            | None =>
                let opts := mkOpts (has flags MS_NOATIME) (has flags MS_NOEXEC)
                              (has flags MS_NODEV) (has flags MS_NOSUID)
                              (has flags MS_RDONLY) in
                (MountAt_err e, Some (MountAt opts))
            end end end
      end end.

(** The flags the claim lists. *)
Definition rejected_flags : list Z :=
  [MS_REMOUNT; MS_SLAVE; MS_UNBINDABLE; MS_MOVE; MS_REC; MS_NODIRATIME;
   MS_STRICTATIME].

End SysMount.

(* ===================================================================== *)
(** ** runsc/boot controller: containerManager.Restore *)
(* ===================================================================== *)

Module Boot.

(** An [*os.File] of the payload: its descriptor and what Stat finds, an
    error or the size. *)
Record File := mkFile {
  Fd : Z;
  Stat : string + Z
}.

(** What the calls Restore makes answer ([None] is a nil error). *)
Record env := mkEnv {
  Dup : string + Z;
  createPlatform : option string;
  createMemoryFile : option string;
  configureRestore : option string;
  ProfileEnable : bool;
  installSeccompFilters : option string;
  Load : option string;
  startResult : option string
}.

(** The effects of Restore, in program order. *)
Inductive effect :=
| EDup (fd : Z)
| EPause
| ECreatePlatform (deviceFile : option Z)
| ECreateMemoryFile
| ESetKernel
| EConfigureRestore
| EStat (fd : Z)
| EPprofInitialize
| EInstallSeccompFilters
| ELoad (fd : Z)
| ENewWatchdog
| ESetLoader
| EStart.

(** The part of Restore after the files are told apart. *)
Definition restoreWith (e : env) (specFile : File) (deviceFile : option Z)
           (t : list effect) : list effect * option string :=
  let t := t ++ [EPause; ECreatePlatform deviceFile] in
  match createPlatform e with
  | Some err => (t, Some ("creating platform: " +:+ err))
  | None =>
  let t := t ++ [ECreateMemoryFile] in
  match createMemoryFile e with
  | Some err => (t, Some ("creating memory file: " +:+ err))
  | None =>
  let t := t ++ [ESetKernel; EConfigureRestore] in
  match configureRestore e with
  | Some err => (t, Some ("configuring filesystem restore: " +:+ err))
  | None =>
  let t := t ++ [EStat (Fd specFile)] in
  match Stat specFile with
  | inl err => (t, Some err)
  | inr size =>
  if size =? 0 then (t, Some "file cannot be empty")
  else
  let t := if ProfileEnable e then t ++ [EPprofInitialize] else t in
  let t := t ++ [EInstallSeccompFilters] in
  match installSeccompFilters e with
  | Some err => (t, Some err)
  | None =>
  let t := t ++ [ELoad (Fd specFile)] in
  match Load e with
  | Some err => (t, Some err)
  | None =>
  let t := t ++ [ENewWatchdog; ESetLoader; EStart] in
  match startResult e with
  | Some err => (t, Some ("starting sandbox: " +:+ err))
  | None => (t, None)
  end end end end end end end.

Definition Restore (e : env) (Files : list File) : list effect * option string :=
  match Files with
  | [specFile; device] =>
      match Dup e with
      | inl err => ([EDup (Fd device)], Some ("failed to dup file: " +:+ err))
      | inr fd => restoreWith e specFile (Some fd) [EDup (Fd device)]
      end
  | [specFile] => restoreWith e specFile None []
  | [] => ([], Some "at least one file must be passed to Restore")
  | _ => ([], Some "at most two files may be passed to Restore")
  end.

Definition is_load (x : effect) : bool :=
  match x with ELoad _ => true | _ => false end.

(** The state file's object graph was loaded. *)
Definition loads (t : list effect) : bool := existsb is_load t.

End Boot.

(* ===================================================================== *)
(** ** runsc/sandbox/sandbox.go: destroy and the --cpu-num argument *)
(* ===================================================================== *)

Module Sandbox.
Import GoInt.

(** *** The host: files and processes

    The part of the host kernel that destroy talks to. A process that got
    SIGKILL exits some ticks later; it is then a zombie until its parent
    reaps it, which for a process that is not our child happens at once. A
    file may be one the caller cannot unlink (its directory is not writable
    or is sticky, the file system is read-only, ...): the host then has the
    error that unlink gives for it. *)

Inductive pstate :=
| Running (delay : nat)   (* exits [delay] ticks after SIGKILL *)
| Dying (n : nat)         (* got SIGKILL, exits in [n] ticks *)
| Zombie.                 (* exited, not reaped *)

Record proc := mkProc {
  is_child : bool;        (* a child of the calling process *)
  may_signal : bool;      (* the caller may signal it *)
  state : pstate
}.

Inductive errno := ESRCH | EPERM | ECHILD | ENOENT | EACCES | EROFS | EBUSY.

Record Host := mkHost {
  files : gset string;
  procs : gmap Z proc;
  unlink_fails : gmap string errno
}.

Inductive signal := Sig0 | SIGKILL.

Inductive syscall :=
| SysUnlink (path : string)
| SysKill (pid : Z) (sig : signal)
| SysWait4 (pid : Z).

Definition tick_proc (p : proc) : option proc :=
  match state p with
  | Running _ => Some p
  | Dying (S n) => Some (mkProc (is_child p) (may_signal p) (Dying n))
  | Dying O =>
      if is_child p then Some (mkProc (is_child p) (may_signal p) Zombie)
      else None
  | Zombie => if is_child p then Some p else None
  end.

(** Time passes. *)
Definition tick (h : Host) : Host :=
  mkHost (files h) (omap tick_proc (procs h)) (unlink_fails h).

(** os.Remove: unlinks the file. It fails when there is no such file and
    when the host does not let the caller unlink it; the file then stays.
    destroy only logs the error. *)
Definition os_Remove (h : Host) (path : string) : Host * option errno :=
  if decide (path ∈ files h) then
    match unlink_fails h !! path with
    | Some e => (h, Some e)
    | None => (mkHost (files h ∖ {[path]}) (procs h) (unlink_fails h), None)
    end
  else (h, Some ENOENT).

(** unix.Kill *)
Definition unix_Kill (h : Host) (pid : Z) (sig : signal) : Host * option errno :=
  match procs h !! pid with
  | None => (h, Some ESRCH)
  | Some p =>
      if negb (may_signal p) then (h, Some EPERM)
      else
        match sig, state p with
        | SIGKILL, Running d =>
            (mkHost (files h)
               (<[pid := mkProc (is_child p) (may_signal p) (Dying d)]> (procs h))
               (unlink_fails h),
             None)
        | _, _ => (h, None)
        end
  end.

(** unix.Wait4(pid, &status, 0, nil): blocks until the child has exited and
    reaps it; [None] when the child never exits. *)
Definition unix_Wait4 (h : Host) (pid : Z) : option (Host * option errno) :=
  match procs h !! pid with
  | None => Some (h, Some ECHILD)
  | Some p =>
      if negb (is_child p) then Some (h, Some ECHILD)
      else
        match state p with
        | Running _ => None
        | Dying n =>
            let h' := Nat.iter (S n) tick h in
            Some (mkHost (files h') (delete pid (procs h')) (unlink_fails h'), None)
        | Zombie =>
            Some (mkHost (files h) (delete pid (procs h)) (unlink_fails h), None)
        end
  end.

(** *** The sandbox *)

Record Sandbox := mkSandbox {
  ID : string;
  Pid : Z;
  ControlAddress : string;
  child : bool
}.

Definition set_Pid (s : Sandbox) (pid : Z) : Sandbox :=
  mkSandbox (ID s) pid (ControlAddress s) (child s).

Inductive error :=
| ErrKilling (e : errno)          (* "killing sandbox %q PID %q: %w" *)
| ErrWaiting (e : error)          (* "waiting sandbox %q stop: %w" *)
| ErrWait4 (e : errno)            (* "error waiting the sandbox process: %v" *)
| ErrStillRunning.                (* the retry loop ran out of time *)

(** How a call ends: it returns, or it blocks for ever. Either way it has made
    the system calls of the trace. *)
Inductive outcome :=
| Returns (err : option error) (s : Sandbox) (h : Host) (t : list syscall)
| Blocks (t : list syscall).

Definition IsRunning (s : Sandbox) (h : Host) : bool :=
  let pid := Pid s in
  if negb (pid =? 0) then
    match snd (unix_Kill h pid Sig0) with
    | None => true
    | Some _ => false
    end
  else false.

(** The system calls IsRunning makes. *)
Definition IsRunning_trace (s : Sandbox) : list syscall :=
  if negb (Pid s =? 0) then [SysKill (Pid s) Sig0] else [].

(** backoff.Retry of [op] at a constant interval under a deadline: [op] runs
    once and then, while it fails, once more after each interval that fits
    before the deadline, [polls] of them. *)
Fixpoint retry_IsRunning (polls : nat) (s : Sandbox) (h : Host) (t : list syscall)
  : Host * list syscall * option error :=
  let t := t ++ IsRunning_trace s in
  if IsRunning s h then
    match polls with
    | O => (h, t, Some ErrStillRunning)
    | S polls' => retry_IsRunning polls' s (tick h) t
    end
  else (h, t, None).

Definition waitForStopped (polls : nat) (s : Sandbox) (h : Host) (t : list syscall)
  : outcome :=
  if child s then
    let pid := Pid s in
    if pid =? 0 then Returns None s h t
    else
      let t := t ++ [SysWait4 pid] in
      match unix_Wait4 h pid with
      | None => Blocks t
      | Some (h', Some e) => Returns (Some (ErrWait4 e)) s h' t
      | Some (h', None) => Returns None (set_Pid s 0) h' t
      end
  else
    let '(h', t', err) := retry_IsRunning polls s h t in
    Returns err s h' t'.

(** The first byte of a Go string is not NUL. *)
Definition first_byte_nonzero (a : string) : bool :=
  match a with
  | String c _ => negb (Ascii.eqb c Ascii.zero)
  | EmptyString => false
  end.

(** The control address names a file: not empty and not an abstract socket. *)
Definition is_path (a : string) : bool :=
  (0 <? Z.of_nat (String.length a)) && first_byte_nonzero a.

Definition is_ESRCH (e : errno) : bool :=
  match e with ESRCH => true | _ => false end.

Definition destroy (polls : nat) (s : Sandbox) (h : Host) : outcome :=
  let '(h, t) :=
    if is_path (ControlAddress s)
    then (fst (os_Remove h (ControlAddress s)), [SysUnlink (ControlAddress s)])
    else (h, []) in
  let pid := Pid s in
  if negb (pid =? 0) then
    let '(h, kerr) := unix_Kill h pid SIGKILL in
    let t := t ++ [SysKill pid SIGKILL] in
    match kerr with
    | Some e =>
        if negb (is_ESRCH e) then Returns (Some (ErrKilling e)) s h t
        else
          match waitForStopped polls s h t with
          | Returns (Some e') s' h' t' => Returns (Some (ErrWaiting e')) s' h' t'
          | o => o
          end
    | None =>
        match waitForStopped polls s h t with
        | Returns (Some e') s' h' t' => Returns (Some (ErrWaiting e')) s' h' t'
        | o => o
        end
    end
  else Returns None s h t.

(** *** The --cpu-num argument of createSandboxProcess *)

(** [math.Ceil] of a float64 as an integer. *)
Definition ceil (f : spec_float) : option Z :=
  match f with
  | S754_zero _ => Some 0
  | S754_finite s m e =>
      let v := if s then Z.neg m else Z.pos m in
      Some (if 0 <=? e then v * 2 ^ e else - ((- v) / 2 ^ (- e)))
  | S754_infinity _ | S754_nan => None
  end.

(** [int(math.Ceil(f))]. A value that does not fit (or no value at all, for an
    infinity or a NaN) converts as the amd64 instruction does, to the least
    int. *)
Definition int_Ceil (f : spec_float) : Z :=
  match ceil f with
  | Some n => if (minInt64 <=? n) && (n <=? maxInt64) then n else minInt64
  | None => minInt64
  end.

(** What the sandbox's cgroup answers. *)
Record Cgroup := mkCgroup {
  NumCPU : string + Z;
  CPUQuota : string + spec_float
}.

Definition minCPUs : Z := 2.

(** The value given to --cpu-num ([None]: the flag is not passed), or the
    error createSandboxProcess returns from this fragment. *)
Definition cpu_num (cgroup : option Cgroup) (CPUNumFromQuota : bool)
  : string + option Z :=
  match cgroup with
  | None => inr None
  | Some cg =>
      match NumCPU cg with
      | inl err => inl ("getting cpu count from cgroups: " +:+ err)
      | inr cpuNum =>
          if CPUNumFromQuota then
            match CPUQuota cg with
            | inl err => inl ("getting cpu quota from cgroups: " +:+ err)
            | inr quota =>
                let n := int_Ceil quota in
                if n >? 0 then
                  let n := if n <? minCPUs then minCPUs else n in
                  if n <? cpuNum then inr (Some n) else inr (Some cpuNum)
                else inr (Some cpuNum)
            end
          else inr (Some cpuNum)
      end
  end.

End Sandbox.

(* ===================================================================== *)
(** * Theorems *)
(* ===================================================================== *)

(** ** AIO contexts *)

Module AIOSpec.
Import GoInt AIO.

(** What holds of a context from its creation on: the field is nil, and the
    channel closed, exactly when the context is dead with nothing
    outstanding, and the channel was closed once then and never before. *)
Definition inv (m : Machine) : Prop :=
  requestReady (ctx m) = (if done m then None else Some TheChan) /\
  ch_closed (chan m) = done m /\
  ch_closes (chan m) = (if done m then 1 else 0)%nat.

Lemma inv_newContext events : inv (newContext events).
Proof. unfold inv, done; simpl. auto. Qed.

Lemma checkForDone_inv c h :
  requestReady c = Some TheChan -> ch_closed h = false -> ch_closes h = 0%nat ->
  exists m', checkForDone (mkMachine c h) = Ret tt m' /\ inv m' /\
             outstanding (ctx m') = outstanding c /\ dead (ctx m') = dead c /\
             results (ctx m') = results c /\
             maxOutstanding (ctx m') = maxOutstanding c.
Proof.
  intros Hr Hc Hn. unfold checkForDone, go_close. simpl. rewrite Hr, Hc.
  destruct (dead c && (outstanding c =? 0)) eqn:E.
  - eexists; split; [reflexivity|]. unfold inv, done; simpl. rewrite E, Hn. auto.
  - eexists; split; [reflexivity|]. unfold inv, done; simpl. rewrite E, Hr, Hc, Hn. auto.
Qed.

Lemma inv_not_done m :
  inv m -> done m = false ->
  requestReady (ctx m) = Some TheChan /\ ch_closed (chan m) = false /\
  ch_closes (chan m) = 0%nat.
Proof. intros (H1 & H2 & H3) E. rewrite E in *. auto. Qed.

Lemma inv_done m :
  inv m -> done m = true ->
  requestReady (ctx m) = None /\ dead (ctx m) = true /\ outstanding (ctx m) = 0.
Proof.
  intros (H1 & H2 & H3) E. rewrite E in *. split; [assumption|].
  unfold done in E. apply andb_true_iff in E as [Hd Ho].
  split; [assumption | lia].
Qed.

(** A call keeps the invariant, and a context that is done stays done. *)
Lemma step_inv c m m' :
  inv m -> step c m = inr m' -> inv m' /\ (done m = true -> done m' = true).
Proof.
  intros Hinv Hstep. destruct (done m) eqn:Hd.
  - (* the channel is closed already: no call changes dead or outstanding *)
    destruct (inv_done m Hinv Hd) as (Hr & Hdead & Hout).
    destruct Hinv as (I1 & I2 & I3). rewrite Hd in I1, I2, I3.
    destruct m as [[rr res mx o d] [len cl cls]]; simpl in *; subst.
    destruct c; simpl in Hstep;
      unfold Prepare, FinishRequest, PopRequest, CancelPendingRequest, Drain,
             destroy, checkForDone, go_close, go_try_send in Hstep;
      simpl in Hstep;
      try (destruct res; simpl in Hstep);
      try discriminate; injection Hstep as <-;
      (split; [unfold inv, done; simpl; auto | intros _; reflexivity]).
  - destruct (inv_not_done m Hinv Hd) as (Hr & Hc & Hn).
    split; [|discriminate].
    destruct m as [[rr res mx o d] [len cl cls]]; simpl in *; subst.
    unfold done in Hd; simpl in Hd.
    destruct c; simpl in Hstep.
    + unfold Prepare in Hstep; simpl in Hstep.
      destruct d; simpl in Hd.
      * injection Hstep as <-. unfold inv, done; simpl. rewrite Hd. auto.
      * destruct (o >=? mx); injection Hstep as <-; unfold inv, done; simpl; auto.
    + unfold FinishRequest, go_try_send in Hstep; simpl in Hstep.
      destruct (len <? ch_cap)%nat; injection Hstep as <-;
        unfold inv, done; simpl; rewrite Hd; auto.
    + unfold PopRequest in Hstep; simpl in Hstep.
      destruct res as [|e rest].
      * injection Hstep as <-. unfold inv, done; simpl. rewrite Hd. auto.
      * destruct (o =? 0); [discriminate|].
        edestruct (checkForDone_inv (mkCtx (Some TheChan) rest mx (u32 (o - 1)) d)
                     (mkChan len false 0)) as (m1 & E & Hi & _); try reflexivity.
        unfold set_results, set_outstanding in Hstep; simpl in Hstep.
        rewrite E in Hstep. injection Hstep as <-. exact Hi.
    + unfold CancelPendingRequest in Hstep; simpl in Hstep.
      destruct (o =? 0); [discriminate|].
      edestruct (checkForDone_inv (mkCtx (Some TheChan) res mx (u32 (o - 1)) d)
                   (mkChan len false 0)) as (m1 & E & Hi & _); try reflexivity.
      unfold set_outstanding in Hstep; simpl in Hstep.
      rewrite E in Hstep. injection Hstep as <-. exact Hi.
    + unfold Drain in Hstep; simpl in Hstep.
      destruct (o =? 0) eqn:Ho.
      * injection Hstep as <-. unfold inv, done; simpl. rewrite Ho, Hd. auto.
      * destruct (o <? _); [discriminate|].
        edestruct (checkForDone_inv
                     (mkCtx (Some TheChan) [] mx
                        (u32 (o - u32 (Z.of_nat (length res)))) d)
                     (mkChan len false 0)) as (m1 & E & Hi & _); try reflexivity.
        unfold set_results, set_outstanding in Hstep; simpl in Hstep.
        rewrite E in Hstep. injection Hstep as <-. exact Hi.
    + unfold destroy in Hstep; simpl in Hstep.
      edestruct (checkForDone_inv (mkCtx (Some TheChan) res mx o true)
                   (mkChan len false 0)) as (m1 & E & Hi & _); try reflexivity.
      unfold set_dead in Hstep; simpl in Hstep.
      rewrite E in Hstep. injection Hstep as <-. exact Hi.
Qed.

(** No call closes the closed channel or sends on it. *)
Lemma step_panic c m p :
  inv m -> step c m = inl p -> p = PanicNegative \/ p = PanicCloseNil.
Proof.
  intros Hinv Hstep. destruct (done m) eqn:Hd.
  - destruct (inv_done m Hinv Hd) as (Hr & Hdead & Hout).
    destruct m as [[rr res mx o d] [len cl cls]]; simpl in *; subst.
    destruct c; simpl in Hstep;
      unfold Prepare, FinishRequest, PopRequest, CancelPendingRequest, Drain,
             destroy, checkForDone, go_close, go_try_send in Hstep;
      simpl in Hstep;
      try (destruct res; simpl in Hstep);
      try discriminate; injection Hstep as <-; auto.
  - destruct (inv_not_done m Hinv Hd) as (Hr & Hc & Hn).
    destruct m as [[rr res mx o d] [len cl cls]]; simpl in *; subst.
    destruct c; simpl in Hstep;
      unfold Prepare, FinishRequest, PopRequest, CancelPendingRequest, Drain,
             destroy, checkForDone, go_close, go_try_send in Hstep;
      simpl in Hstep;
      repeat match type of Hstep with
             | context [match ?r with [] => _ | _ :: _ => _ end] => destruct r
             | context [if ?b then _ else _] => destruct b
             end;
      simpl in Hstep; try discriminate; injection Hstep as <-; auto.
Qed.

(** The machines a sequence of calls goes through, the first one included. *)
Definition states (calls : list call) (m : Machine) : list Machine :=
  m :: run_trace calls m.

Lemma run_trace_inv calls : forall m, inv m -> Forall inv (run_trace calls m).
Proof.
  induction calls as [|c rest IH]; intros m Hm; simpl; [constructor|].
  destruct (step c m) as [p|m1] eqn:E; [constructor|].
  destruct (step_inv c m m1 Hm E) as [H1 _].
  constructor; auto.
Qed.

Lemma run_trace_done calls :
  forall m, inv m -> done m = true ->
            Forall (fun m' => done m' = true) (run_trace calls m).
Proof.
  induction calls as [|c rest IH]; intros m Hm Hd; simpl; [constructor|].
  destruct (step c m) as [p|m1] eqn:E; [constructor|].
  destruct (step_inv c m m1 Hm E) as [H1 H2].
  constructor; auto.
Qed.

Lemma states_done_mono calls :
  forall m i j mi mj,
    inv m -> (i <= j)%nat ->
    states calls m !! i = Some mi -> states calls m !! j = Some mj ->
    done mi = true -> done mj = true.
Proof.
  induction calls as [|c rest IH]; intros m i j mi mj Hm Hij Hi Hj Hd.
  - unfold states in *; simpl in *.
    destruct i; [|discriminate]. destruct j; [|discriminate].
    simpl in *. congruence.
  - unfold states in Hi, Hj. destruct i as [|i].
    + simpl in Hi. injection Hi as <-.
      destruct j as [|j]; simpl in Hj; [congruence|].
      pose proof (run_trace_done (c :: rest) m Hm Hd) as HF.
      rewrite Forall_lookup in HF. exact (HF j mj Hj).
    + destruct j as [|j]; [lia|]. simpl in Hi, Hj.
      destruct (step c m) as [p|m1] eqn:E; [discriminate|].
      destruct (step_inv c m m1 Hm E) as [H1 _].
      apply (IH m1 i j mi mj H1); [lia | exact Hi | exact Hj | exact Hd].
Qed.

Lemma run_panic_kind calls :
  forall m p, inv m -> run_panic calls m = Some p ->
              p = PanicNegative \/ p = PanicCloseNil.
Proof.
  induction calls as [|c rest IH]; intros m p Hm Hp; simpl in Hp; [discriminate|].
  destruct (step c m) as [q|m1] eqn:E.
  - injection Hp as <-. exact (step_panic c m q Hm E).
  - destruct (step_inv c m m1 Hm E) as [H1 _]. eauto.
Qed.

(** C1. From the creation of a context on, through any sequence of Prepare,
    FinishRequest, PopRequest, CancelPendingRequest, Drain and destroy calls:
    at every point the channel has been closed once if the context is dead
    with nothing outstanding and not at all otherwise, and WaitChannel
    returns nil exactly then; a context that has reached that point stays
    there; and no call closes the channel a second time (the only panics are
    the explicit one and the close of the nil field). *)
Theorem requestReady_closed_exactly_once (events : Z) (calls : list call) :
  (forall m, m ∈ states calls (newContext events) ->
     ch_closes (chan m) = (if done m then 1 else 0)%nat /\
     ch_closed (chan m) = done m /\
     (WaitChannel m = None <-> done m = true)) /\
  (forall i j mi mj, (i <= j)%nat ->
     states calls (newContext events) !! i = Some mi ->
     states calls (newContext events) !! j = Some mj ->
     done mi = true -> done mj = true /\ WaitChannel mj = None) /\
  run_panic calls (newContext events) <> Some PanicCloseClosed /\
  run_panic calls (newContext events) <> Some PanicSendClosed.
Proof.
  pose proof (inv_newContext events) as H0.
  assert (Hall : forall m, m ∈ states calls (newContext events) -> inv m).
  { intros m Hm. unfold states in Hm. apply elem_of_cons in Hm as [->|Hm]; [exact H0|].
    pose proof (run_trace_inv calls _ H0) as HF.
    rewrite Forall_forall in HF. auto. }
  split; [|split; [|split]].
  - intros m Hm. destruct (Hall m Hm) as (I1 & I2 & I3).
    split; [exact I3|]. split; [exact I2|].
    unfold WaitChannel. rewrite I1. destruct (done m); split; congruence.
  - intros i j mi mj Hij Hi Hj Hd.
    assert (Hdj : done mj = true)
      by exact (states_done_mono calls _ i j mi mj H0 Hij Hi Hj Hd).
    split; [exact Hdj|].
    assert (Hin : mj ∈ states calls (newContext events))
      by (apply list_elem_of_lookup; eauto).
    destruct (Hall mj Hin) as (I1 & _). unfold WaitChannel. rewrite I1, Hdj. reflexivity.
  - intros E. destruct (run_panic_kind calls _ _ H0 E); discriminate.
  - intros E. destruct (run_panic_kind calls _ _ H0 E); discriminate.
Qed.

(** A second destroy of a context with nothing outstanding stops in the
    close of the nil field; the channel was closed once, by the first. *)
Example destroy_twice :
  run_panic [CallDestroy; CallDestroy] (newContext 8) = Some PanicCloseNil /\
  (exists m, run [CallDestroy] (newContext 8) = Some m /\
             ch_closes (chan m) = 1%nat /\ WaitChannel m = None).
Proof. split; [reflexivity|]. eexists. repeat split. Qed.

(** The results of [n] calls of Prepare in a row, and the machine after them. *)
Fixpoint prepares (n : nat) (m : Machine) : list (option errno) * Machine :=
  match n with
  | O => ([], m)
  | S n' =>
      match Prepare m with
      | Ret r m' => let '(rs, m'') := prepares n' m' in (r :: rs, m'')
      | Panic _ m' => ([], m')
      end
  end.

(** C3. Prepare returns EINVAL on a dead context, whatever its load; on a
    live one it returns EAGAIN when outstanding >= maxOutstanding and
    otherwise adds one to outstanding and returns nil. maxOutstanding is the
    events value of newAIOContext, and on a context made with events = 8,
    eight calls return nil and the ninth EAGAIN. *)
Theorem Prepare_spec (m : Machine) :
  wf (ctx m) ->
  (dead (ctx m) = true -> Prepare m = Ret (Some EINVAL) m) /\
  (dead (ctx m) = false -> outstanding (ctx m) >= maxOutstanding (ctx m) ->
   Prepare m = Ret (Some EAGAIN) m) /\
  (dead (ctx m) = false -> outstanding (ctx m) < maxOutstanding (ctx m) ->
   Prepare m =
   Ret None (mkMachine (set_outstanding (ctx m) (outstanding (ctx m) + 1)) (chan m))) /\
  (forall contexts events id, contexts !! id = None ->
     exists m0, newAIOContext contexts events id = (<[id := m0]> contexts, true) /\
                maxOutstanding (ctx m0) = events /\ outstanding (ctx m0) = 0 /\
                dead (ctx m0) = false) /\
  (exists m8, prepares 8 (newContext 8) = (repeat None 8, m8) /\
              outstanding (ctx m8) = 8 /\
              Prepare m8 = Ret (Some EAGAIN) m8).
Proof.
  intros [[Ho1 Ho2] [Hm1 Hm2]].
  split; [|split; [|split; [|split]]].
  - intros Hd. unfold Prepare. rewrite Hd. reflexivity.
  - intros Hd Hge. unfold Prepare. rewrite Hd.
    destruct (outstanding (ctx m) >=? maxOutstanding (ctx m)) eqn:E; [reflexivity|lia].
  - intros Hd Hlt. unfold Prepare. rewrite Hd.
    destruct (outstanding (ctx m) >=? maxOutstanding (ctx m)) eqn:E; [lia|].
    unfold u32. rewrite Z.mod_small by lia. reflexivity.
  - intros contexts events id Hid. unfold newAIOContext. rewrite Hid.
    eexists. split; [reflexivity|]. simpl. auto.
  - eexists. split; [vm_compute; reflexivity|]. split; reflexivity.
Qed.

Lemma Prepare_spec_witness :
  wf (ctx (newContext 8)) /\
  Prepare (newContext 8) =
  Ret None (mkMachine (set_outstanding (ctx (newContext 8)) 1) (chan (newContext 8))).
Proof.
  assert (W : wf (ctx (newContext 8))) by (unfold wf; simpl; lia).
  split; [exact W|].
  destruct (Prepare_spec (newContext 8) W) as (_ & _ & H & _).
  apply H; [reflexivity | simpl; lia].
Defined.

(** C4, as stated, fails: after one Prepare and one FinishRequest, Drain
    takes outstanding from 1 to 0; and on a context that got a FinishRequest
    with no Prepare, Drain returns with the result still in the list. *)
Lemma Drain_keeps_outstanding_counterexample :
  (exists m m',
     run [CallPrepare; CallFinishRequest 7] (newContext 8) = Some m /\
     Drain m = Ret tt m' /\
     outstanding (ctx m) = 1 /\ outstanding (ctx m') = 0) /\
  (exists m m',
     run [CallFinishRequest 7] (newContext 8) = Some m /\
     Drain m = Ret tt m' /\ results (ctx m') = [7]).
Proof.
  split; do 2 eexists; (split; [vm_compute; reflexivity|]);
    (split; [vm_compute; reflexivity|]); try split; reflexivity.
Qed.

(** C4, amended. On a context whose completed results are all counted in
    outstanding, Drain returns, the list of completed results is empty
    afterwards, outstanding went down by the number of results dropped, and
    so the number of pending requests is what it was; dead and
    maxOutstanding are untouched. *)
Theorem Drain_spec (m : Machine) :
  inv m -> wf (ctx m) ->
  Z.of_nat (length (results (ctx m))) <= outstanding (ctx m) ->
  exists m', Drain m = Ret tt m' /\
             results (ctx m') = [] /\
             outstanding (ctx m') =
               outstanding (ctx m) - Z.of_nat (length (results (ctx m))) /\
             pending (ctx m') = pending (ctx m) /\
             dead (ctx m') = dead (ctx m) /\
             maxOutstanding (ctx m') = maxOutstanding (ctx m).
Proof.
  intros Hinv [[Ho1 Ho2] _] Hlen. unfold Drain.
  destruct (outstanding (ctx m) =? 0) eqn:E0.
  - assert (Hnil : results (ctx m) = []).
    { destruct (results (ctx m)); [reflexivity|]. simpl in Hlen. lia. }
    exists m. unfold pending. rewrite Hnil. simpl.
    repeat split; try reflexivity; lia.
  - assert (Hsz : u32 (Z.of_nat (length (results (ctx m))))
                  = Z.of_nat (length (results (ctx m))))
      by (unfold u32; apply Z.mod_small; lia).
    rewrite Hsz.
    destruct (outstanding (ctx m) <? Z.of_nat (length (results (ctx m)))) eqn:E1; [lia|].
    assert (Hnd : done m = false)
      by (unfold done; rewrite E0; apply andb_false_r).
    destruct (inv_not_done m Hinv Hnd) as (Hr & Hc & Hn).
    edestruct (checkForDone_inv
                 (set_results
                    (set_outstanding (ctx m)
                       (u32 (outstanding (ctx m) - Z.of_nat (length (results (ctx m))))))
                    []) (chan m))
      as (m1 & E & _ & Ho & Hd & Hres & Hmx); [exact Hr | exact Hc | exact Hn |].
    exists m1. split; [exact E|]. simpl in Ho, Hd, Hres, Hmx.
    assert (Hu : u32 (outstanding (ctx m) - Z.of_nat (length (results (ctx m))))
                 = outstanding (ctx m) - Z.of_nat (length (results (ctx m))))
      by (unfold u32; apply Z.mod_small; lia).
    rewrite Hu in Ho.
    split; [exact Hres|]. split; [exact Ho|].
    split; [unfold pending; rewrite Hres, Ho; simpl; lia|].
    split; [exact Hd | exact Hmx].
Qed.

Lemma Drain_spec_witness :
  exists m m',
    run [CallPrepare; CallPrepare; CallFinishRequest 7] (newContext 8) = Some m /\
    Drain m = Ret tt m' /\ results (ctx m') = [] /\
    outstanding (ctx m) = 2 /\ outstanding (ctx m') = 1.
Proof.
  eexists. 
  assert (Hi : inv (mkMachine (mkCtx (Some TheChan) [7] 8 2 false) (mkChan 1 false 0)))
    by (unfold inv, done; simpl; auto).
  assert (Hw : wf (mkCtx (Some TheChan) [7] 8 2 false))
    by (unfold wf; simpl; lia).
  destruct (Drain_spec _ Hi Hw) as (m' & E & Hres & Ho & _); [simpl; lia|].
  exists m'. split; [vm_compute; reflexivity|].
  split; [exact E|]. split; [exact Hres|]. split; [reflexivity|].
  rewrite Ho. reflexivity.
Defined.

End AIOSpec.

(** ** The amd64 mmap layout *)

Module ArchSpec.
Import GoInt Arch.

Lemma page_mask : u64 (Z.lnot (PageSize - 1)) = Z.shiftl (Z.ones 52) 12.
Proof. reflexivity. Qed.

(** On a uint64, RoundDown clears the twelve low bits. *)
Lemma RoundDown_eq v : 0 <= v < 2 ^ 64 -> RoundDown v = PageSize * (v / PageSize).
Proof.
  intros Hv. unfold RoundDown. rewrite page_mask.
  change PageSize with (2 ^ 12).
  apply Z.bits_inj'. intros n Hn.
  rewrite Z.land_spec, Z.shiftl_spec by lia.
  rewrite Z.mul_comm, Z.mul_pow2_bits by lia.
  destruct (Z.ltb_spec n 12) as [Hlt|Hge].
  - rewrite (Z.testbit_neg_r (Z.ones 52)) by lia.
    rewrite (Z.testbit_neg_r (v / 2 ^ 12)) by lia.
    apply andb_false_r.
  - rewrite Z.div_pow2_bits by lia.
    replace (n - 12 + 12) with n by lia.
    destruct (Z.ltb_spec n 64) as [Hlt'|Hge'].
    + rewrite Z.ones_spec_low by lia. apply andb_true_r.
    + rewrite Z.ones_spec_high by lia. rewrite andb_false_r.
      symmetry. apply Z.bits_above_log2; [lia|].
      destruct (Z.eq_dec v 0) as [->|Hnz]; [simpl; lia|].
      apply Z.log2_lt_pow2; [lia|].
      apply Z.lt_le_trans with (2 ^ 64); [lia|].
      apply Z.pow_le_mono_r; lia.
Qed.

Lemma RoundDown_bounds v :
  0 <= v < 2 ^ 64 -> v - PageSize < RoundDown v <= v /\ 0 <= RoundDown v.
Proof.
  intros Hv. rewrite RoundDown_eq by exact Hv. unfold PageSize.
  Z.div_mod_to_equations. lia.
Qed.

(** A page-aligned bound passes through RoundDown. *)
Lemma RoundDown_ge_aligned v a :
  0 <= v < 2 ^ 64 -> 0 <= a -> a <= v -> RoundDown v >= PageSize * (a / PageSize).
Proof.
  intros Hv Ha Hav. rewrite RoundDown_eq by exact Hv. unfold PageSize.
  assert (a / 4096 <= v / 4096) by (apply Z.div_le_mono; lia). lia.
Qed.

(** The draw bound is between minMmapRand64 and maxMmapRand64, so Int63n
    gets a positive argument. *)
Definition maxRand_of (max gap : Z) : Z :=
  let topDownMin := u64 (u64 (max - gap) - maxMmapRand64) in
  if topDownMin <? preferredTopDownBaseMin then
    let maxAdjust := u64 (maxMmapRand64 - minMmapRand64) in
    let needAdjust := u64 (preferredTopDownBaseMin - topDownMin) in
    if needAdjust <=? maxAdjust then u64 (maxMmapRand64 - needAdjust)
    else maxMmapRand64
  else maxMmapRand64.

Lemma maxRand_bounds max gap :
  minMmapRand64 <= maxRand_of max gap <= maxMmapRand64.
Proof.
  unfold maxRand_of.
  set (t := u64 (u64 (max - gap) - maxMmapRand64)).
  assert (Ht : 0 <= t < 2 ^ 64) by (unfold t, u64; apply Z.mod_pos_bound; lia).
  change maxMmapRand64 with (2 ^ 40) in *. change minMmapRand64 with (2 ^ 38) in *.
  change preferredTopDownBaseMin with 0x7ea000000000 in *.
  destruct (t <? 0x7ea000000000) eqn:E1; [|lia].
  change (u64 (2 ^ 40 - 2 ^ 38)) with (3 * 2 ^ 38).
  assert (Hn : u64 (0x7ea000000000 - t) = 0x7ea000000000 - t)
    by (unfold u64; apply Z.mod_small; lia).
  rewrite Hn.
  destruct (0x7ea000000000 - t <=? 3 * 2 ^ 38) eqn:E2; [|lia].
  unfold u64. rewrite Z.mod_small by lia. lia.
Qed.

(** The stack gap: the stack limit, at least minGap64, at most 5/6 of max. *)
Definition gap_of (max stackCur : Z) : Z :=
  let maxGap := (max / 6) * 5 in
  let gap := if stackCur <? minGap64 then minGap64 else stackCur in
  if gap >? maxGap then maxGap else gap.

(** NewMmapLayout, with the two computations above named. *)
Lemma NewMmapLayout_unfold Int63n min max stackCur :
  NewMmapLayout Int63n min max stackCur =
  let '(min', ok) := RoundUp min in
  if negb ok then Error
  else
    let max' := RoundDown (if max >? maxAddr64 then maxAddr64 else max) in
    if min' >? max' then Error
    else
      let gap := gap_of max' stackCur in
      let maxRand := maxRand_of max' gap in
      match mmapRand Int63n maxRand with
      | None => PanicInt63n
      | Some rnd =>
          let l := mkLayout min' max'
                     (RoundDown (u64 (max' / 3 + rnd)))
                     (RoundDown (u64 (u64 (max' - gap) - rnd)))
                     (if stackCur =? Infinity then MmapBottomUp else MmapTopDown)
                     maxRand in
          if negb (Valid l) then PanicInvalid l else Layout l
      end.
Proof. reflexivity. Qed.

Lemma Valid_true l :
  Valid l = true <->
  MinAddr l <= BottomUpBase l <= MaxAddr l /\ MinAddr l <= TopDownBase l <= MaxAddr l.
Proof.
  unfold Valid.
  destruct (Z.gtb_spec (MinAddr l) (MaxAddr l));
    destruct (Z.ltb_spec (BottomUpBase l) (MinAddr l));
    destruct (Z.gtb_spec (BottomUpBase l) (MaxAddr l));
    destruct (Z.ltb_spec (TopDownBase l) (MinAddr l));
    destruct (Z.gtb_spec (TopDownBase l) (MaxAddr l));
    split; intros; try discriminate; try reflexivity; lia.
Qed.

(** C5, as stated, fails: for the range [0, 4096] and a draw of two pages the
    layout's bases lie above MaxAddr and the final check panics. So it does for
    the whole amd64 range when min is its top. *)
Lemma NewMmapLayout_panic_counterexample :
  (exists l, NewMmapLayout (fun _ => 8192) 0 4096 (Z.shiftl 8 20) = PanicInvalid l /\
             MinAddr l = 0 /\ MaxAddr l = 4096 /\ BottomUpBase l = 8192) /\
  (exists l, NewMmapLayout (fun _ => 0) maxAddr64 maxAddr64 (Z.shiftl 8 20)
             = PanicInvalid l /\
             MinAddr l = maxAddr64 /\ TopDownBase l < maxAddr64).
Proof.
  split; eexists; (split; [vm_compute; reflexivity|]); simpl; repeat split.
Qed.

(** C5, amended. For a random source that keeps the contract of rand.Int63n,
    NewMmapLayout returns an error (exactly when min cannot be rounded up or
    lies above max), or a layout that satisfies Valid, so never one with
    MinAddr > MaxAddr, or it stops in the panic of its final check on a layout
    that is not valid; Int63n never gets a bound it panics on. When the range
    leaves room, min + PageSize + maxMmapRand64 <= max' / 6 for the clamped
    and rounded max', a layout is returned and the panic is not reached. *)
Theorem NewMmapLayout_spec (Int63n : Z -> Z) (min max stackCur : Z) :
  (forall n, 0 < n -> 0 <= Int63n n < n) ->
  0 <= min < 2 ^ 64 -> 0 <= max < 2 ^ 64 -> 0 <= stackCur < 2 ^ 64 ->
  match NewMmapLayout Int63n min max stackCur with
  | Error =>
      snd (RoundUp min) = false \/
      fst (RoundUp min) > RoundDown (Z.min max maxAddr64)
  | Layout l => Valid l = true /\ MinAddr l <= MaxAddr l
  | PanicInvalid l => Valid l = false
  | PanicInt63n => False
  end /\
  (min + PageSize + maxMmapRand64 <= RoundDown (Z.min max maxAddr64) / 6 ->
   exists l, NewMmapLayout Int63n min max stackCur = Layout l).
Proof.
  intros Hrand Hmin Hmax Hstack.
  rewrite NewMmapLayout_unfold. unfold RoundUp. cbv beta iota zeta.
  assert (Hmx : (if max >? maxAddr64 then maxAddr64 else max) = Z.min max maxAddr64).
  { destruct (Z.gtb_spec max maxAddr64); lia. }
  rewrite Hmx. clear Hmx.
  set (M := RoundDown (Z.min max maxAddr64)).
  assert (HM0 : 0 <= Z.min max maxAddr64 < 2 ^ 64).
  { change maxAddr64 with (2 ^ 47 - 4096). lia. }
  pose proof (RoundDown_bounds _ HM0) as HMb. fold M in HMb.
  assert (HMtop : M <= 2 ^ 47 - 4096).
  { change maxAddr64 with (2 ^ 47 - 4096) in HMb. lia. }
  set (g := gap_of M stackCur).
  assert (Hg : 0 <= g <= (M / 6) * 5).
  { unfold g, gap_of. change minGap64 with (2 ^ 27 + 2 ^ 34).
    assert (0 <= M / 6) by (apply Z.div_pos; lia).
    destruct (stackCur <? 2 ^ 27 + 2 ^ 34) eqn:E1;
      match goal with |- context [if ?b then _ else _] => destruct b eqn:E2 end;
      lia. }
  pose proof (maxRand_bounds M g) as HR.
  change minMmapRand64 with (2 ^ 38) in HR. change maxMmapRand64 with (2 ^ 40) in HR.
  set (R := maxRand_of M g) in *.
  assert (Hdraw : mmapRand Int63n R = Some (RoundDown (Int63n R))).
  { unfold mmapRand, int64_of_uint64.
    destruct (Z.ltb_spec R (2 ^ 63)); [|lia]. cbv zeta.
    destruct (Z.leb_spec R 0); [lia|reflexivity]. }
  assert (Hr : 0 <= Int63n R < R) by (apply Hrand; lia).
  assert (Hr64 : 0 <= Int63n R < 2 ^ 64) by lia.
  pose proof (RoundDown_bounds _ Hr64) as Hrnd.
  set (rnd := RoundDown (Int63n R)) in *.
  split.
  - set (m' := RoundDown (u64 (min + PageSize - 1))).
    destruct (m' >=? min) eqn:Eok; simpl; [|left; reflexivity].
    destruct (Z.gtb_spec m' M) as [Hgt|Hle]; [right; lia|].
    rewrite Hdraw. cbv zeta.
    match goal with |- context [Valid ?l] => destruct (Valid l) eqn:EV end;
      cbv beta iota delta [negb].
    + split; [exact EV | simpl; lia].
    + exact EV.
  - intros Hroom. change PageSize with 4096 in Hroom.
    change maxMmapRand64 with (2 ^ 40) in Hroom.
    assert (HM6 : M / 6 * 6 <= M) by (Z.div_mod_to_equations; lia).
    assert (HM3 : M / 3 * 3 <= M) by (Z.div_mod_to_equations; lia).
    change (min + PageSize - 1) with (min + 4096 - 1).
    assert (Hu : u64 (min + 4096 - 1) = min + 4095)
      by (unfold u64; rewrite Z.mod_small by lia; lia).
    rewrite Hu.
    assert (Ha : 0 <= min + 4095 < 2 ^ 64) by lia.
    pose proof (RoundDown_bounds _ Ha) as Hm'.
    pose proof (RoundDown_eq _ Ha) as Hm'eq. change PageSize with 4096 in Hm', Hm'eq.
    set (m' := RoundDown (min + 4095)) in *.
    assert (Hm'ge : min <= m').
    { rewrite Hm'eq. Z.div_mod_to_equations. lia. }
    destruct (Z.geb_spec m' min) as [_|]; [simpl|lia].
    destruct (Z.gtb_spec m' M) as [|_]; [lia|].
    rewrite Hdraw. cbv zeta.
    assert (Hb1 : u64 (M / 3 + rnd) = M / 3 + rnd).
    { unfold u64. apply Z.mod_small. Z.div_mod_to_equations. lia. }
    assert (Hb2 : u64 (M - g) = M - g) by (unfold u64; apply Z.mod_small; lia).
    assert (Hb3 : u64 (M - g - rnd) = M - g - rnd)
      by (unfold u64; apply Z.mod_small; lia).
    rewrite Hb1, Hb2, Hb3.
    assert (Hx1 : 0 <= M / 3 + rnd < 2 ^ 64) by (Z.div_mod_to_equations; lia).
    assert (Hx2 : 0 <= M - g - rnd < 2 ^ 64) by lia.
    pose proof (RoundDown_bounds _ Hx1) as Hbu.
    pose proof (RoundDown_bounds _ Hx2) as Htd.
    assert (Hbu' : RoundDown (M / 3 + rnd) >= m').
    { rewrite Hm'eq. apply (RoundDown_ge_aligned _ _ Hx1); [lia|].
      Z.div_mod_to_equations. lia. }
    assert (Htd' : RoundDown (M - g - rnd) >= m').
    { rewrite Hm'eq. apply (RoundDown_ge_aligned _ _ Hx2); lia. }
    match goal with |- context [Valid ?l] => assert (HV : Valid l = true) end.
    { apply Valid_true. simpl. split; split; lia. }
    rewrite HV. simpl. eexists. reflexivity.
Qed.

Lemma NewMmapLayout_spec_witness :
  exists l, NewMmapLayout (fun n => n / 2) 65536 maxAddr64 (Z.shiftl 8 20) = Layout l.
Proof.
  apply (NewMmapLayout_spec (fun n => n / 2) 65536 maxAddr64 (Z.shiftl 8 20)).
  - intros n Hn. Z.div_mod_to_equations. lia.
  - lia.
  - vm_compute. split; [discriminate|reflexivity].
  - vm_compute. split; [discriminate|reflexivity].
  - vm_compute. discriminate.
Defined.

End ArchSpec.

(** ** The seccomp rules of the control server *)

Module FilterSpec.
Import GoInt Filter.

Lemma u64_fd fd : 0 <= fd < 2 ^ 64 -> u64 fd = fd.
Proof. intros H. unfold u64. apply Z.mod_small. exact H. Qed.

(** C6. For every fd, controlServerFilters(fd) has rules for three syscalls
    and no other: accept4 with one rule, first argument fd; listen with one
    rule, arguments fd and 16; getsockopt with one rule, any socket, level
    SOL_SOCKET, option SO_PEERCRED. A call is allowed by it exactly when it is
    one of these. *)
Theorem controlServerFilters_exact (fd : Z) :
  dom (controlServerFilters fd) = {[SYS_ACCEPT4; SYS_LISTEN; SYS_GETSOCKOPT]} /\
  size (controlServerFilters fd) = 3%nat /\
  controlServerFilters fd !! SYS_ACCEPT4 = Some [[EqualTo (u64 fd)]] /\
  controlServerFilters fd !! SYS_LISTEN = Some [[EqualTo (u64 fd); EqualTo 16]] /\
  controlServerFilters fd !! SYS_GETSOCKOPT
    = Some [[MatchAny; EqualTo SOL_SOCKET; EqualTo SO_PEERCRED]] /\
  (forall sysno, sysno <> SYS_ACCEPT4 -> sysno <> SYS_LISTEN ->
                 sysno <> SYS_GETSOCKOPT ->
                 controlServerFilters fd !! sysno = None) /\
  (forall sysno a0 a1 a2 rest,
     allows (controlServerFilters fd) sysno (a0 :: a1 :: a2 :: rest) = true <->
     (sysno = SYS_ACCEPT4 /\ a0 = u64 fd) \/
     (sysno = SYS_LISTEN /\ a0 = u64 fd /\ a1 = 16) \/
     (sysno = SYS_GETSOCKOPT /\ a1 = SOL_SOCKET /\ a2 = SO_PEERCRED)) /\
  (0 <= fd < 2 ^ 64 -> u64 fd = fd).
Proof.
  assert (Hother : forall sysno, sysno <> SYS_ACCEPT4 -> sysno <> SYS_LISTEN ->
                     sysno <> SYS_GETSOCKOPT ->
                     controlServerFilters fd !! sysno = None).
  { intros sysno H1 H2 H3. unfold controlServerFilters.
    rewrite !lookup_insert_ne by congruence. apply lookup_empty. }
  assert (Hdom : dom (controlServerFilters fd)
                 = {[SYS_ACCEPT4; SYS_LISTEN; SYS_GETSOCKOPT]}).
  { unfold controlServerFilters. rewrite !dom_insert_L, dom_empty_L. set_solver. }
  split; [exact Hdom|].
  split.
  { unfold controlServerFilters.
    rewrite !map_size_insert_None, map_size_empty; [reflexivity|..];
      rewrite ?lookup_insert_ne by discriminate; apply lookup_empty. }
  split; [reflexivity|]. split; [reflexivity|]. split; [reflexivity|].
  split; [exact Hother|].
  split; [|apply u64_fd].
  intros sysno a0 a1 a2 rest. unfold allows.
  destruct (decide (sysno = SYS_ACCEPT4)) as [->|N1].
  { change (controlServerFilters fd !! SYS_ACCEPT4) with (Some [[EqualTo (u64 fd)]]).
    simpl. rewrite orb_false_r, andb_true_r, Z.eqb_eq.
    split; [auto|]. intros [[_ H]|[[H _]|[H _]]]; [exact H|discriminate H..]. }
  destruct (decide (sysno = SYS_LISTEN)) as [->|N2].
  { change (controlServerFilters fd !! SYS_LISTEN)
      with (Some [[EqualTo (u64 fd); EqualTo 16]]).
    simpl. rewrite orb_false_r, andb_true_r, andb_true_iff, !Z.eqb_eq.
    split; [intros [? ?]; auto|].
    intros [[H _]|[[_ H]|[H _]]]; [discriminate H|exact H|discriminate H]. }
  destruct (decide (sysno = SYS_GETSOCKOPT)) as [->|N3].
  { change (controlServerFilters fd !! SYS_GETSOCKOPT)
      with (Some [[MatchAny; EqualTo SOL_SOCKET; EqualTo SO_PEERCRED]]).
    simpl. rewrite orb_false_r, andb_true_r, andb_true_iff, !Z.eqb_eq.
    split; [intros [? ?]; auto|].
    intros [[H _]|[[H _]|[_ H]]]; [discriminate H..|exact H]. }
  rewrite (Hother sysno N1 N2 N3).
  split; [discriminate|]. intros [[H _]|[[H _]|[H _]]]; contradiction.
Qed.

End FilterSpec.

(** ** Dentry mutexes in rename *)

Module VFSSpec.
Import VFS.

(** C7, as stated, fails: renaming the dentry at 0x1000 over the one at
    0x2000 locks 0x2000 first, and the other way round locks 0x1000 first, so
    the order is neither ascending nor descending by address. *)
Lemma PrepareRenameDentry_address_order_counterexample :
  (PrepareRenameDentry ∅ 0x1000 (Some 0x2000) =
     ([Lock mountMu; Lock (dentryMu 0x2000); Lock (dentryMu 0x1000); Unlock mountMu],
      None) /\
   ascending
     (dentry_locks (fst (PrepareRenameDentry ∅ 0x1000 (Some 0x2000)))) = false) /\
  (PrepareRenameDentry ∅ 0x2000 (Some 0x1000) =
     ([Lock mountMu; Lock (dentryMu 0x1000); Lock (dentryMu 0x2000); Unlock mountMu],
      None) /\
   descending
     (dentry_locks (fst (PrepareRenameDentry ∅ 0x2000 (Some 0x1000)))) = false).
Proof. repeat split. Qed.

(** C7, amended. When neither dentry is a mount point of the namespace,
    PrepareRenameDentry(mntns, from, to) with to != nil succeeds and acquires
    to.mu and then from.mu, in that order whatever the addresses, both while it
    holds vfs.mountMu; when from or to is a mount point it returns EBUSY and
    acquires neither. *)
Theorem PrepareRenameDentry_spec (mountpoints : gmap Dentry Z) (from to : Dentry) :
  (mountpoints_at mountpoints from = 0 -> mountpoints_at mountpoints to = 0 ->
   PrepareRenameDentry mountpoints from (Some to) =
   ([Lock mountMu; Lock (dentryMu to); Lock (dentryMu from); Unlock mountMu], None)) /\
  (mountpoints_at mountpoints from <> 0 \/ mountpoints_at mountpoints to <> 0 ->
   PrepareRenameDentry mountpoints from (Some to) =
   ([Lock mountMu; Unlock mountMu], Some EBUSY)) /\
  (snd (PrepareRenameDentry mountpoints from (Some to)) = None ->
   dentry_locks (fst (PrepareRenameDentry mountpoints from (Some to))) = [to; from]) /\
  (snd (PrepareRenameDentry mountpoints from (Some to)) = Some EBUSY ->
   dentry_locks (fst (PrepareRenameDentry mountpoints from (Some to))) = []) /\
  locks_under_mountMu false (fst (PrepareRenameDentry mountpoints from (Some to)))
    = true.
Proof.
  unfold PrepareRenameDentry.
  destruct (Z.eqb_spec (mountpoints_at mountpoints from) 0) as [Hf|Hf];
    destruct (Z.eqb_spec (mountpoints_at mountpoints to) 0) as [Ht|Ht]; simpl;
    repeat split; try reflexivity; try discriminate; try contradiction;
    intros; try lia; try (intuition congruence).
Qed.

End VFSSpec.

(** ** mount(2) flags *)

Module SysMountSpec.
Import GoInt SysMount.

(** A flag that is part of a mask and set in [f] shows through the mask. *)
Lemma land_submask f F U : Z.land F U = F -> Z.land f U = 0 -> Z.land f F = 0.
Proof.
  intros HF H0. rewrite <- HF, Z.land_assoc, (Z.land_comm f F), <- Z.land_assoc, H0.
  apply Z.land_0_r.
Qed.

Lemma land_pow2 f k : 0 <= k -> Z.land f (2 ^ k) = 0 \/ Z.land f (2 ^ k) = 2 ^ k.
Proof.
  intros Hk. destruct (Z.testbit f k) eqn:E; [right|left];
    apply Z.bits_inj'; intros n Hn;
    rewrite Z.land_spec, Z.pow2_bits_eqb by lia;
    destruct (Z.eqb_spec k n) as [<-|Hne];
    rewrite ?E, ?Z.bits_0, ?andb_false_r; reflexivity.
Qed.

(** The propagation flags set in [f]. *)
Definition propagation_set (f : Z) : list Z :=
  List.filter (fun F => negb (Z.land f F =? 0))
              [MS_SHARED; MS_PRIVATE; MS_SLAVE; MS_UNBINDABLE].

Lemma rejected_in_unsupported F :
  In F rejected_flags -> Z.land F unsupported = F.
Proof.
  unfold rejected_flags. simpl.
  intros [<-|[<-|[<-|[<-|[<-|[<-|[<-|[]]]]]]]]; reflexivity.
Qed.

Lemma propFlag_cases f :
  Z.land f unsupported = 0 ->
  let p := Z.land f propagationFlags in
  (p = 0 /\ propagation_set f = []) \/
  (p = MS_SHARED /\ propagation_set f = [MS_SHARED]) \/
  (p = MS_PRIVATE /\ propagation_set f = [MS_PRIVATE]) \/
  (p = Z.lor MS_SHARED MS_PRIVATE /\ propagation_set f = [MS_SHARED; MS_PRIVATE]).
Proof.
  intros Hu.
  assert (Hs : Z.land f MS_SLAVE = 0) by (apply (land_submask f _ unsupported); auto).
  assert (Hb : Z.land f MS_UNBINDABLE = 0)
    by (apply (land_submask f _ unsupported); auto).
  unfold propagationFlags, propagation_set. cbn [List.filter].
  rewrite !Z.land_lor_distr_r, !Hs, !Hb, !Z.lor_0_r.
  destruct (land_pow2 f 20) as [H1|H1]; [lia|..];
    destruct (land_pow2 f 18) as [H2|H2]; try lia;
    change (2 ^ 20) with MS_SHARED in H1; change (2 ^ 18) with MS_PRIVATE in H2;
    rewrite ?H1, ?H2, ?Hs, ?Hb; simpl; auto 6.
Qed.

(** C10, as stated, fails: a caller without CAP_SYS_ADMIN gets EPERM, not
    EINVAL, for MS_REMOUNT; and with MS_BIND set, two propagation flags do not
    yield EINVAL: the call binds. *)
Lemma Mount_EINVAL_counterexample :
  Mount (mkEnv false None None None None None None None None 0 None None) MS_REMOUNT
    = (Some EPERM, None) /\
  EPERM <> EINVAL /\
  Mount (mkEnv true None None None None None None None None 0 None None)
        (Z.lor MS_BIND (Z.lor MS_SHARED MS_PRIVATE))
    = (None, Some BindAt).
Proof. repeat split. discriminate. Qed.

(** C10, amended. For a caller with CAP_SYS_ADMIN, Mount returns EINVAL
    whenever the flags, the pre-2.4 magic stripped, include one of MS_REMOUNT,
    MS_SLAVE, MS_UNBINDABLE, MS_MOVE, MS_REC, MS_NODIRATIME, MS_STRICTATIME
    (a caller without it gets EPERM first). Whatever the caller,
    SetMountPropagationAt is only ever reached with the single flag MS_SHARED
    or MS_PRIVATE, never with a slave or unbindable change; and a call that
    gets as far as the propagation test (target path resolved, no MS_BIND)
    with more than one propagation flag returns EINVAL. *)
Theorem Mount_flags (e : env) (flags : Z) :
  (hasCapSysAdmin e = false -> Mount e flags = (Some EPERM, None)) /\
  (hasCapSysAdmin e = true ->
   forall F, In F rejected_flags -> Z.land (strip_magic flags) F <> 0 ->
             Mount e flags = (Some EINVAL, None)) /\
  (forall r p, Mount e flags = (r, Some (SetMountPropagationAt p)) ->
               (p = MS_SHARED \/ p = MS_PRIVATE) /\
               propagation_set (strip_magic flags) = [p] /\
               Z.land (strip_magic flags) MS_SLAVE = 0 /\
               Z.land (strip_magic flags) MS_UNBINDABLE = 0) /\
  (hasCapSysAdmin e = true ->
   copyInPath_target e = None -> getTaskPathOperation_target e = None ->
   has (strip_magic flags) MS_BIND = false ->
   (2 <= length (propagation_set (strip_magic flags)))%nat ->
   Mount e flags = (Some EINVAL, None)).
Proof.
  unfold Mount. set (f := strip_magic flags).
  split; [intros ->; reflexivity|].
  split; [|split].
  - intros -> F HF Hset. simpl.
    destruct (Z.eqb_spec (Z.land f unsupported) 0) as [H0|]; [|reflexivity].
    exfalso. apply Hset.
    exact (land_submask f F unsupported (rejected_in_unsupported F HF) H0).
  - intros r p. destruct (hasCapSysAdmin e); simpl; [|discriminate].
    destruct (Z.eqb_spec (Z.land f unsupported) 0) as [H0|]; simpl; [|discriminate].
    destruct (copyInPath_target e); [discriminate|].
    destruct (getTaskPathOperation_target e); [discriminate|].
    destruct (has f MS_BIND).
    { destruct (copyInPath_source e); [discriminate|].
      destruct (getTaskPathOperation_source e); discriminate. }
    assert (Hs : Z.land f MS_SLAVE = 0)
      by (apply (land_submask f _ unsupported); auto).
    assert (Hb : Z.land f MS_UNBINDABLE = 0)
      by (apply (land_submask f _ unsupported); auto).
    destruct (propFlag_cases f H0) as [[Hp Hl]|[[Hp Hl]|[[Hp Hl]|[Hp Hl]]]];
      rewrite Hp, Hl; simpl.
    + destruct (CopyInString_source e); [discriminate|].
      destruct (CopyInString_type e); [discriminate|].
      destruct (if dataAddr e =? 0 then None else CopyInString_data e); discriminate.
    + intros H. injection H as _ <-. auto.
    + intros H. injection H as _ <-. auto.
    + discriminate.
  - intros -> -> -> Hbind Hlen. simpl.
    destruct (Z.eqb_spec (Z.land f unsupported) 0) as [H0|]; simpl; [|reflexivity].
    rewrite Hbind.
    destruct (propFlag_cases f H0) as [[Hp Hl]|[[Hp Hl]|[[Hp Hl]|[Hp Hl]]]];
      rewrite Hl in Hlen; simpl in Hlen; try lia.
    rewrite Hp. reflexivity.
Qed.

End SysMountSpec.

(** ** Restore *)

Module BootSpec.
Import Boot.

Lemma loads_app t1 t2 : loads (t1 ++ t2) = loads t1 || loads t2.
Proof. unfold loads. apply existsb_app. Qed.

(** With an empty state file, the part of Restore after the switch fails
    before it loads. *)
Lemma restoreWith_empty e specFile deviceFile t :
  Stat specFile = inr 0 -> loads t = false ->
  exists t' err, restoreWith e specFile deviceFile t = (t', Some err) /\
                 loads t' = false /\
                 (createPlatform e = None -> createMemoryFile e = None ->
                  configureRestore e = None -> err = "file cannot be empty").
Proof.
  intros Hsize Ht. unfold restoreWith. rewrite Hsize. simpl.
  destruct (createPlatform e) as [e1|];
    [|destruct (createMemoryFile e) as [e2|];
      [|destruct (configureRestore e) as [e3|]]];
    eexists; eexists; (split; [reflexivity|]);
    (split; [rewrite ?loads_app, Ht; reflexivity|]);
    intros; congruence.
Qed.

(** C9. Restore returns an error and loads nothing when it gets no file
    ("at least one file must be passed to Restore"), more than two ("at most
    two files may be passed to Restore"), or a state file of size zero (the
    error is "file cannot be empty" once the platform, the memory file and the
    restore environment were set up); the state is only ever loaded with one
    file or two, and with everything in order it is. *)
Theorem Restore_rejects (e : env) :
  Restore e [] = ([], Some "at least one file must be passed to Restore") /\
  (forall Files, (2 < length Files)%nat ->
     Restore e Files = ([], Some "at most two files may be passed to Restore")) /\
  (forall specFile rest, Stat specFile = inr 0 ->
     exists t err, Restore e (specFile :: rest) = (t, Some err) /\ loads t = false) /\
  (forall specFile rest fd, Stat specFile = inr 0 -> (length rest <= 1)%nat ->
     Dup e = inr fd -> createPlatform e = None -> createMemoryFile e = None ->
     configureRestore e = None ->
     exists t, Restore e (specFile :: rest) = (t, Some "file cannot be empty") /\
               loads t = false) /\
  (forall Files, loads (fst (Restore e Files)) = true ->
     length Files = 1%nat \/ length Files = 2%nat) /\
  (forall specFile rest size fd, Stat specFile = inr size -> size <> 0 ->
     (length rest <= 1)%nat ->
     Dup e = inr fd -> createPlatform e = None -> createMemoryFile e = None ->
     configureRestore e = None -> installSeccompFilters e = None ->
     Load e = None -> startResult e = None ->
     exists t, Restore e (specFile :: rest) = (t, None) /\ loads t = true).
Proof.
  split; [reflexivity|].
  split.
  { intros [|a [|b [|c l]]] H; simpl in H; try lia. reflexivity. }
  split.
  { intros specFile rest Hsize.
    destruct rest as [|device [|x l]]; simpl.
    - destruct (restoreWith_empty e specFile None [] Hsize eq_refl)
        as (t & err & E & Hl & _). eauto.
    - destruct (Dup e) as [err|fd]; [eexists; eexists; split; reflexivity|].
      destruct (restoreWith_empty e specFile (Some fd) [EDup (Fd device)] Hsize eq_refl)
        as (t & err & E & Hl & _). eauto.
    - eexists; eexists; split; reflexivity. }
  split.
  { intros specFile rest fd Hsize Hlen Hdup H1 H2 H3.
    destruct rest as [|device [|x l]]; simpl in *; try lia.
    - destruct (restoreWith_empty e specFile None [] Hsize eq_refl)
        as (t & err & E & Hl & Herr). rewrite (Herr H1 H2 H3) in E. eauto.
    - rewrite Hdup.
      destruct (restoreWith_empty e specFile (Some fd) [EDup (Fd device)] Hsize eq_refl)
        as (t & err & E & Hl & Herr). rewrite (Herr H1 H2 H3) in E. eauto. }
  split.
  { intros [|a [|b [|c l]]]; simpl; auto; discriminate. }
  intros specFile rest size fd Hsize Hnz Hlen Hdup H1 H2 H3 H4 H5 H6.
  assert (Hz : (size =? 0) = false) by (apply Z.eqb_neq; exact Hnz).
  destruct rest as [|device [|x l]]; simpl in *; try lia;
    rewrite ?Hdup; unfold restoreWith; rewrite H1, H2, H3, Hsize, Hz, H4, H5, H6;
    eexists; (split; [reflexivity|]);
    destruct (ProfileEnable e); reflexivity.
Qed.

End BootSpec.

(** ** Destroying a sandbox *)

Module SandboxSpec.
Import GoInt Sandbox.

Lemma files_tick h : files (tick h) = files h.
Proof. reflexivity. Qed.

Lemma files_iter_tick n h : files (Nat.iter n tick h) = files h.
Proof. induction n as [|n IH]; simpl; [reflexivity | exact IH]. Qed.

Lemma files_Kill h pid sig : files (fst (unix_Kill h pid sig)) = files h.
Proof.
  unfold unix_Kill. destruct (procs h !! pid) as [p|]; [|reflexivity].
  destruct (may_signal p); [|reflexivity].
  destruct sig; [reflexivity|]. destruct (state p); reflexivity.
Qed.

Lemma fails_tick h : unlink_fails (tick h) = unlink_fails h.
Proof. reflexivity. Qed.

Lemma fails_iter_tick n h : unlink_fails (Nat.iter n tick h) = unlink_fails h.
Proof. induction n as [|n IH]; simpl; [reflexivity | exact IH]. Qed.

Lemma fails_Kill h pid sig :
  unlink_fails (fst (unix_Kill h pid sig)) = unlink_fails h.
Proof.
  unfold unix_Kill. destruct (procs h !! pid) as [p|]; [|reflexivity].
  destruct (may_signal p); [|reflexivity].
  destruct sig; [reflexivity|]. destruct (state p); reflexivity.
Qed.

Lemma Remove_absent h path : path ∉ files h -> fst (os_Remove h path) = h.
Proof. intros H. unfold os_Remove. destruct (decide (path ∈ files h)); [contradiction|reflexivity]. Qed.

(** The files after os.Remove: those there were, less the path unless the
    host refused to unlink it. *)
Lemma Remove_elem h path p :
  p ∈ files (fst (os_Remove h path)) <->
  p ∈ files h /\ (p <> path \/ is_Some (unlink_fails h !! path)).
Proof.
  unfold os_Remove. destruct (decide (path ∈ files h)) as [Hin|Hout].
  - destruct (unlink_fails h !! path) as [e|] eqn:E; simpl.
    + split; [intros H; split; eauto | intros [H _]; exact H].
    + rewrite elem_of_difference, elem_of_singleton. split.
      * intros [H1 H2]. auto.
      * intros [H1 [H2|[e He]]]; [auto | discriminate He].
  - simpl. split; [|intros [H _]; exact H].
    intros H. split; [exact H|]. left. intros ->. contradiction.
Qed.

Lemma procs_Remove h path : procs (fst (os_Remove h path)) = procs h.
Proof.
  unfold os_Remove. destruct (decide (path ∈ files h)); [|reflexivity].
  destruct (unlink_fails h !! path); reflexivity.
Qed.

Lemma fails_Remove h path :
  unlink_fails (fst (os_Remove h path)) = unlink_fails h.
Proof.
  unfold os_Remove. destruct (decide (path ∈ files h)); [|reflexivity].
  destruct (unlink_fails h !! path); reflexivity.
Qed.

(** A second os.Remove of the same path changes nothing, on any host that has
    the files and the unlink failures the first one left. *)
Lemma Remove_again h path h3 :
  files h3 = files (fst (os_Remove h path)) -> unlink_fails h3 = unlink_fails h ->
  fst (os_Remove h3 path) = h3.
Proof.
  intros Hf Hu. unfold os_Remove at 1.
  destruct (decide (path ∈ files h3)) as [Hin|Hout]; [|reflexivity].
  rewrite Hf in Hin. apply Remove_elem in Hin as [_ [Hne|[e He]]]; [contradiction|].
  rewrite Hu, He. reflexivity.
Qed.

(** The caller may signal the process [pid], if there is one. *)
Definition signalable (h : Host) (pid : Z) : Prop :=
  forall p, procs h !! pid = Some p -> may_signal p = true.

Lemma signalable_tick h pid : signalable h pid -> signalable (tick h) pid.
Proof.
  unfold signalable, tick. simpl. intros H p. rewrite lookup_omap.
  destruct (procs h !! pid) as [q|] eqn:E; simpl; [|discriminate].
  specialize (H q eq_refl). unfold tick_proc.
  destruct (state q) as [d|[|n]|]; destruct (is_child q);
    intros Hp; try discriminate; injection Hp as <-; simpl; assumption.
Qed.

Lemma Kill_absent h pid sig :
  procs h !! pid = None -> unix_Kill h pid sig = (h, Some ESRCH).
Proof. intros H. unfold unix_Kill. rewrite H. reflexivity. Qed.

(** Once SIGKILL was accepted, or found no process, the process is one the
    caller may signal, if it is there at all. *)
Lemma Kill_signalable h pid e :
  snd (unix_Kill h pid SIGKILL) = e -> (e = None \/ e = Some ESRCH) ->
  signalable (fst (unix_Kill h pid SIGKILL)) pid.
Proof.
  unfold unix_Kill, signalable.
  destruct (procs h !! pid) as [q|] eqn:E; simpl.
  - destruct (may_signal q) eqn:Em; simpl.
    + intros _ _ p. destruct (state q); simpl; rewrite ?lookup_insert_eq, ?E;
        intros Hp; injection Hp as <-; simpl; solve [assumption|reflexivity].
    + intros <- [H|H]; discriminate H.
  - intros _ _ p. rewrite E. discriminate.
Qed.

Lemma IsRunning_false_absent s h :
  Pid s <> 0 -> signalable h (Pid s) -> IsRunning s h = false ->
  procs h !! Pid s = None.
Proof.
  intros Hpid Hsig. unfold IsRunning, unix_Kill.
  destruct (Z.eqb_spec (Pid s) 0) as [|_]; [contradiction|]. simpl.
  destruct (procs h !! Pid s) as [p|] eqn:E; [|reflexivity].
  rewrite (Hsig p E). simpl. destruct (state p); discriminate.
Qed.

Lemma IsRunning_absent s h : procs h !! Pid s = None -> IsRunning s h = false.
Proof.
  intros H. unfold IsRunning. destruct (negb (Pid s =? 0)); [|reflexivity].
  rewrite (Kill_absent h _ _ H). reflexivity.
Qed.

(** A retry loop that ends without error ends on a host where the sandbox is
    not running; it touches no file. *)
Lemma retry_IsRunning_ok polls s :
  forall h t h' t',
    retry_IsRunning polls s h t = (h', t', None) ->
    IsRunning s h' = false /\ files h' = files h /\
    (signalable h (Pid s) -> signalable h' (Pid s)) /\
    exists u, t' = t ++ u.
Proof.
  induction polls as [|n IH]; intros h t h' t' H; simpl in H;
    destruct (IsRunning s h) eqn:E; try discriminate.
  - injection H as <- <-. repeat split; eauto.
  - destruct (IH _ _ _ _ H) as (H1 & H2 & H3 & u & ->).
    split; [exact H1|]. split; [rewrite H2; reflexivity|].
    split; [intros Hs; apply H3, signalable_tick, Hs|].
    rewrite <- app_assoc. eauto.
  - injection H as <- <-. repeat split; eauto.
Qed.

Lemma retry_IsRunning_stopped polls s h t :
  IsRunning s h = false ->
  retry_IsRunning polls s h t = (h, t ++ IsRunning_trace s, None).
Proof. intros H. destruct polls; simpl; rewrite H; reflexivity. Qed.

(** What a successful waitForStopped leaves behind. *)
Lemma waitForStopped_ok polls s h t s' h' t' :
  Pid s <> 0 -> signalable h (Pid s) ->
  waitForStopped polls s h t = Returns None s' h' t' ->
  procs h' !! Pid s = None /\ files h' = files h /\
  Pid s' = (if child s then 0 else Pid s) /\
  ControlAddress s' = ControlAddress s /\ child s' = child s /\
  exists u, t' = t ++ u.
Proof.
  intros Hpid Hsig. unfold waitForStopped.
  destruct (child s) eqn:Ec.
  - destruct (Z.eqb_spec (Pid s) 0) as [|_]; [contradiction|].
    unfold unix_Wait4.
    destruct (procs h !! Pid s) as [p|] eqn:E; [|discriminate].
    destruct (is_child p); simpl; [|discriminate].
    destruct (state p) as [d|n|]; try discriminate;
      intros H; injection H as <- <- <-; simpl;
      rewrite ?lookup_delete_eq, ?files_iter_tick, ?files_tick; eauto 8.
  - destruct (retry_IsRunning polls s h t) as [[h1 t1] err] eqn:E.
    intros H. injection H as -> <- <- <-.
    destruct (retry_IsRunning_ok _ _ _ _ _ _ E) as (H1 & H2 & H3 & u & ->).
    split; [apply IsRunning_false_absent; auto|].
    rewrite Ec. eauto 8.
Qed.

(** A process that got SIGKILL and is not our child is gone [n + 1] ticks
    later; the retry loop sees that if it has that many polls. *)
Lemma retry_IsRunning_dying s n :
  forall polls h t,
    Pid s <> 0 ->
    procs h !! Pid s = Some (mkProc false true (Dying n)) -> (n < polls)%nat ->
    exists h' t', retry_IsRunning polls s h t = (h', t', None).
Proof.
  induction n as [|n IH]; intros polls h t Hpid Hp Hlt;
    (destruct polls as [|polls]; [lia|]); simpl.
  - assert (Hrun : IsRunning s h = true).
    { unfold IsRunning, unix_Kill. rewrite Hp.
      destruct (Z.eqb_spec (Pid s) 0); [contradiction|reflexivity]. }
    rewrite Hrun.
    assert (Habs : procs (tick h) !! Pid s = None).
    { unfold tick. simpl. rewrite lookup_omap, Hp. reflexivity. }
    rewrite (retry_IsRunning_stopped polls s (tick h) _ (IsRunning_absent _ _ Habs)).
    eauto.
  - assert (Hrun : IsRunning s h = true).
    { unfold IsRunning, unix_Kill. rewrite Hp.
      destruct (Z.eqb_spec (Pid s) 0); [contradiction|reflexivity]. }
    rewrite Hrun. apply IH; [exact Hpid| |lia].
    unfold tick. simpl. rewrite lookup_omap, Hp. reflexivity.
Qed.

(** destroy does return nil: for a sandbox whose boot process runs, may be
    signalled, is not a child of the caller and exits within the polls the
    deadline allows. *)
Lemma destroy_succeeds polls s h d :
  child s = false -> Pid s <> 0 ->
  procs h !! Pid s = Some (mkProc false true (Running d)) -> (d < polls)%nat ->
  exists h' t, destroy polls s h = Returns None s h' t.
Proof.
  intros Hc Hpid Hp Hlt. unfold destroy.
  set (h1 := if is_path (ControlAddress s)
             then fst (os_Remove h (ControlAddress s)) else h).
  set (t1 := if is_path (ControlAddress s)
             then [SysUnlink (ControlAddress s)] else []).
  replace (if is_path (ControlAddress s)
           then (fst (os_Remove h (ControlAddress s)), [SysUnlink (ControlAddress s)])
           else (h, [])) with (h1, t1)
    by (unfold h1, t1; destruct (is_path (ControlAddress s)); reflexivity).
  cbv beta iota.
  assert (Hp1 : procs h1 !! Pid s = Some (mkProc false true (Running d))).
  { unfold h1. destruct (is_path (ControlAddress s)); [|exact Hp].
    rewrite procs_Remove. exact Hp. }
  destruct (Z.eqb_spec (Pid s) 0) as [|_]; [contradiction|].
  cbv beta iota delta [negb].
  unfold unix_Kill. rewrite Hp1. simpl.
  unfold waitForStopped. rewrite Hc.
  edestruct (retry_IsRunning_dying s d polls) as (h' & t' & E);
    [exact Hpid | | exact Hlt |].
  2: { rewrite E. eauto. }
  simpl. apply lookup_insert_eq.
Qed.

Lemma retry_IsRunning_fails polls s :
  forall h t h' t' err,
    retry_IsRunning polls s h t = (h', t', err) ->
    unlink_fails h' = unlink_fails h.
Proof.
  induction polls as [|n IH]; intros h t h' t' err H; simpl in H;
    destruct (IsRunning s h); try (injection H as <- _ _; reflexivity).
  rewrite (IH _ _ _ _ _ H). apply fails_tick.
Qed.

Lemma waitForStopped_fails polls s h t err s' h' t' :
  waitForStopped polls s h t = Returns err s' h' t' ->
  unlink_fails h' = unlink_fails h.
Proof.
  unfold waitForStopped. destruct (child s).
  - destruct (Pid s =? 0); [intros H; injection H as _ _ <- _; reflexivity|].
    unfold unix_Wait4.
    destruct (procs h !! Pid s) as [p|];
      [|intros H; injection H as _ _ <- _; reflexivity].
    destruct (is_child p); simpl;
      [|intros H; injection H as _ _ <- _; reflexivity].
    destruct (state p) as [d|n|]; try discriminate;
      intros H; injection H as _ _ <- _; simpl;
      rewrite ?fails_iter_tick, ?fails_tick; reflexivity.
  - destruct (retry_IsRunning polls s h t) as [[h1 t1] e] eqn:E.
    intros H. injection H as _ _ <- _.
    exact (retry_IsRunning_fails _ _ _ _ _ _ _ E).
Qed.

(** C2, as stated, fails: the first call need not remove the control socket
    file. os.Remove's error is only logged, so on a host that does not let the
    caller unlink the file destroy kills the sandbox, returns nil, and the
    file is still there. *)
Lemma destroy_leaves_socket_counterexample :
  let s := mkSandbox "sb" 42 "/run/sb.sock" false in
  let h := mkHost {["/run/sb.sock"]} {[42 := mkProc false true (Running 3)]}
                  {["/run/sb.sock" := EACCES]} in
  is_path (ControlAddress s) = true /\
  exists h' t,
    destroy 50 s h = Returns None s h' t /\
    In (SysUnlink "/run/sb.sock") t /\
    "/run/sb.sock" ∈ files h' /\ procs h' !! 42 = None.
Proof.
  split; [reflexivity|].
  exists (mkHost {["/run/sb.sock"]} ∅ {["/run/sb.sock" := EACCES]}).
  eexists. split; [vm_compute; reflexivity|].
  split; [left; reflexivity|].
  split; [cbn [files]; apply elem_of_singleton; reflexivity | reflexivity].
Qed.

(** C2, amended. When destroy returns nil: the unlink of the control socket
    file, if the address names one, was attempted, and the file is gone
    unless the host refused to unlink it; if the pid was known, SIGKILL was
    sent to it and the process is gone; and calling destroy again, on what the
    first call left, returns nil and changes neither the sandbox nor the
    host. *)
Theorem destroy_idempotent (polls polls' : nat) (s s' : Sandbox) (h h' : Host)
        (t : list syscall) :
  destroy polls s h = Returns None s' h' t ->
  (is_path (ControlAddress s) = true ->
   In (SysUnlink (ControlAddress s)) t /\
   (ControlAddress s ∈ files h' <->
    ControlAddress s ∈ files h /\ is_Some (unlink_fails h !! ControlAddress s))) /\
  (Pid s <> 0 ->
   In (SysKill (Pid s) SIGKILL) t /\ procs h' !! Pid s = None) /\
  exists t', destroy polls' s' h' = Returns None s' h' t'.
Proof.
  unfold destroy at 1.
  set (h1 := if is_path (ControlAddress s)
             then fst (os_Remove h (ControlAddress s)) else h).
  set (t1 := if is_path (ControlAddress s)
             then [SysUnlink (ControlAddress s)] else []).
  replace (if is_path (ControlAddress s)
           then (fst (os_Remove h (ControlAddress s)), [SysUnlink (ControlAddress s)])
           else (h, [])) with (h1, t1)
    by (unfold h1, t1; destruct (is_path (ControlAddress s)); reflexivity).
  cbv beta iota.
  assert (Hleft : is_path (ControlAddress s) = true ->
                  (ControlAddress s ∈ files h1 <->
                   ControlAddress s ∈ files h /\
                   is_Some (unlink_fails h !! ControlAddress s))).
  { intros Hp. unfold h1. rewrite Hp, Remove_elem.
    split; intros [H1 H2]; (split; [exact H1|]); [|right; exact H2].
    destruct H2 as [H2|H2]; [contradiction|exact H2]. }
  assert (Hagain : forall h3, files h3 = files h1 ->
                     unlink_fails h3 = unlink_fails h1 ->
                     (if is_path (ControlAddress s)
                      then fst (os_Remove h3 (ControlAddress s)) else h3) = h3).
  { intros h3 Hf Hu. revert Hf Hu. unfold h1.
    destruct (is_path (ControlAddress s)); [|reflexivity].
    rewrite fails_Remove. apply Remove_again. }
  assert (Hunl : is_path (ControlAddress s) = true ->
                 In (SysUnlink (ControlAddress s)) t1).
  { intros Hp. unfold t1. rewrite Hp. left. reflexivity. }
  destruct (Z.eqb_spec (Pid s) 0) as [Hz|Hnz]; cbv beta iota delta [negb].
  - (* no pid: only the socket file *)
    intros H. injection H as <- <- <-.
    split; [auto|]. split; [intros Hc; contradiction|].
    unfold destroy. rewrite Hz. simpl.
    specialize (Hagain h1 eq_refl eq_refl).
    destruct (is_path (ControlAddress s)) eqn:Ep; [|eauto].
    rewrite Hagain. eauto.
  - destruct (unix_Kill h1 (Pid s) SIGKILL) as [h2 kerr] eqn:Ek.
    assert (Hf2 : files h2 = files h1).
    { pose proof (files_Kill h1 (Pid s) SIGKILL) as Hf. rewrite Ek in Hf. exact Hf. }
    assert (Hu2 : unlink_fails h2 = unlink_fails h1).
    { pose proof (fails_Kill h1 (Pid s) SIGKILL) as Hf. rewrite Ek in Hf. exact Hf. }
    assert (Hwait : forall s3 h3 t3,
               (kerr = None \/ kerr = Some ESRCH) ->
               waitForStopped polls s h2 (t1 ++ [SysKill (Pid s) SIGKILL])
                 = Returns None s3 h3 t3 ->
               (is_path (ControlAddress s) = true ->
                In (SysUnlink (ControlAddress s)) t3 /\
                (ControlAddress s ∈ files h3 <->
                 ControlAddress s ∈ files h /\
                 is_Some (unlink_fails h !! ControlAddress s))) /\
               (Pid s <> 0 ->
                In (SysKill (Pid s) SIGKILL) t3 /\ procs h3 !! Pid s = None) /\
               exists t', destroy polls' s3 h3 = Returns None s3 h3 t').
    { intros s3 h3 t3 Hk Hw.
      assert (Hsig : signalable h2 (Pid s)).
      { pose proof (Kill_signalable h1 (Pid s) kerr) as Hs.
        rewrite Ek in Hs. apply Hs; [reflexivity|exact Hk]. }
      pose proof (waitForStopped_fails _ _ _ _ _ _ _ _ Hw) as Hu3.
      destruct (waitForStopped_ok _ _ _ _ _ _ _ Hnz Hsig Hw)
        as (Habs & Hf3 & Hpid3 & Hca & Hch & u & ->).
      split.
      { intros Hp. split.
        - apply in_or_app. left. apply in_or_app. left. auto.
        - rewrite Hf3, Hf2. auto. }
      split.
      { intros _. split; [|exact Habs].
        apply in_or_app. left. apply in_or_app. right. left. reflexivity. }
      assert (Hrm : (if is_path (ControlAddress s)
                     then fst (os_Remove h3 (ControlAddress s)) else h3) = h3).
      { apply Hagain; [rewrite Hf3, Hf2 | rewrite Hu3, Hu2]; reflexivity. }
      unfold destroy. rewrite Hca.
      replace (if is_path (ControlAddress s)
               then (fst (os_Remove h3 (ControlAddress s)),
                     [SysUnlink (ControlAddress s)])
               else (h3, []))
        with (h3, if is_path (ControlAddress s)
                  then [SysUnlink (ControlAddress s)] else [])
        by (revert Hrm; destruct (is_path (ControlAddress s));
            [intros ->|intros _]; reflexivity).
      cbv beta iota.
      destruct (child s) eqn:Ec.
      - rewrite Hpid3. simpl. eauto.
      - rewrite Hpid3.
        destruct (Z.eqb_spec (Pid s) 0) as [|_]; [contradiction|].
        cbv beta iota delta [negb].
        rewrite (Kill_absent h3 _ _ Habs). simpl.
        unfold waitForStopped. rewrite Hch.
        assert (Hir : IsRunning s3 h3 = false).
        { apply IsRunning_absent. rewrite Hpid3. exact Habs. }
        rewrite (retry_IsRunning_stopped polls' s3 h3 _ Hir). eauto. }
    destruct kerr as [e|].
    + destruct e; simpl; try discriminate.
      destruct (waitForStopped polls s h2 (t1 ++ [SysKill (Pid s) SIGKILL]))
        as [[e'|] s3 h3 t3|t3] eqn:Ew; try discriminate.
      intros H. injection H as <- <- <-. apply Hwait; auto.
    + destruct (waitForStopped polls s h2 (t1 ++ [SysKill (Pid s) SIGKILL]))
        as [[e'|] s3 h3 t3|t3] eqn:Ew; try discriminate.
      intros H. injection H as <- <- <-. apply Hwait; auto.
Qed.

(** A sandbox with its control socket at /run/sb.sock and its boot process,
    not a child of the caller, running as pid 42. *)
Definition sb : Sandbox := mkSandbox "sb" 42 "/run/sb.sock" false.
Definition host0 : Host :=
  mkHost {["/run/sb.sock"]} {[42 := mkProc false true (Running 3)]} ∅.
Definition host1 : Host := mkHost ∅ ∅ ∅.

Lemma destroy_sb :
  exists t, destroy 50 sb host0 = Returns None sb host1 t.
Proof. eexists. vm_compute. reflexivity. Qed.

Lemma destroy_idempotent_witness :
  exists t t', destroy 50 sb host0 = Returns None sb host1 t /\
               procs host1 !! 42 = None /\
               destroy 50 sb host1 = Returns None sb host1 t'.
Proof.
  destruct destroy_sb as [t Ht].
  destruct (destroy_idempotent 50 50 sb sb host0 host1 t Ht) as (_ & Hp & t' & Ht').
  exists t, t'. split; [exact Ht|]. split; [|exact Ht'].
  apply Hp. discriminate.
Defined.

(** *** --cpu-num *)

(** The ceiling of a positive float is at least 1. *)
Lemma ceil_positive m e :
  exists c, ceil (S754_finite false m e) = Some c /\ 1 <= c.
Proof.
  simpl. eexists. split; [reflexivity|].
  destruct (Z.leb_spec 0 e) as [He|He].
  - assert (0 < 2 ^ e) by (apply Z.pow_pos_nonneg; lia). nia.
  - assert (Hd : 0 < 2 ^ (- e)) by (apply Z.pow_pos_nonneg; lia).
    assert (- Z.pos m / 2 ^ (- e) < 0)
      by (apply Z.div_lt_upper_bound; lia).
    lia.
Qed.

(** C8, as stated, fails: with a quota of 3 CPUs in a cgroup that has one
    CPU, --cpu-num is 1, not 3; with a quota of 8 and four CPUs it is 4. *)
Lemma cpu_num_quota_counterexample :
  ceil (S754_finite false 3 0) = Some 3 /\
  cpu_num (Some (mkCgroup (inr 1) (inr (S754_finite false 3 0)))) true
    = inr (Some 1) /\
  ceil (S754_finite false 1 3) = Some 8 /\
  cpu_num (Some (mkCgroup (inr 4) (inr (S754_finite false 1 3)))) true
    = inr (Some 4).
Proof. repeat split. Qed.

(** C8, amended. With cpu-num-from-quota set and a cgroup, for every positive
    (finite) quota whose ceiling c fits an int, --cpu-num is the cgroup's CPU
    count lowered to c clamped to a minimum of 2: min(NumCPU, max(2, c)). The
    quota never raises the count. Without the setting --cpu-num is the
    cgroup's CPU count, and without a cgroup the flag is not passed. *)
Theorem cpu_num_from_quota (cpuNum : Z) (m : positive) (e : Z) :
  exists c, ceil (S754_finite false m e) = Some c /\ 1 <= c /\
    (c <= maxInt64 ->
     cpu_num (Some (mkCgroup (inr cpuNum) (inr (S754_finite false m e)))) true
       = inr (Some (Z.min cpuNum (Z.max 2 c)))) /\
    (forall q, cpu_num (Some (mkCgroup (inr cpuNum) q)) false = inr (Some cpuNum)) /\
    (forall b, cpu_num None b = inr None).
Proof.
  destruct (ceil_positive m e) as (c & Hc & H1).
  exists c. split; [exact Hc|]. split; [exact H1|].
  split; [|split; reflexivity].
  intros Hmax. unfold cpu_num, int_Ceil. cbn [NumCPU CPUQuota]. rewrite Hc.
  unfold minInt64, maxInt64 in *.
  destruct (Z.leb_spec (- 2 ^ 63) c); [|lia].
  destruct (Z.leb_spec c (2 ^ 63 - 1)); [|lia]. cbn [andb].
  destruct (Z.gtb_spec c 0); [|lia].
  unfold minCPUs.
  destruct (Z.ltb_spec c 2);
    match goal with |- context [?a <? cpuNum] => destruct (Z.ltb_spec a cpuNum) end;
    do 2 f_equal; lia.
Qed.

End SandboxSpec.

(* ===================================================================== *)
(** * More of the code *)
(* ===================================================================== *)

(** ** pkg/sentry/mm/aio_context.go: the manager and the ring mapping *)

Module AIOManager.
Import GoInt AIO.

(** [aioManager.lookupAIOContext] *)
Definition lookupAIOContext (contexts : gmap Z Machine) (id : Z) : option Machine :=
  contexts !! id.

(** [MemoryManager.destroyAIOContextLocked]: the contexts left and the
    destroyed context, nil if there is none with this id. *)
Definition destroyAIOContextLocked (contexts : gmap Z Machine) (id : Z)
  : panic + (gmap Z Machine * option Machine) :=
  match contexts !! id with
  | None => inr (contexts, None)
  | Some aioCtx =>
      match destroy aioCtx with
      | Ret _ m' => inr (delete id contexts, Some m')
      | Panic p _ => inl p
      end
  end.

(** Modelled from the spec: linux.AIORingSize and hostarch's rounding are not
    among the sources; the ring buffer of a context is one page. *)
Definition aioRingBufferSize : Z := 4096.

Inductive maperr := EFAULT | EINVAL_map.

(** hostarch.AddrRange and its Length, on uint64. *)
Record AddrRange := mkAR { ar_Start : Z; ar_End : Z }.
Definition ar_Length (r : AddrRange) : Z := u64 (ar_End r - ar_Start r).

(** [aioMappable.AddMapping] *)
Definition AddMapping (ar : AddrRange) (offset : Z) : option maperr :=
  if negb (offset =? 0) || negb (ar_Length ar =? aioRingBufferSize)
  then Some EFAULT else None.

(** [aioMappable.CopyMapping]. [ms] is the manager's map when the mapping
    space is a MemoryManager, and [None] when it is not. *)
Definition CopyMapping (ms : option (gmap Z Machine)) (srcAR dstAR : AddrRange)
           (offset : Z) : option (gmap Z Machine) * option maperr :=
  if negb (offset =? 0) || negb (ar_Length dstAR =? aioRingBufferSize)
  then (ms, Some EFAULT)
  else
    match ms with
    | None => (ms, Some EINVAL_map)
    | Some contexts =>
        let oldID := u64 (ar_Start srcAR) in
        match contexts !! oldID with
        | None => (ms, Some EINVAL_map)
        | Some aioCtx =>
            if dead (ctx aioCtx) then (ms, Some EINVAL_map)
            else
              (Some (delete oldID (<[u64 (ar_Start dstAR) := aioCtx]> contexts)),
               None)
        end
    end.

(** Modelled from the spec: memmap.MappableRange and memmap.FileRange are
    generated range types that are not among the sources: a pair of uint64
    bounds, Length = End - Start, and Intersect clamps the receiver to the
    argument and returns an empty range when they do not meet. *)
Record Range := mkRange { Start : Z; End : Z }.

Definition Length (r : Range) : Z := u64 (End r - Start r).

Definition Intersect (r r2 : Range) : Range :=
  let s := if Start r <? Start r2 then Start r2 else Start r in
  let e := if End r >? End r2 then End r2 else End r in
  let e := if e <? s then s else e in
  mkRange s e.

(** A memmap.Translation; the file is the mappable's memory file and the
    permissions are AnyAccess in every translation this file makes. *)
Record Translation := mkTranslation {
  Source : Range;
  Offset : Z
}.

(** [aioMappable.Translate] and [SpecialMappable.Translate], which have the
    same body: the translations, and whether the error is the bus error. *)
Definition Translate (fr required optional : Range) : list Translation * bool :=
  let err := End required >? Length fr in
  let source := Intersect optional (mkRange 0 (Length fr)) in
  if negb (Length source =? 0)
  then ([mkTranslation source (u64 (Start fr + Start source))], err)
  else ([], err).

End AIOManager.

Module AIOExtra.
Import GoInt AIO AIOSpec AIOManager.

(** What the counters of a context keep to. *)
Definition bounded (m : Machine) : Prop :=
  0 <= outstanding (ctx m) <= maxOutstanding (ctx m) /\
  maxOutstanding (ctx m) < 2 ^ 32.

Lemma checkForDone_counters m m' :
  checkForDone m = Ret tt m' ->
  outstanding (ctx m') = outstanding (ctx m) /\
  maxOutstanding (ctx m') = maxOutstanding (ctx m) /\
  results (ctx m') = results (ctx m) /\ dead (ctx m') = dead (ctx m).
Proof.
  unfold checkForDone.
  destruct (dead (ctx m) && (outstanding (ctx m) =? 0)).
  - destruct (go_close _ _); [discriminate|]. intros H. injection H as <-. simpl. auto.
  - intros H. injection H as <-. auto.
Qed.

Lemma step_bounded c m m' : bounded m -> step c m = inr m' ->
  bounded m' /\ maxOutstanding (ctx m') = maxOutstanding (ctx m).
Proof.
  intros [[B1 B2] B3] Hstep. unfold bounded.
  destruct c; simpl in Hstep.
  - unfold Prepare in Hstep. destruct (dead (ctx m)).
    + injection Hstep as <-. auto.
    + destruct (Z.geb_spec (outstanding (ctx m)) (maxOutstanding (ctx m))).
      * injection Hstep as <-. auto.
      * injection Hstep as <-. simpl. unfold u32. rewrite Z.mod_small by lia.
        split; [split; [lia|assumption] | reflexivity].
  - unfold FinishRequest in Hstep. destruct (go_try_send _ _); [discriminate|].
    injection Hstep as <-. simpl. auto.
  - unfold PopRequest in Hstep. destruct (results (ctx m)) as [|e rest].
    + injection Hstep as <-. auto.
    + destruct (Z.eqb_spec (outstanding (ctx m)) 0); [discriminate|].
      destruct (checkForDone _) as [[] m1|] eqn:E; [|discriminate].
      injection Hstep as <-.
      destruct (checkForDone_counters _ _ E) as (H1 & H2 & _). simpl in H1, H2.
      rewrite H1, H2. unfold u32. rewrite Z.mod_small by lia.
      split; [split; [lia|assumption] | reflexivity].
  - unfold CancelPendingRequest in Hstep.
    destruct (Z.eqb_spec (outstanding (ctx m)) 0); [discriminate|].
    destruct (checkForDone _) as [[] m1|] eqn:E; [|discriminate].
    injection Hstep as <-.
    destruct (checkForDone_counters _ _ E) as (H1 & H2 & _). simpl in H1, H2.
    rewrite H1, H2. unfold u32. rewrite Z.mod_small by lia.
    split; [split; [lia|assumption] | reflexivity].
  - unfold Drain in Hstep.
    destruct (Z.eqb_spec (outstanding (ctx m)) 0).
    + injection Hstep as <-. auto.
    + set (size := u32 (Z.of_nat (length (results (ctx m))))) in *.
      assert (Hs : 0 <= size < 2 ^ 32) by (unfold size, u32; apply Z.mod_pos_bound; lia).
      destruct (Z.ltb_spec (outstanding (ctx m)) size); [discriminate|].
      destruct (checkForDone _) as [[] m1|] eqn:E; [|discriminate].
      injection Hstep as <-.
      destruct (checkForDone_counters _ _ E) as (H1 & H2 & _). simpl in H1, H2.
      rewrite H1, H2. unfold u32. rewrite Z.mod_small by lia.
      split; [split; [lia|assumption] | reflexivity].
  - unfold destroy in Hstep.
    destruct (checkForDone _) as [[] m1|] eqn:E; [|discriminate].
    injection Hstep as <-.
    destruct (checkForDone_counters _ _ E) as (H1 & H2 & _). simpl in H1, H2.
    rewrite H1, H2. auto.
Qed.

Lemma run_trace_bounded calls :
  forall m, bounded m ->
    Forall (fun m' => bounded m' /\ maxOutstanding (ctx m') = maxOutstanding (ctx m))
           (run_trace calls m).
Proof.
  induction calls as [|c rest IH]; intros m Hm; simpl; [constructor|].
  destruct (step c m) as [p|m1] eqn:E; [constructor|].
  destruct (step_bounded c m m1 Hm E) as [H1 H2].
  constructor; [auto|].
  eapply Forall_impl; [apply IH; exact H1|].
  intros x [Hx1 Hx2]. split; [exact Hx1 | congruence].
Qed.

(** X1. A context made for [events] requests never has more than [events]
    outstanding and the counter never wraps around, through any sequence of
    calls: 0 <= outstanding <= maxOutstanding = events at every point. *)
Theorem outstanding_within_capacity (events : Z) (calls : list call) (m : Machine) :
  0 <= events < 2 ^ 32 ->
  m ∈ states calls (newContext events) ->
  0 <= outstanding (ctx m) <= events /\ maxOutstanding (ctx m) = events.
Proof.
  intros Hev Hin.
  assert (H0 : bounded (newContext events)) by (unfold bounded; simpl; lia).
  unfold states in Hin. apply elem_of_cons in Hin as [->|Hin].
  - simpl. lia.
  - pose proof (run_trace_bounded calls _ H0) as HF.
    rewrite Forall_forall in HF. destruct (HF m Hin) as [[[B1 B2] _] Hmx].
    simpl in Hmx. rewrite Hmx in B2. auto.
Qed.

Lemma outstanding_within_capacity_witness :
  exists m, run [CallPrepare; CallPrepare; CallCancelPendingRequest] (newContext 2)
            = Some m /\ outstanding (ctx m) = 1 /\ maxOutstanding (ctx m) = 2.
Proof.
  eexists. split; [vm_compute; reflexivity|].
  split; [reflexivity|].
  eapply (outstanding_within_capacity 2
            [CallPrepare; CallPrepare; CallCancelPendingRequest]); [lia|].
  unfold states. vm_compute run_trace. set_solver.
Defined.

(** The results of [n] calls of PopRequest in a row ([None] for a call that
    found nothing), up to a panic, and the machine after them. *)
Fixpoint pops (n : nat) (m : Machine) : list (option any) * Machine :=
  match n with
  | O => ([], m)
  | S n' =>
      match PopRequest m with
      | Ret r m' => let '(rs, m'') := pops n' m' in (r :: rs, m'')
      | Panic _ m' => ([], m')
      end
  end.

Lemma finishes_spec ds :
  forall m, inv m ->
    exists m', run (map CallFinishRequest ds) m = Some m' /\ inv m' /\
               results (ctx m') = results (ctx m) ++ ds /\
               outstanding (ctx m') = outstanding (ctx m) /\
               maxOutstanding (ctx m') = maxOutstanding (ctx m) /\
               dead (ctx m') = dead (ctx m).
Proof.
  induction ds as [|d ds IH]; intros m Hm; simpl.
  - exists m. rewrite app_nil_r. auto 7.
  - destruct (FinishRequest d m) as [[] m1|p m1] eqn:E.
    + assert (Hs : step (CallFinishRequest d) m = inr m1) by (simpl; rewrite E; reflexivity).
      destruct (step_inv _ _ _ Hm Hs) as [H1 _].
      unfold FinishRequest in E.
      destruct (go_try_send _ _) as [|h]; [discriminate|]. injection E as <-.
      destruct (IH _ H1) as (m' & R & I & Hr & Ho & Hmx & Hd).
      exists m'. simpl in *. rewrite Hr, <- app_assoc. auto 7.
    + assert (Hs : step (CallFinishRequest d) m = inl p) by (simpl; rewrite E; reflexivity).
      exfalso. unfold FinishRequest, go_try_send in E.
      destruct Hm as (I1 & I2 & _). simpl in E. rewrite I1, I2 in E.
      destruct (done m); simpl in E; [discriminate|].
      destruct (ch_len (chan m) <? ch_cap)%nat; discriminate.
Qed.

Lemma pops_spec l rest :
  forall m, inv m -> 0 <= outstanding (ctx m) < 2 ^ 32 ->
    results (ctx m) = l ++ rest -> Z.of_nat (length l) <= outstanding (ctx m) ->
    exists m', pops (length l) m = (map Some l, m') /\ inv m' /\
               results (ctx m') = rest /\
               outstanding (ctx m') = outstanding (ctx m) - Z.of_nat (length l) /\
               dead (ctx m') = dead (ctx m).
Proof.
  induction l as [|e l IH]; intros m Hm Hb Hr Hlen.
  - exists m. simpl. rewrite Z.sub_0_r. auto.
  - simpl length in *. cbn [pops].
    destruct (PopRequest m) as [r m1|p m1] eqn:E.
    + assert (Hs : step CallPopRequest m = inr m1) by (simpl; rewrite E; reflexivity).
      destruct (step_inv _ _ _ Hm Hs) as [H1 _].
      unfold PopRequest in E. rewrite Hr in E. simpl in E.
      destruct (Z.eqb_spec (outstanding (ctx m)) 0); [discriminate|].
      destruct (checkForDone _) as [[] m2|] eqn:Ec; [|discriminate].
      injection E as <- <-.
      destruct (checkForDone_counters _ _ Ec) as (Ho & _ & Hres & Hd).
      simpl in Ho, Hres, Hd.
      assert (Hu : u32 (outstanding (ctx m) - 1) = outstanding (ctx m) - 1)
        by (unfold u32; apply Z.mod_small; lia).
      rewrite Hu in Ho.
      destruct (IH m2 H1) as (m' & P & I & R' & O' & D'); [lia | exact Hres | lia |].
      exists m'. rewrite P. simpl. split; [reflexivity|].
      split; [exact I|]. split; [exact R'|]. split; [lia | congruence].
    + exfalso.
      unfold PopRequest in E. rewrite Hr in E. simpl in E.
      destruct (Z.eqb_spec (outstanding (ctx m)) 0); [lia|].
      assert (Hnd : done m = false).
      { unfold done. apply andb_false_iff. right. apply Z.eqb_neq. assumption. }
      destruct (inv_not_done m Hm Hnd) as (Hrr & Hc & Hn).
      edestruct (checkForDone_inv
                   (set_results (set_outstanding (ctx m) (u32 (outstanding (ctx m) - 1)))
                      (l ++ rest))
                   (chan m)) as (mx & Ex & _); [exact Hrr | exact Hc | exact Hn |].
      rewrite Ex in E. discriminate.
Qed.

(** X2. The completed requests are a queue, as long as a request is
    outstanding for each of them. On a context with no result waiting,
    FinishRequest for d1 .. dn is followed by calls of PopRequest. With at
    least n requests outstanding, n calls return d1 .. dn in that order, leave
    no result behind and take n off outstanding, and one more PopRequest finds
    nothing and changes nothing. With only k < n outstanding, k calls return
    d1 .. dk and the next PopRequest panics, outstanding going negative. *)
Theorem results_fifo (m : Machine) (ds : list any) :
  inv m -> 0 <= outstanding (ctx m) < 2 ^ 32 -> results (ctx m) = [] ->
  exists m1,
    run (map CallFinishRequest ds) m = Some m1 /\
    (Z.of_nat (length ds) <= outstanding (ctx m) ->
     exists m2,
       pops (length ds) m1 = (map Some ds, m2) /\
       results (ctx m2) = [] /\
       outstanding (ctx m2) = outstanding (ctx m) - Z.of_nat (length ds) /\
       PopRequest m2 = Ret None m2) /\
    (outstanding (ctx m) < Z.of_nat (length ds) ->
     let k := Z.to_nat (outstanding (ctx m)) in
     exists m2,
       pops k m1 = (map Some (take k ds), m2) /\
       results (ctx m2) = drop k ds /\
       outstanding (ctx m2) = 0 /\
       PopRequest m2 = Panic PanicNegative m2).
Proof.
  intros Hm Hb Hr.
  destruct (finishes_spec ds m Hm) as (m1 & R & I & Hres & Ho & _ & _).
  rewrite Hr in Hres. simpl in Hres.
  exists m1. split; [exact R|]. split.
  - intros Hlen.
    destruct (pops_spec ds [] m1 I) as (m2 & P & I2 & R2 & O2 & _);
      [lia | rewrite app_nil_r; exact Hres | lia |].
    exists m2. split; [exact P|].
    split; [exact R2|]. split; [lia|].
    unfold PopRequest. rewrite R2. reflexivity.
  - intros Hlt k.
    assert (Hk : (k < length ds)%nat) by (unfold k; lia).
    assert (Hlk : length (take k ds) = k) by (rewrite length_take; lia).
    destruct (pops_spec (take k ds) (drop k ds) m1 I) as (m2 & P & I2 & R2 & O2 & _);
      [lia | rewrite take_drop; exact Hres | rewrite Hlk; unfold k; lia |].
    rewrite Hlk in P, O2.
    assert (O0 : outstanding (ctx m2) = 0) by (unfold k in O2; lia).
    exists m2. split; [exact P|]. split; [exact R2|]. split; [exact O0|].
    unfold PopRequest. rewrite R2, O0.
    destruct (drop k ds) as [|d rest] eqn:Ed; [|reflexivity].
    apply (f_equal length) in Ed. rewrite length_drop in Ed. simpl in Ed. lia.
Qed.

Lemma results_fifo_witness :
  exists m0 m1 m2,
    run [CallPrepare; CallPrepare; CallPrepare] (newContext 8) = Some m0 /\
    run (map CallFinishRequest [10; 20; 30]) m0 = Some m1 /\
    pops 3 m1 = ([Some 10; Some 20; Some 30], m2) /\
    outstanding (ctx m2) = 0.
Proof.
  eexists.
  assert (Hi : inv (mkMachine (mkCtx (Some TheChan) [] 8 3 false) (mkChan 0 false 0)))
    by (unfold inv, done; simpl; auto).
  destruct (results_fifo _ [10; 20; 30] Hi) as (m1 & R & Hall & _);
    [simpl; lia | reflexivity |].
  destruct Hall as (m2 & P & _ & O & _); [simpl; lia|].
  exists m1, m2. split; [vm_compute; reflexivity|].
  split; [exact R|]. split; [exact P|]. rewrite O. reflexivity.
Defined.

(** X3. CancelPendingRequest undoes Prepare: on a live context with room,
    Prepare returns nil and CancelPendingRequest then puts the context back
    exactly as it was. *)
Theorem Prepare_Cancel (m : Machine) :
  dead (ctx m) = false ->
  0 <= outstanding (ctx m) < maxOutstanding (ctx m) ->
  maxOutstanding (ctx m) < 2 ^ 32 ->
  exists m1, Prepare m = Ret None m1 /\
             outstanding (ctx m1) = outstanding (ctx m) + 1 /\
             CancelPendingRequest m1 = Ret tt m.
Proof.
  intros Hd Ho Hmx. destruct m as [[rr res mx o d] h]. simpl in *. subst d.
  unfold Prepare. simpl.
  destruct (Z.geb_spec o mx); [lia|].
  eexists. split; [reflexivity|]. simpl.
  assert (Hu : u32 (o + 1) = o + 1) by (unfold u32; apply Z.mod_small; lia).
  rewrite Hu. split; [reflexivity|].
  unfold CancelPendingRequest. simpl.
  destruct (Z.eqb_spec (o + 1) 0); [lia|].
  unfold checkForDone, set_outstanding. simpl.
  replace (o + 1 - 1) with o by lia.
  unfold u32. rewrite Z.mod_small by lia. reflexivity.
Qed.

Lemma Prepare_Cancel_witness :
  exists m1, Prepare (newContext 8) = Ret None m1 /\
             CancelPendingRequest m1 = Ret tt (newContext 8).
Proof.
  destruct (Prepare_Cancel (newContext 8)) as (m1 & P & _ & C);
    [reflexivity | simpl; lia | simpl; lia |].
  exists m1. split; [exact P | exact C].
Defined.

(** X4. The manager's map: newAIOContext under a free id stores a fresh live
    context that lookupAIOContext finds, leaves every other id alone, and
    refuses the id from then on without touching the map; destroying that
    context takes the id out again and hands back the context, dead, with its
    channel closed and WaitChannel nil; destroying an id that is not there
    returns nil and changes nothing. *)
Theorem manager_lifecycle (contexts : gmap Z Machine) (events id : Z) :
  contexts !! id = None ->
  exists c1,
    newAIOContext contexts events id = (c1, true) /\
    lookupAIOContext c1 id = Some (newContext events) /\
    (forall j, j <> id -> lookupAIOContext c1 j = lookupAIOContext contexts j) /\
    (forall events', newAIOContext c1 events' id = (c1, false)) /\
    (exists d, destroyAIOContextLocked c1 id = inr (contexts, Some d) /\
               Dead d = true /\ WaitChannel d = None /\
               ch_closes (chan d) = 1%nat /\
               lookupAIOContext contexts id = None) /\
    destroyAIOContextLocked contexts id = inr (contexts, None).
Proof.
  intros Hid. unfold newAIOContext. rewrite Hid.
  eexists. split; [reflexivity|].
  unfold lookupAIOContext, destroyAIOContextLocked.
  split; [apply lookup_insert_eq|].
  split; [intros j Hj; apply lookup_insert_ne; congruence|].
  split; [intros events'; rewrite lookup_insert_eq; reflexivity|].
  split.
  - rewrite lookup_insert_eq. simpl.
    eexists. split; [rewrite delete_insert_id by exact Hid; reflexivity|].
    simpl. auto.
  - rewrite Hid. reflexivity.
Qed.

Lemma manager_lifecycle_witness :
  exists c1, newAIOContext ∅ 8 4096 = (c1, true) /\
             lookupAIOContext c1 4096 = Some (newContext 8).
Proof.
  destruct (manager_lifecycle ∅ 8 4096) as (c1 & N & L & _); [apply lookup_empty|].
  exists c1. split; [exact N | exact L].
Defined.

(** X5. destroyAIOContextLocked on a live context that still has requests
    outstanding marks it dead and takes it out of the map but leaves the
    channel open: WaitChannel is nil after the destroy exactly when nothing
    was outstanding. *)
Theorem destroy_keeps_channel_while_outstanding
        (contexts : gmap Z Machine) (id : Z) (m : Machine) :
  contexts !! id = Some m -> inv m -> dead (ctx m) = false ->
  exists d, destroyAIOContextLocked contexts id = inr (delete id contexts, Some d) /\
            Dead d = true /\ outstanding (ctx d) = outstanding (ctx m) /\
            results (ctx d) = results (ctx m) /\
            (WaitChannel d = None <-> outstanding (ctx m) = 0) /\
            ch_closed (chan d) = (outstanding (ctx m) =? 0) /\
            Prepare d = Ret (Some AIO.EINVAL) d.
Proof.
  intros Hid Hm Hd. unfold destroyAIOContextLocked. rewrite Hid.
  assert (Hnd : done m = false) by (unfold done; rewrite Hd; reflexivity).
  destruct (inv_not_done m Hm Hnd) as (Hr & Hc & Hn).
  unfold destroy.
  edestruct (checkForDone_inv (set_dead (ctx m) true) (chan m))
    as (d & E & (I1 & I2 & I3) & Ho & Hdd & Hres & _); [exact Hr | exact Hc | exact Hn |].
  rewrite E. exists d. split; [reflexivity|].
  simpl in Ho, Hdd, Hres.
  assert (Hdone : done d = (outstanding (ctx m) =? 0))
    by (unfold done; rewrite Hdd, Ho; reflexivity).
  split; [exact Hdd|]. split; [exact Ho|]. split; [exact Hres|].
  split.
  { unfold WaitChannel. rewrite I1, Hdone.
    destruct (Z.eqb_spec (outstanding (ctx m)) 0); split; congruence. }
  split; [rewrite I2; exact Hdone|].
  unfold Prepare. rewrite Hdd. reflexivity.
Qed.

Lemma destroy_keeps_channel_while_outstanding_witness :
  exists d, destroyAIOContextLocked
              {[4096 := mkMachine (mkCtx (Some TheChan) [] 8 1 false) (mkChan 0 false 0)]}
              4096
            = inr (delete 4096
                     {[4096 := mkMachine (mkCtx (Some TheChan) [] 8 1 false)
                                 (mkChan 0 false 0)]}, Some d) /\
            Dead d = true /\ ch_closed (chan d) = false.
Proof.
  edestruct (destroy_keeps_channel_while_outstanding
               {[4096 := mkMachine (mkCtx (Some TheChan) [] 8 1 false) (mkChan 0 false 0)]}
               4096) as (d & E & Hd & _ & _ & _ & Hc & _).
  - apply lookup_singleton_eq.
  - unfold inv, done; simpl; auto.
  - reflexivity.
  - exists d. split; [exact E|]. split; [exact Hd|]. exact Hc.
Defined.

(** X6. CopyMapping moves a live context to the id of the new mapping: it
    returns EFAULT unless the offset is 0 and the new range is one ring buffer
    long, and EINVAL when the mapping space is no MemoryManager or the old id
    names no live context, in each case changing nothing; otherwise the
    context is found under the new id and no longer under the old one, and the
    other ids are untouched. When the two ids are equal the context is
    dropped: the code inserts it and then deletes the old id. *)
Theorem CopyMapping_spec (contexts : gmap Z Machine) (srcAR dstAR : AddrRange)
        (offset : Z) :
  ((offset <> 0 \/ ar_Length dstAR <> aioRingBufferSize) ->
   forall ms, CopyMapping ms srcAR dstAR offset = (ms, Some EFAULT)) /\
  (offset = 0 -> ar_Length dstAR = aioRingBufferSize ->
   CopyMapping None srcAR dstAR offset = (None, Some EINVAL_map) /\
   (contexts !! u64 (ar_Start srcAR) = None ->
    CopyMapping (Some contexts) srcAR dstAR offset = (Some contexts, Some EINVAL_map)) /\
   (forall m, contexts !! u64 (ar_Start srcAR) = Some m ->
      (dead (ctx m) = true ->
       CopyMapping (Some contexts) srcAR dstAR offset
         = (Some contexts, Some EINVAL_map)) /\
      (dead (ctx m) = false ->
       exists c', CopyMapping (Some contexts) srcAR dstAR offset = (Some c', None) /\
                  c' !! u64 (ar_Start srcAR) = None /\
                  (u64 (ar_Start dstAR) <> u64 (ar_Start srcAR) ->
                   c' !! u64 (ar_Start dstAR) = Some m) /\
                  (forall j, j <> u64 (ar_Start srcAR) -> j <> u64 (ar_Start dstAR) ->
                             c' !! j = contexts !! j)))).
Proof.
  split.
  - intros H ms. unfold CopyMapping.
    destruct (Z.eqb_spec offset 0) as [->|]; simpl; [|reflexivity].
    destruct (Z.eqb_spec (ar_Length dstAR) aioRingBufferSize); simpl; [|reflexivity].
    destruct H; contradiction.
  - intros -> Hlen. unfold CopyMapping. rewrite Hlen. simpl.
    split; [reflexivity|].
    split; [intros ->; reflexivity|].
    intros m Hm. rewrite Hm. split; [intros ->; reflexivity|].
    intros ->. eexists. split; [reflexivity|].
    split; [apply lookup_delete_eq|].
    split.
    + intros Hne. rewrite lookup_delete_ne by congruence. apply lookup_insert_eq.
    + intros j H1 H2. rewrite lookup_delete_ne by congruence.
      apply lookup_insert_ne. congruence.
Qed.

(** X7. Translate never maps anything outside the mappable's file range or
    outside the range asked for: it makes at most one translation, whose
    source lies within the optional range and within [0, length), is not
    empty, and whose file offsets lie within the file range; there is none
    exactly when the optional range misses [0, length); and the error is set
    exactly when the required range ends beyond the length. *)
Theorem Translate_within_file (fr required optional : Range) :
  0 <= Start fr <= End fr -> End fr < 2 ^ 64 ->
  0 <= Start optional <= End optional -> End optional < 2 ^ 64 ->
  (snd (Translate fr required optional) = true <->
   End required > End fr - Start fr) /\
  (length (fst (Translate fr required optional)) <= 1)%nat /\
  (fst (Translate fr required optional) = [] <->
   Start optional = End optional \/ End fr - Start fr <= Start optional) /\
  (forall t, In t (fst (Translate fr required optional)) ->
     Start optional <= Start (Source t) < End (Source t) /\
     End (Source t) <= End optional /\
     End (Source t) <= End fr - Start fr /\
     Start (Source t) = Start optional /\
     End (Source t) = Z.min (End optional) (End fr - Start fr) /\
     Offset t = Start fr + Start (Source t) /\
     Start fr <= Offset t /\
     Offset t + (End (Source t) - Start (Source t)) <= End fr).
Proof.
  intros Hfr Hfr2 Hop Hop2. unfold Translate.
  assert (HL : Length fr = End fr - Start fr)
    by (unfold Length, u64; apply Z.mod_small; lia).
  rewrite HL. set (len := End fr - Start fr) in *.
  unfold Intersect. simpl.
  destruct (Z.ltb_spec (Start optional) 0) as [|_]; [lia|].
  set (e0 := if End optional >? len then len else End optional).
  assert (He0 : e0 = Z.min (End optional) len)
    by (unfold e0; destruct (Z.gtb_spec (End optional) len); lia).
  set (e := if e0 <? Start optional then Start optional else e0).
  assert (He : e = Z.max (Start optional) e0)
    by (unfold e; destruct (Z.ltb_spec e0 (Start optional)); lia).
  assert (HLs : Length (mkRange (Start optional) e) = e - Start optional)
    by (unfold Length, u64; simpl; apply Z.mod_small; lia).
  rewrite HLs.
  split.
  { destruct (negb (e - Start optional =? 0)); simpl;
      destruct (Z.gtb_spec (End required) len); split; intros; try lia; congruence. }
  destruct (Z.eqb_spec (e - Start optional) 0) as [Hz|Hnz]; simpl.
  - split; [lia|]. split; [split; [lia | reflexivity] | intros t []].
  - split; [lia|]. split; [split; [discriminate | lia]|].
    intros t [<-|[]]. simpl.
    assert (Hu : u64 (Start fr + Start optional) = Start fr + Start optional)
      by (unfold u64; apply Z.mod_small; lia).
    rewrite Hu. lia.
Qed.

Lemma Translate_within_file_witness :
  Translate (mkRange 8192 12288) (mkRange 0 4096) (mkRange 0 8192)
  = ([mkTranslation (mkRange 0 4096) 8192], false) /\
  forall t, In t (fst (Translate (mkRange 8192 12288) (mkRange 0 4096) (mkRange 0 8192))) ->
            Offset t + (End (Source t) - Start (Source t)) <= 12288.
Proof.
  split; [reflexivity|].
  intros t Ht.
  destruct (Translate_within_file (mkRange 8192 12288) (mkRange 0 4096) (mkRange 0 8192))
    as (_ & _ & _ & H); simpl; try lia.
  destruct (H t Ht) as (_ & _ & _ & _ & _ & _ & _ & H8). exact H8.
Defined.

End AIOExtra.

(** ** pkg/sentry/arch/arch.go: syscall arguments and the PIE load address *)

Module ArchMore.
Import GoInt Arch.

(** A SyscallArgument: [Value] is a uintptr. *)
Record SyscallArgument := mkArg { Value : Z }.

(** Conversion of an integer to intN: the low N bits, read as two's
    complement. *)
Definition to_signed (bits : Z) (x : Z) : Z :=
  let v := x mod 2 ^ bits in
  if v <? 2 ^ (bits - 1) then v else v - 2 ^ bits.

Definition Pointer (a : SyscallArgument) : Z := u64 (Value a).
Definition Int (a : SyscallArgument) : Z := to_signed 32 (Value a).
Definition Uint (a : SyscallArgument) : Z := u32 (Value a).
Definition Int64 (a : SyscallArgument) : Z := to_signed 64 (Value a).
Definition Uint64 (a : SyscallArgument) : Z := u64 (Value a).
Definition SizeT (a : SyscallArgument) : Z := u64 (Value a).
Definition ModeT (a : SyscallArgument) : Z := u64 (Value a mod 2 ^ 16).

(** Modelled from the spec: hostarch.Addr.AddLength (pkg/hostarch is not among
    the sources): the end of the range and whether it did not wrap around. *)
Definition AddLength (v length : Z) : Z * bool :=
  let e := u64 (v + length) in (e, e >=? v).

Definition preferredPIELoadAddr : Z := maxAddr64 / 3 * 2.

Inductive pie_result :=
| PIE (addr : Z)
| PanicTooLarge     (* "preferredPIELoadAddr %#x too large" *)
| PanicRand.        (* rand.Int63n panics *)

Section Random.
Variable Int63n : Z -> Z.

(** [Context64.PIELoadAddress] *)
Definition PIELoadAddress (l : MmapLayout) : pie_result :=
  let base := preferredPIELoadAddr in
  let '(max, ok) := AddLength base maxMmapRand64 in
  if negb ok then PanicTooLarge
  else
    let base := if max >? MaxAddr l then TopDownBase l / 3 * 2 else base in
    match mmapRand Int63n maxMmapRand64 with
    | None => PanicRand
    | Some rnd => PIE (u64 (base + rnd))
    end.
End Random.

End ArchMore.

Module ArchExtra.
Import GoInt Arch ArchSpec ArchMore.

Lemma to_signed_range bits x :
  0 < bits -> - 2 ^ (bits - 1) <= to_signed bits x < 2 ^ (bits - 1).
Proof.
  intros Hb. unfold to_signed.
  assert (H2 : 2 ^ bits = 2 * 2 ^ (bits - 1)).
  { replace bits with (1 + (bits - 1)) at 1 by lia.
    rewrite Z.pow_add_r by lia. reflexivity. }
  assert (Hp : 0 < 2 ^ (bits - 1)) by (apply Z.pow_pos_nonneg; lia).
  pose proof (Z.mod_pos_bound x (2 ^ bits) ltac:(lia)) as Hm.
  destruct (Z.ltb_spec (x mod 2 ^ bits) (2 ^ (bits - 1))); lia.
Qed.

Lemma to_signed_eq bits x :
  0 < bits -> - 2 ^ (bits - 1) <= x < 2 ^ (bits - 1) -> to_signed bits x = x.
Proof.
  intros Hb Hx. unfold to_signed.
  assert (H2 : 2 ^ bits = 2 * 2 ^ (bits - 1)).
  { replace bits with (1 + (bits - 1)) at 1 by lia.
    rewrite Z.pow_add_r by lia. reflexivity. }
  destruct (Z.lt_ge_cases x 0) as [Hneg|Hpos].
  - assert (Hm : x mod 2 ^ bits = x + 2 ^ bits).
    { symmetry. apply (Z.mod_unique _ _ (-1)); lia. }
    rewrite Hm. destruct (Z.ltb_spec (x + 2 ^ bits) (2 ^ (bits - 1))); lia.
  - rewrite Z.mod_small by lia.
    destruct (Z.ltb_spec x (2 ^ (bits - 1))); lia.
Qed.

Lemma to_signed_periodic bits x k :
  0 < bits -> to_signed bits (x + k * 2 ^ bits) = to_signed bits x.
Proof.
  intros Hb. unfold to_signed. rewrite Z.mod_add; [reflexivity|].
  assert (0 < 2 ^ bits) by (apply Z.pow_pos_nonneg; lia). lia.
Qed.

Lemma mod_mod_mul a b c : 0 < b -> 0 < c -> (a mod (b * c)) mod b = a mod b.
Proof.
  intros Hb Hc. rewrite (Z.mod_eq a (b * c)) by lia.
  replace (a - b * c * (a / (b * c))) with (a + (- (c * (a / (b * c)))) * b) by ring.
  apply Z.mod_add. lia.
Qed.

(** X8. The accessors of a syscall argument decode what the ABI encodes: a
    32-bit signed integer comes back from Int whether the register holds it
    sign-extended to 64 bits or zero-extended from 32, and whatever the upper
    32 bits are in general; Int, Uint and ModeT always give a value of the
    C type's range. *)
Theorem SyscallArgument_decodes (x : Z) :
  - 2 ^ 31 <= x < 2 ^ 31 ->
  Int (mkArg (u64 x)) = x /\
  Int (mkArg (u32 x)) = x /\
  (forall hi, Int (mkArg (u32 x + hi * 2 ^ 32)) = x) /\
  Int64 (mkArg (u64 x)) = x /\
  (0 <= x -> Uint (mkArg (u64 x)) = x) /\
  (forall a, - 2 ^ 31 <= Int a < 2 ^ 31 /\ 0 <= Uint a < 2 ^ 32 /\
             0 <= ModeT a < 2 ^ 16 /\ Uint a = u32 (Uint64 a) /\
             ModeT a = Uint a mod 2 ^ 16).
Proof.
  intros Hx.
  assert (Hu64 : u64 x = x + (if x <? 0 then 1 else 0) * 2 ^ 64).
  { unfold u64. destruct (Z.ltb_spec x 0).
    - symmetry. apply (Z.mod_unique _ _ (-1)); lia.
    - rewrite Z.mod_small by lia. lia. }
  assert (Hu32 : u32 x = x + (if x <? 0 then 1 else 0) * 2 ^ 32).
  { unfold u32. destruct (Z.ltb_spec x 0).
    - symmetry. apply (Z.mod_unique _ _ (-1)); lia.
    - rewrite Z.mod_small by lia. lia. }
  assert (H32 : forall hi, Int (mkArg (u32 x + hi * 2 ^ 32)) = x).
  { intros hi. unfold Int. simpl. rewrite Hu32, <- Z.add_assoc, <- Z.mul_add_distr_r.
    rewrite to_signed_periodic by lia. apply to_signed_eq; simpl; lia. }
  split.
  { unfold Int. simpl. rewrite Hu64.
    replace (2 ^ 64) with (2 ^ 32 * 2 ^ 32) by reflexivity.
    rewrite Z.mul_assoc, to_signed_periodic by lia. apply to_signed_eq; simpl; lia. }
  split.
  { specialize (H32 0). rewrite Z.mul_0_l, Z.add_0_r in H32. exact H32. }
  split; [exact H32|].
  split.
  { unfold Int64. simpl. rewrite Hu64, to_signed_periodic by lia.
    apply to_signed_eq; simpl; lia. }
  split.
  { intros H0. unfold Uint, u32, u64. simpl.
    rewrite (Z.mod_small x (2 ^ 64)) by lia. apply Z.mod_small. lia. }
  intros a. split; [apply (to_signed_range 32); lia|].
  split; [unfold Uint, u32; apply Z.mod_pos_bound; lia|].
  assert (Hm16 : 0 <= Value a mod 2 ^ 16 < 2 ^ 16) by (apply Z.mod_pos_bound; lia).
  split; [unfold ModeT, u64; rewrite Z.mod_small by lia; exact Hm16|].
  split.
  { unfold Uint, Uint64, u32, u64.
    replace (2 ^ 64) with (2 ^ 32 * 2 ^ 32) by reflexivity.
    symmetry. apply mod_mod_mul; lia. }
  unfold ModeT, Uint, u32, u64. rewrite (Z.mod_small _ (2 ^ 64)) by lia.
  replace (2 ^ 32) with (2 ^ 16 * 2 ^ 16) by reflexivity.
  symmetry. apply mod_mod_mul; lia.
Qed.

Lemma SyscallArgument_decodes_witness :
  Int (mkArg (u64 (-1))) = -1 /\ Int (mkArg (2 ^ 32 - 1)) = -1.
Proof.
  destruct (SyscallArgument_decodes (-1)) as (H1 & H2 & _); [lia|].
  split; [exact H1 | exact H2].
Defined.

Definition aligned (x : Z) : Prop := x mod PageSize = 0.

Lemma RoundDown_aligned v : 0 <= v < 2 ^ 64 -> aligned (RoundDown v).
Proof.
  intros Hv. unfold aligned. rewrite RoundDown_eq by exact Hv.
  rewrite Z.mul_comm. apply Z.mod_mul. unfold PageSize. lia.
Qed.

Lemma u64_range x : 0 <= u64 x < 2 ^ 64.
Proof. unfold u64. apply Z.mod_pos_bound. lia. Qed.

(** X9. PIELoadAddress never panics; the address it returns is its base
    plus a page-aligned offset below maxMmapRand64, where the base is the
    preferred load address when that range fits below MaxAddr, and then the
    whole range [base, base + maxMmapRand64) lies at or below MaxAddr, and
    two thirds of TopDownBase when it does not. *)
Theorem PIELoadAddress_range (Int63n : Z -> Z) (l : MmapLayout) :
  (forall n, 0 < n -> 0 <= Int63n n < n) ->
  0 <= TopDownBase l < 2 ^ 64 ->
  exists a rnd,
    PIELoadAddress Int63n l = PIE a /\
    0 <= rnd < maxMmapRand64 /\ aligned rnd /\
    (preferredPIELoadAddr + maxMmapRand64 <= MaxAddr l ->
     a = preferredPIELoadAddr + rnd /\ a < MaxAddr l) /\
    (MaxAddr l < preferredPIELoadAddr + maxMmapRand64 ->
     a = TopDownBase l / 3 * 2 + rnd).
Proof.
  intros Hrand HT. unfold PIELoadAddress, AddLength.
  change (u64 (preferredPIELoadAddr + maxMmapRand64)) with 0x565555554aaa.
  change (0x565555554aaa >=? preferredPIELoadAddr) with true.
  cbv beta iota delta [negb].
  change (mmapRand Int63n maxMmapRand64)
    with (Some (RoundDown (Int63n maxMmapRand64))).
  assert (Hr : 0 <= Int63n maxMmapRand64 < maxMmapRand64)
    by (apply Hrand; reflexivity).
  change maxMmapRand64 with (2 ^ 40) in *.
  assert (Hr64 : 0 <= Int63n (2 ^ 40) < 2 ^ 64) by lia.
  pose proof (RoundDown_bounds _ Hr64) as Hb.
  pose proof (RoundDown_aligned _ Hr64) as Ha.
  set (rnd := RoundDown (Int63n (2 ^ 40))) in *.
  change preferredPIELoadAddr with 0x555555554aaa in *.
  eexists. exists rnd. split; [reflexivity|].
  split; [lia|]. split; [exact Ha|].
  split.
  - intros Hfit. destruct (Z.gtb_spec 0x565555554aaa (MaxAddr l)); [lia|].
    unfold u64. rewrite Z.mod_small by lia. lia.
  - intros Hno. destruct (Z.gtb_spec 0x565555554aaa (MaxAddr l)); [|lia].
    unfold u64. apply Z.mod_small. Z.div_mod_to_equations. lia.
Qed.

Lemma PIELoadAddress_range_witness :
  exists a, PIELoadAddress (fun n => n / 2)
              (mkLayout 65536 maxAddr64 0x2aaaaaaaa000 0x7ff000000000 MmapTopDown (2 ^ 40))
            = PIE a /\ a < maxAddr64.
Proof.
  destruct (PIELoadAddress_range (fun n => n / 2)
              (mkLayout 65536 maxAddr64 0x2aaaaaaaa000 0x7ff000000000 MmapTopDown (2 ^ 40)))
    as (a & rnd & E & _ & _ & Hfit & _).
  - intros n Hn. Z.div_mod_to_equations. lia.
  - simpl. lia.
  - exists a. split; [exact E|]. apply Hfit. vm_compute. discriminate.
Defined.

Lemma gap_of_bounds M stackCur :
  0 <= M -> 0 <= stackCur ->
  0 <= gap_of M stackCur <= M / 6 * 5 /\ gap_of M stackCur <= M /\
  (gap_of M stackCur < stackCur \/ gap_of M stackCur < minGap64 ->
   gap_of M stackCur = M / 6 * 5).
Proof.
  intros HM Hs. unfold gap_of. change minGap64 with (2 ^ 27 + 2 ^ 34).
  assert (0 <= M / 6) by (apply Z.div_pos; lia).
  assert (M / 6 * 6 <= M) by (Z.div_mod_to_equations; lia).
  destruct (Z.ltb_spec stackCur (2 ^ 27 + 2 ^ 34));
    match goal with |- context [?a >? ?b] => destruct (Z.gtb_spec a b) end; lia.
Qed.

(** The layout NewMmapLayout returns, with its arithmetic done in Z: nothing
    wrapped around. *)
Lemma NewMmapLayout_shape Int63n min max stackCur l :
  (forall n, 0 < n -> 0 <= Int63n n < n) ->
  0 <= min < 2 ^ 64 -> 0 <= max < 2 ^ 64 -> 0 <= stackCur < 2 ^ 64 ->
  NewMmapLayout Int63n min max stackCur = Layout l ->
  exists rnd,
    let M := RoundDown (Z.min max maxAddr64) in
    let g := gap_of M stackCur in
    let R := maxRand_of M g in
    l = mkLayout (RoundDown (u64 (min + PageSize - 1))) M
          (RoundDown (M / 3 + rnd)) (RoundDown (M - g - rnd))
          (if stackCur =? Infinity then MmapBottomUp else MmapTopDown) R /\
    rnd = RoundDown (Int63n R) /\ 0 <= rnd < R /\ aligned rnd /\
    0 <= M - g - rnd /\ min <= MinAddr l /\ Valid l = true.
Proof.
  intros Hrand Hmin Hmax Hstack.
  rewrite NewMmapLayout_unfold. unfold RoundUp. cbv beta iota zeta.
  assert (Hmx : (if max >? maxAddr64 then maxAddr64 else max) = Z.min max maxAddr64).
  { destruct (Z.gtb_spec max maxAddr64); lia. }
  rewrite Hmx. clear Hmx.
  assert (HM0 : 0 <= Z.min max maxAddr64 < 2 ^ 64).
  { change maxAddr64 with (2 ^ 47 - 4096). lia. }
  pose proof (RoundDown_bounds _ HM0) as HMb.
  set (M := RoundDown (Z.min max maxAddr64)) in *.
  set (m' := RoundDown (u64 (min + PageSize - 1))) in *.
  destruct (Z.geb_spec m' min) as [Hge|]; cbv beta iota delta [negb]; [|discriminate].
  destruct (Z.gtb_spec m' M); [discriminate|].
  set (g := gap_of M stackCur).
  destruct (gap_of_bounds M stackCur) as (Hg & HgM & _); [lia..|]. fold g in Hg, HgM.
  pose proof (maxRand_bounds M g) as HR.
  set (R := maxRand_of M g) in *.
  change minMmapRand64 with (2 ^ 38) in HR. change maxMmapRand64 with (2 ^ 40) in HR.
  unfold mmapRand, int64_of_uint64.
  destruct (Z.ltb_spec R (2 ^ 63)); [|lia]. cbv zeta.
  destruct (Z.leb_spec R 0); [lia|].
  assert (Hr : 0 <= Int63n R < R) by (apply Hrand; lia).
  assert (Hr64 : 0 <= Int63n R < 2 ^ 64) by lia.
  pose proof (RoundDown_bounds _ Hr64) as Hrnd.
  pose proof (RoundDown_aligned _ Hr64) as Hra.
  set (rnd := RoundDown (Int63n R)) in *.
  match goal with |- context [Valid ?x] => destruct (Valid x) eqn:EV end;
    cbv beta iota delta [negb]; [|discriminate].
  pose proof EV as EV'. apply Valid_true in EV'. simpl in EV'.
  intros HL. injection HL as <-.
  change maxAddr64 with (2 ^ 47 - 4096) in HMb.
  assert (Hu1 : u64 (M / 3 + rnd) = M / 3 + rnd).
  { unfold u64. apply Z.mod_small.
    assert (0 <= M / 3 <= M) by (Z.div_mod_to_equations; lia). lia. }
  assert (Hu2 : u64 (M - g) = M - g) by (unfold u64; apply Z.mod_small; lia).
  assert (Hfit : rnd <= M - g).
  { destruct (Z.le_gt_cases rnd (M - g)) as [|Hwrap]; [assumption|]. exfalso.
    (* a wrapped TopDownBase would lie far above MaxAddr *)
    assert (Hu3 : u64 (M - g - rnd) = M - g - rnd + 2 ^ 64).
    { unfold u64. symmetry. apply (Z.mod_unique _ _ (-1)); lia. }
    pose proof (RoundDown_bounds _ (u64_range (M - g - rnd))) as Hx.
    rewrite Hu2, Hu3 in EV'. rewrite Hu3 in Hx. unfold PageSize in *. lia. }
  assert (Hu3 : u64 (M - g - rnd) = M - g - rnd)
    by (unfold u64; apply Z.mod_small; lia).
  exists rnd. cbv zeta. fold M g R.
  rewrite Hu1, Hu2, Hu3 in *.
  split; [reflexivity|]. split; [reflexivity|]. split; [lia|].
  split; [exact Hra|]. split; [lia|]. split; [simpl; lia | exact EV].
Qed.

(** X10. Every layout NewMmapLayout returns has page-aligned bounds and
    bases, starts at min rounded up to a page, ends at or below the maximum
    userspace address, allocates bottom-up exactly when the stack limit is
    infinite, and records a stack randomization between minMmapRand64 and
    maxMmapRand64. TopDownBase leaves the whole stack gap below MaxAddr, and
    BottomUpBase is more than a third of MaxAddr less a page. *)
Theorem NewMmapLayout_layout (Int63n : Z -> Z) (min max stackCur : Z) (l : MmapLayout) :
  (forall n, 0 < n -> 0 <= Int63n n < n) ->
  0 <= min < 2 ^ 64 -> 0 <= max < 2 ^ 64 -> 0 <= stackCur < 2 ^ 64 ->
  NewMmapLayout Int63n min max stackCur = Layout l ->
  aligned (MinAddr l) /\ aligned (MaxAddr l) /\
  aligned (BottomUpBase l) /\ aligned (TopDownBase l) /\
  min <= MinAddr l < min + PageSize /\
  MaxAddr l <= Z.min max maxAddr64 /\ Z.min max maxAddr64 - PageSize < MaxAddr l /\
  (DefaultDirection l = MmapBottomUp <-> stackCur = Infinity) /\
  minMmapRand64 <= MaxStackRand l <= maxMmapRand64 /\
  MaxAddr l / 3 - PageSize < BottomUpBase l /\
  TopDownBase l <= MaxAddr l - gap_of (MaxAddr l) stackCur.
Proof.
  intros Hrand Hmin Hmax Hstack HL.
  destruct (NewMmapLayout_shape _ _ _ _ _ Hrand Hmin Hmax Hstack HL)
    as (rnd & Hl & _ & Hrnd & _ & Hnw & Hge & _).
  cbv zeta in Hl.
  assert (HM0 : 0 <= Z.min max maxAddr64 < 2 ^ 64).
  { change maxAddr64 with (2 ^ 47 - 4096). lia. }
  pose proof (RoundDown_bounds _ HM0) as HMb.
  pose proof (RoundDown_aligned _ HM0) as HMa.
  set (M := RoundDown (Z.min max maxAddr64)) in *.
  set (g := gap_of M stackCur) in *.
  pose proof (maxRand_bounds M g) as HR.
  destruct (gap_of_bounds M stackCur) as (Hg & HgM & _); [lia..|]. fold g in Hg, HgM.
  pose proof (u64_range (min + PageSize - 1)) as Hu.
  pose proof (RoundDown_bounds _ Hu) as Hmb.
  assert (Hule : u64 (min + PageSize - 1) <= min + PageSize - 1).
  { unfold u64. apply Z.mod_le; unfold PageSize; lia. }
  change maxAddr64 with (2 ^ 47 - 4096) in HMb.
  change maxMmapRand64 with (2 ^ 40) in HR.
  assert (Hx1 : 0 <= M / 3 + rnd < 2 ^ 64).
  { assert (0 <= M / 3 <= M) by (Z.div_mod_to_equations; lia). lia. }
  assert (Hx2 : 0 <= M - g - rnd < 2 ^ 64) by lia.
  pose proof (RoundDown_bounds _ Hx1) as Hb1.
  pose proof (RoundDown_bounds _ Hx2) as Hb2.
  rewrite Hl in Hge |- *. simpl in Hge |- *.
  split; [apply RoundDown_aligned; exact Hu|]. split; [exact HMa|].
  split; [apply RoundDown_aligned; exact Hx1|].
  split; [apply RoundDown_aligned; exact Hx2|].
  split; [unfold PageSize in *; lia|].
  split; [change maxAddr64 with (2 ^ 47 - 4096); lia|].
  split; [change maxAddr64 with (2 ^ 47 - 4096); lia|].
  split.
  { destruct (Z.eqb_spec stackCur Infinity); split; intros; congruence. }
  split; [change maxMmapRand64 with (2 ^ 40); exact HR|].
  split; [lia|]. fold g. lia.
Qed.

Lemma NewMmapLayout_layout_witness :
  exists l, NewMmapLayout (fun n => n / 2) 65536 maxAddr64 (Z.shiftl 8 20) = Layout l /\
            aligned (TopDownBase l) /\ DefaultDirection l <> MmapBottomUp.
Proof.
  eexists. split; [vm_compute; reflexivity|].
  edestruct (NewMmapLayout_layout (fun n => n / 2) 65536 maxAddr64 (Z.shiftl 8 20))
    as (_ & _ & _ & Ha & _ & _ & _ & Hd & _).
  - intros n Hn. Z.div_mod_to_equations. lia.
  - lia.
  - vm_compute. split; [discriminate|reflexivity].
  - vm_compute. split; [discriminate|reflexivity].
  - vm_compute. reflexivity.
  - split; [exact Ha|]. intros Hb. apply Hd in Hb. vm_compute in Hb. discriminate.
Defined.

(** X11. The randomization is shrunk to keep TopDownBase at or above
    preferredTopDownBaseMin: whenever the smallest randomization the code is
    willing to use would leave room for it, that is
    MaxAddr - gap - minMmapRand64 >= preferredTopDownBaseMin for the stack gap
    the layout uses, the returned TopDownBase is at least
    preferredTopDownBaseMin, for every draw. *)
Theorem NewMmapLayout_keeps_preferred_base
        (Int63n : Z -> Z) (min max stackCur : Z) (l : MmapLayout) :
  (forall n, 0 < n -> 0 <= Int63n n < n) ->
  0 <= min < 2 ^ 64 -> 0 <= max < 2 ^ 64 -> 0 <= stackCur < 2 ^ 64 ->
  NewMmapLayout Int63n min max stackCur = Layout l ->
  MaxAddr l - gap_of (MaxAddr l) stackCur - minMmapRand64 >= preferredTopDownBaseMin ->
  preferredTopDownBaseMin <= TopDownBase l.
Proof.
  intros Hrand Hmin Hmax Hstack HL.
  destruct (NewMmapLayout_shape _ _ _ _ _ Hrand Hmin Hmax Hstack HL)
    as (rnd & Hl & _ & Hrnd & _ & Hnw & _ & _).
  cbv zeta in Hl.
  assert (HM0 : 0 <= Z.min max maxAddr64 < 2 ^ 64).
  { change maxAddr64 with (2 ^ 47 - 4096). lia. }
  pose proof (RoundDown_bounds _ HM0) as HMb.
  set (M := RoundDown (Z.min max maxAddr64)) in *.
  set (g := gap_of M stackCur) in *.
  rewrite Hl. simpl. fold g. intros Hroom.
  change minMmapRand64 with (2 ^ 38) in Hroom.
  change preferredTopDownBaseMin with 0x7ea000000000 in *.
  change maxAddr64 with (2 ^ 47 - 4096) in HMb.
  destruct (gap_of_bounds M stackCur) as (Hg & HgM & _); [lia..|]. fold g in Hg, HgM.
  (* the bound on the draw, after the adjustment *)
  assert (HR : maxRand_of M g <= M - g - 0x7ea000000000).
  { unfold maxRand_of.
    change maxMmapRand64 with (2 ^ 40). change minMmapRand64 with (2 ^ 38).
    change preferredTopDownBaseMin with 0x7ea000000000.
    assert (Hu2 : u64 (M - g) = M - g) by (unfold u64; apply Z.mod_small; lia).
    rewrite Hu2.
    assert (Hu3 : u64 (M - g - 2 ^ 40) = M - g - 2 ^ 40)
      by (unfold u64; apply Z.mod_small; lia).
    rewrite Hu3.
    destruct (Z.ltb_spec (M - g - 2 ^ 40) 0x7ea000000000); [|lia].
    change (u64 (2 ^ 40 - 2 ^ 38)) with (3 * 2 ^ 38).
    assert (Hu4 : u64 (0x7ea000000000 - (M - g - 2 ^ 40))
                  = 0x7ea000000000 - (M - g - 2 ^ 40))
      by (unfold u64; apply Z.mod_small; lia).
    rewrite Hu4.
    destruct (Z.leb_spec (0x7ea000000000 - (M - g - 2 ^ 40)) (3 * 2 ^ 38)); [|lia].
    unfold u64. rewrite Z.mod_small by lia. lia. }
  assert (Hx2 : 0 <= M - g - rnd < 2 ^ 64) by lia.
  pose proof (RoundDown_ge_aligned (M - g - rnd) 0x7ea000000000 Hx2) as Hal.
  change (PageSize * (0x7ea000000000 / PageSize)) with 0x7ea000000000 in Hal.
  lia.
Qed.

Lemma NewMmapLayout_keeps_preferred_base_witness :
  exists l, NewMmapLayout (fun n => n - 1) 65536 maxAddr64 (2 ^ 39) = Layout l /\
            preferredTopDownBaseMin <= TopDownBase l /\
            MaxStackRand l < maxMmapRand64.
Proof.
  eexists. split; [vm_compute; reflexivity|].
  split; [|vm_compute; reflexivity].
  eapply (NewMmapLayout_keeps_preferred_base (fun n => n - 1) 65536 maxAddr64
            (2 ^ 39)).
  - intros n Hn. lia.
  - lia.
  - vm_compute. split; [discriminate|reflexivity].
  - vm_compute. split; [discriminate|reflexivity].
  - vm_compute. reflexivity.
  - vm_compute. discriminate.
Defined.

End ArchExtra.

(** ** pkg/sentry/vfs/dentry.go: the delete and rename protocols *)

Module VFSMore.
Import VFS.

(** What the functions below change and read of the dentries: which are dead
    ([d.dead]) and how many mounts use each as mount point ([d.mounts]). *)
Record Dentries := mkDentries {
  dead : gset Dentry;
  mounts : gmap Dentry Z
}.

Definition isMounted (ds : Dentries) (d : Dentry) : bool :=
  negb (default 0 (mounts ds !! d) =? 0).

Definition set_dead (ds : Dentries) (d : Dentry) : Dentries :=
  mkDentries (dead ds ∪ {[d]}) (mounts ds).

(** [forgetDeadMountpoint] takes and releases vfs.mountMu around the umounts
    (umountRecursiveLocked is not among the sources; it takes no dentry
    mutex). *)
Definition forgetDeadMountpoint : list event := [Lock mountMu; Unlock mountMu].

Definition AbortDeleteDentry (d : Dentry) : list event := [Unlock (dentryMu d)].

Definition CommitDeleteDentry (ds : Dentries) (d : Dentry) : list event * Dentries :=
  let ds' := set_dead ds d in
  ([Unlock (dentryMu d)] ++ (if isMounted ds' d then forgetDeadMountpoint else []), ds').

Definition InvalidateDentry (ds : Dentries) (d : Dentry) : list event * Dentries :=
  let ds' := set_dead ds d in
  ([Lock (dentryMu d); Unlock (dentryMu d)]
     ++ (if isMounted ds' d then forgetDeadMountpoint else []), ds').

Definition AbortRenameDentry (from : Dentry) (to : option Dentry) : list event :=
  [Unlock (dentryMu from)]
    ++ match to with Some to' => [Unlock (dentryMu to')] | None => [] end.

Definition CommitRenameReplaceDentry (ds : Dentries) (from : Dentry) (to : option Dentry)
  : list event * Dentries :=
  match to with
  | Some to' =>
      let ds' := set_dead ds to' in
      ([Unlock (dentryMu from); Unlock (dentryMu to')]
         ++ (if isMounted ds' to' then forgetDeadMountpoint else []), ds')
  | None => ([Unlock (dentryMu from)], ds)
  end.

Definition CommitRenameExchangeDentry (from to : Dentry) : list event :=
  [Unlock (dentryMu from); Unlock (dentryMu to)].

#[global] Instance mutex_eq_dec : EqDecision mutex.
Proof. solve_decision. Defined.

(** One goroutine runs a trace starting with the mutexes [held]: locking a
    mutex it holds blocks for ever and unlocking one it does not hold is a
    fatal error, both [None]; otherwise the mutexes held at the end. *)
Fixpoint replay (tr : list event) (held : list mutex) : option (list mutex) :=
  match tr with
  | [] => Some held
  | Lock m :: tr' =>
      if decide (m ∈ held) then None else replay tr' (m :: held)
  | Unlock m :: tr' =>
      if decide (m ∈ held) then replay tr' (List.filter (fun x => negb (bool_decide (x = m))) held)
      else None
  end.

End VFSMore.

Module VFSExtra.
Import VFS VFSMore.

Ltac mem_contra H :=
  exfalso; rewrite list_elem_of_In in H; simpl in H; intuition congruence.

Ltac replay_step :=
  repeat (simpl replay;
          match goal with
          | |- context [decide (?m ∈ ?l)] =>
              let H := fresh "Hmem" in
              destruct (decide (m ∈ l)) as [H|H]; try (mem_contra H)
          end;
          simpl List.filter;
          repeat match goal with
                 | |- context [bool_decide (?a = ?b)] =>
                     first [ rewrite (bool_decide_eq_true_2 (a = b)) by congruence
                           | rewrite (bool_decide_eq_false_2 (a = b)) by congruence ]
                 end;
          simpl negb; cbv iota).

(** X12. The rename protocol holds and releases its mutexes in pairs. For
    from != to and neither a mount point, PrepareRenameDentry returns holding
    exactly from.mu and to.mu, and each of AbortRenameDentry,
    CommitRenameReplaceDentry and CommitRenameExchangeDentry releases both and
    leaves nothing held; when it returns EBUSY nothing is held.
    CommitRenameReplaceDentry marks to, and only to, dead. With from == to,
    against the documented precondition, PrepareRenameDentry locks the same
    mutex twice and never returns. *)
Theorem rename_protocol_balanced (mountpoints : gmap Dentry Z) (ds : Dentries)
        (from to : Dentry) :
  from <> to ->
  (snd (PrepareRenameDentry mountpoints from (Some to)) = Some EBUSY ->
   replay (fst (PrepareRenameDentry mountpoints from (Some to))) [] = Some []) /\
  (snd (PrepareRenameDentry mountpoints from (Some to)) = None ->
   replay (fst (PrepareRenameDentry mountpoints from (Some to))) []
     = Some [dentryMu from; dentryMu to] /\
   replay (fst (PrepareRenameDentry mountpoints from (Some to))
             ++ AbortRenameDentry from (Some to)) [] = Some [] /\
   replay (fst (PrepareRenameDentry mountpoints from (Some to))
             ++ fst (CommitRenameReplaceDentry ds from (Some to))) [] = Some [] /\
   replay (fst (PrepareRenameDentry mountpoints from (Some to))
             ++ CommitRenameExchangeDentry from to) [] = Some []) /\
  (forall d, d ∈ dead (snd (CommitRenameReplaceDentry ds from (Some to))) <->
             d ∈ dead ds \/ d = to) /\
  (mountpoints_at mountpoints to = 0 ->
   replay (fst (PrepareRenameDentry mountpoints to (Some to))) [] = None).
Proof.
  intros Hne. unfold PrepareRenameDentry.
  split; [|split; [|split]].
  - destruct (mountpoints_at mountpoints from =? 0); simpl;
      [destruct (mountpoints_at mountpoints to =? 0); simpl|];
      intros H; try discriminate; replay_step; reflexivity.
  - destruct (mountpoints_at mountpoints from =? 0); simpl; [|discriminate].
    destruct (mountpoints_at mountpoints to =? 0); simpl; [|discriminate].
    intros _. unfold AbortRenameDentry, CommitRenameReplaceDentry,
                CommitRenameExchangeDentry, forgetDeadMountpoint.
    repeat split; try destruct (isMounted _ _); replay_step; reflexivity.
  - intros d. simpl. rewrite elem_of_union, elem_of_singleton. reflexivity.
  - intros ->. simpl. replay_step. reflexivity.
Qed.

Lemma rename_protocol_balanced_witness :
  replay (fst (PrepareRenameDentry ∅ 0x1000 (Some 0x2000))
            ++ AbortRenameDentry 0x1000 (Some 0x2000)) [] = Some [].
Proof.
  destruct (rename_protocol_balanced ∅ (mkDentries ∅ ∅) 0x1000 0x2000) as (_ & H & _);
    [discriminate|].
  destruct (H eq_refl) as (_ & Ha & _). exact Ha.
Defined.

(** X13. The delete protocol: PrepareDeleteDentry returns EBUSY, holding
    nothing, exactly when the dentry is a mount point of the namespace, and
    otherwise returns holding d.mu alone; AbortDeleteDentry and
    CommitDeleteDentry release it and leave nothing held, and
    CommitDeleteDentry marks the dentry dead while AbortDeleteDentry does not
    touch it. InvalidateDentry marks it dead under its own mutex and holds
    nothing afterwards. No other dentry becomes dead. *)
Theorem delete_protocol_balanced (mountpoints : gmap Dentry Z) (ds : Dentries)
        (d : Dentry) :
  (snd (PrepareDeleteDentry mountpoints d) = Some EBUSY <->
   mountpoints_at mountpoints d <> 0) /\
  (snd (PrepareDeleteDentry mountpoints d) = Some EBUSY ->
   replay (fst (PrepareDeleteDentry mountpoints d)) [] = Some []) /\
  (snd (PrepareDeleteDentry mountpoints d) = None ->
   replay (fst (PrepareDeleteDentry mountpoints d)) [] = Some [dentryMu d] /\
   replay (fst (PrepareDeleteDentry mountpoints d) ++ AbortDeleteDentry d) [] = Some [] /\
   replay (fst (PrepareDeleteDentry mountpoints d) ++ fst (CommitDeleteDentry ds d)) []
     = Some []) /\
  replay (fst (InvalidateDentry ds d)) [] = Some [] /\
  (forall x, x ∈ dead (snd (CommitDeleteDentry ds d)) <-> x ∈ dead ds \/ x = d) /\
  (forall x, x ∈ dead (snd (InvalidateDentry ds d)) <-> x ∈ dead ds \/ x = d).
Proof.
  unfold PrepareDeleteDentry.
  split; [|split; [|split; [|split; [|split]]]].
  - destruct (Z.eqb_spec (mountpoints_at mountpoints d) 0); simpl;
      split; intros; try discriminate; try reflexivity; try contradiction; lia.
  - destruct (mountpoints_at mountpoints d =? 0); simpl; intros H;
      try discriminate; replay_step; reflexivity.
  - destruct (mountpoints_at mountpoints d =? 0); simpl; [|discriminate].
    intros _. unfold AbortDeleteDentry, CommitDeleteDentry, forgetDeadMountpoint.
    repeat split; try destruct (isMounted _ _); replay_step; reflexivity.
  - unfold InvalidateDentry, forgetDeadMountpoint.
    destruct (isMounted _ _); replay_step; reflexivity.
  - intros x. simpl. rewrite elem_of_union, elem_of_singleton. reflexivity.
  - intros x. simpl. rewrite elem_of_union, elem_of_singleton. reflexivity.
Qed.

End VFSExtra.

(** ** pkg/sentry/syscalls/linux: umount2, the sched calls, eventfd *)

Module SyscallsMore.
Import GoInt SysMount ArchMore.

(** Modelled from the spec: constants of pkg/abi/linux and errno values that
    are not among the sources, with their Linux values. *)
Definition MNT_FORCE : Z := 0x1.
Definition MNT_DETACH : Z := 0x2.
Definition MNT_EXPIRE : Z := 0x4.
Definition UMOUNT_NOFOLLOW : Z := 0x8.
Definition SCHED_NORMAL : Z := 0.
Definition EFD_SEMAPHORE : Z := 0x1.
Definition EFD_NONBLOCK : Z := 0x800.
Definition EFD_CLOEXEC : Z := 0x80000.
Definition O_RDWR : Z := 0x2.
Definition O_NONBLOCK : Z := 0x800.
Definition ESRCH : errno := 3.

(** The six arguments of a syscall; a missing one reads as 0. *)
Definition arg (args : list SyscallArgument) (i : nat) : SyscallArgument :=
  nth i args (mkArg 0).

(** *** Umount2 *)

Record umount_env := mkUmountEnv {
  u_hasCapSysAdmin : bool;
  u_copyInPath : option errno;
  u_getTaskPathOperation : option errno;
  u_UmountAt : option errno
}.

(** The call of UmountAt: whether the final symlink is followed and
    [opts.Flags]. *)
Record umount_call := mkUmountCall {
  FollowFinalSymlink : bool;
  Flags : Z
}.

Definition Umount2 (e : umount_env) (args : list SyscallArgument)
  : option errno * option umount_call :=
  let flags := Int (arg args 1) in
  if negb (u_hasCapSysAdmin e) then (Some EPERM, None)
  else
    let unsupported := Z.lor MNT_FORCE MNT_EXPIRE in
    if negb (Z.land flags unsupported =? 0) then (Some EINVAL, None)
    else
      match u_copyInPath e with
      | Some err => (Some err, None)
      | None =>
      match u_getTaskPathOperation e with
      | Some err => (Some err, None)
      | None =>
          (u_UmountAt e,
           Some (mkUmountCall (Z.land flags UMOUNT_NOFOLLOW =? 0)
                   (u32 (Z.land flags (Z.lnot UMOUNT_NOFOLLOW)))))
      end end.

(** *** sched_getparam, sched_getscheduler, sched_setscheduler *)

Definition onlyScheduler : Z := SCHED_NORMAL.
Definition onlyPriority : Z := 0.

Record sched_env := mkSchedEnv {
  TaskWithID : Z -> bool;                  (* the PID namespace has the task *)
  CopyIn_param : errno + Z;                (* the schedPriority read from param *)
  CopyOut_param : option errno
}.

(** The return value, the error, and the SchedParam copied out, if one is. *)
Definition SchedGetparam (e : sched_env) (args : list SyscallArgument)
  : Z * option errno * option Z :=
  let pid := Int (arg args 0) in
  let param := Pointer (arg args 1) in
  if param =? 0 then (0, Some EINVAL, None)
  else if pid <? 0 then (0, Some EINVAL, None)
  else if negb (pid =? 0) && negb (TaskWithID e pid) then (0, Some ESRCH, None)
  else
    match CopyOut_param e with
    | Some err => (0, Some err, None)
    | None => (0, None, Some onlyPriority)
    end.

Definition SchedGetscheduler (e : sched_env) (args : list SyscallArgument)
  : Z * option errno :=
  let pid := Int (arg args 0) in
  if pid <? 0 then (0, Some EINVAL)
  else if negb (pid =? 0) && negb (TaskWithID e pid) then (0, Some ESRCH)
  else (onlyScheduler, None).

Definition SchedSetscheduler (e : sched_env) (args : list SyscallArgument)
  : Z * option errno :=
  let pid := Int (arg args 0) in
  let policy := Int (arg args 1) in
  if pid <? 0 then (0, Some EINVAL)
  else if negb (policy =? onlyScheduler) then (0, Some EINVAL)
  else if negb (pid =? 0) && negb (TaskWithID e pid) then (0, Some ESRCH)
  else
    match CopyIn_param e with
    | inl _ => (0, Some EINVAL)
    | inr schedPriority =>
        if negb (schedPriority =? onlyPriority) then (0, Some EINVAL)
        else (0, None)
    end.

(** *** eventfd and eventfd2 *)

Record eventfd_env := mkEventfdEnv {
  eventfd_New : option errno;
  NewFDFrom : errno + Z
}.

(** What eventfd.New is called with and the close-on-exec flag of the new
    descriptor. *)
Record eventfd_new := mkEventfdNew {
  initVal : Z;
  semMode : bool;
  fileFlags : Z;
  CloseOnExec : bool
}.

Definition Eventfd2 (e : eventfd_env) (args : list SyscallArgument)
  : Z * option errno * option eventfd_new :=
  let initVal := u64 (Uint (arg args 0)) in
  let flags := u64 (Uint (arg args 1)) in
  let allOps := Z.lor EFD_SEMAPHORE (Z.lor EFD_NONBLOCK EFD_CLOEXEC) in
  if negb (Z.land flags (u64 (Z.lnot allOps)) =? 0) then (0, Some EINVAL, None)
  else
    let fileFlags := O_RDWR in
    let fileFlags :=
      if negb (Z.land flags EFD_NONBLOCK =? 0) then Z.lor fileFlags O_NONBLOCK
      else fileFlags in
    let semMode := negb (Z.land flags EFD_SEMAPHORE =? 0) in
    let call := mkEventfdNew initVal semMode fileFlags
                  (negb (Z.land flags EFD_CLOEXEC =? 0)) in
    match eventfd_New e with
    | Some err => (0, Some err, None)
    | None =>
        match NewFDFrom e with
        | inl err => (0, Some err, Some call)
        | inr fd => (u64 fd, None, Some call)
        end
    end.

(** [args[1].Value = 0] *)
Definition set_arg1_zero (args : list SyscallArgument) : list SyscallArgument :=
  match args with
  | a0 :: _ :: rest => a0 :: mkArg 0 :: rest
  | _ => args
  end.

Definition Eventfd (e : eventfd_env) (args : list SyscallArgument)
  : Z * option errno * option eventfd_new :=
  Eventfd2 e (set_arg1_zero args).

(** *** getTaskPathOperation and Release *)

Definition AT_FDCWD : Z := -100.
Definition ENOENT : errno := 2.
Definition EBADF : errno := 9.

(** The reference-counted objects involved: the task's root and working
    directory, the file open at dirfd and that file's dentry. *)
Inductive obj := Root | Cwd | DirFile | DirFileVD.

#[global] Instance obj_eq_dec : EqDecision obj.
Proof. solve_decision. Defined.

(** Reference operations, in program order. [Get] is a call that hands its
    caller a reference on what it returns: FSContext.RootDirectory,
    FSContext.WorkingDirectory and Task.GetFile (not among the sources). *)
Inductive refop :=
| Get (o : obj)
| IncRef (o : obj)
| DecRef (o : obj).

(** The parts of an fspath.Path the function looks at. *)
Record Path := mkPath { Absolute : bool; HasComponents : bool }.

Record taskPathOperation := mkTpop {
  pop_Root : obj;
  pop_Start : obj;
  pop_FollowFinalSymlink : bool;
  haveStartRef : bool
}.

(** [haveFile]: the task has a file open at dirfd. *)
Definition getTaskPathOperation (haveFile : bool) (dirfd : Z) (path : Path)
           (shouldAllowEmptyPath shouldFollowFinalSymlink : bool)
  : list refop * (errno + taskPathOperation) :=
  let t := [Get Root] in
  if negb (Absolute path) then
    if negb (HasComponents path) && negb shouldAllowEmptyPath then
      (t ++ [DecRef Root], inl ENOENT)
    else if dirfd =? AT_FDCWD then
      (t ++ [Get Cwd], inr (mkTpop Root Cwd shouldFollowFinalSymlink true))
    else if negb haveFile then
      (t ++ [DecRef Root], inl EBADF)
    else
      (t ++ [Get DirFile; IncRef DirFileVD; DecRef DirFile],
       inr (mkTpop Root DirFileVD shouldFollowFinalSymlink true))
  else (t, inr (mkTpop Root Root shouldFollowFinalSymlink false)).

Definition Release (tpop : taskPathOperation) : list refop * taskPathOperation :=
  ([DecRef (pop_Root tpop)]
     ++ (if haveStartRef tpop then [DecRef (pop_Start tpop)] else []),
   mkTpop (pop_Root tpop) (pop_Start tpop) (pop_FollowFinalSymlink tpop) false).

(** The references on [o] a trace leaves with its goroutine: those it got or
    took, less those it dropped. *)
Fixpoint balance (o : obj) (tr : list refop) : Z :=
  match tr with
  | [] => 0
  | Get x :: tr' | IncRef x :: tr' => (if decide (x = o) then 1 else 0) + balance o tr'
  | DecRef x :: tr' => balance o tr' - (if decide (x = o) then 1 else 0)
  end.

End SyscallsMore.

Module SyscallsExtra.
Import GoInt SysMount SysMountSpec ArchMore ArchExtra SyscallsMore.

Lemma u32_land x : u32 x = Z.land x (Z.ones 32).
Proof. unfold u32. symmetry. apply Z.land_ones. lia. Qed.

Lemma u64_land x : u64 x = Z.land x (Z.ones 64).
Proof. unfold u64. symmetry. apply Z.land_ones. lia. Qed.

(** X14. umount2: without CAP_SYS_ADMIN the call returns EPERM; with it,
    MNT_FORCE or MNT_EXPIRE in the flags give EINVAL; and whenever UmountAt
    is reached, the flags it gets hold none of MNT_FORCE, MNT_EXPIRE and
    UMOUNT_NOFOLLOW, keep MNT_DETACH as the caller gave it, and the final
    symlink is followed exactly when UMOUNT_NOFOLLOW was not given. *)
Theorem Umount2_flags (e : umount_env) (args : list SyscallArgument) :
  (u_hasCapSysAdmin e = false -> Umount2 e args = (Some EPERM, None)) /\
  (u_hasCapSysAdmin e = true ->
   Z.land (Int (arg args 1)) MNT_FORCE <> 0 \/ Z.land (Int (arg args 1)) MNT_EXPIRE <> 0 ->
   Umount2 e args = (Some EINVAL, None)) /\
  (forall r c, Umount2 e args = (r, Some c) ->
     r = u_UmountAt e /\ u_hasCapSysAdmin e = true /\
     Z.land (Flags c) (Z.lor MNT_FORCE (Z.lor MNT_EXPIRE UMOUNT_NOFOLLOW)) = 0 /\
     0 <= Flags c < 2 ^ 32 /\
     Z.land (Flags c) MNT_DETACH = Z.land (Int (arg args 1)) MNT_DETACH /\
     (FollowFinalSymlink c = true <-> Z.land (Int (arg args 1)) UMOUNT_NOFOLLOW = 0)).
Proof.
  unfold Umount2. set (flags := Int (arg args 1)).
  split; [intros ->; reflexivity|].
  split.
  - intros -> H. simpl.
    destruct (Z.eqb_spec (Z.land flags (Z.lor MNT_FORCE MNT_EXPIRE)) 0) as [H0|];
      [|reflexivity].
    exfalso. destruct H as [H|H]; apply H;
      apply (land_submask flags _ (Z.lor MNT_FORCE MNT_EXPIRE)); auto.
  - intros r c. destruct (u_hasCapSysAdmin e); simpl; [|discriminate].
    destruct (Z.eqb_spec (Z.land flags (Z.lor MNT_FORCE MNT_EXPIRE)) 0) as [H0|];
      simpl; [|discriminate].
    destruct (u_copyInPath e); [discriminate|].
    destruct (u_getTaskPathOperation e); [discriminate|].
    intros H. injection H as <- <-. simpl.
    split; [reflexivity|]. split; [reflexivity|].
    split.
    { rewrite u32_land, <- !Z.land_assoc.
      change (Z.land (Z.lnot UMOUNT_NOFOLLOW)
                (Z.land (Z.ones 32) (Z.lor MNT_FORCE (Z.lor MNT_EXPIRE UMOUNT_NOFOLLOW))))
        with (Z.lor MNT_FORCE MNT_EXPIRE).
      exact H0. }
    split; [unfold u32; apply Z.mod_pos_bound; lia|].
    split.
    { rewrite u32_land, <- !Z.land_assoc. reflexivity. }
    destruct (Z.eqb_spec (Z.land flags UMOUNT_NOFOLLOW) 0); split; congruence.
Qed.

(** X15. The pre-2.4 magic is ignored: flags that carry MS_MGC_VAL in their
    upper 16 bits are treated by Mount exactly like the same flags without
    it. *)
Theorem Mount_ignores_magic (e : env) (f : Z) :
  0 <= f < 2 ^ 16 ->
  strip_magic (Z.lor MS_MGC_VAL f) = f /\ strip_magic f = f /\
  Mount e (Z.lor MS_MGC_VAL f) = Mount e f.
Proof.
  intros Hf.
  assert (Hlow : f = Z.land f (Z.ones 16)).
  { rewrite Z.land_ones by lia. symmetry. apply Z.mod_small. lia. }
  assert (Hmask : Z.land f MS_MGC_MSK = 0).
  { rewrite Hlow, <- Z.land_assoc. apply Z.land_0_r. }
  assert (H1 : strip_magic (Z.lor MS_MGC_VAL f) = f).
  { unfold strip_magic, andnot.
    rewrite Z.land_lor_distr_l, Hmask, Z.lor_0_r.
    change (Z.land MS_MGC_VAL MS_MGC_MSK =? MS_MGC_VAL) with true. cbv iota.
    rewrite Z.land_lor_distr_l.
    change (Z.land MS_MGC_VAL (u64 (Z.lnot MS_MGC_MSK))) with 0.
    rewrite Z.lor_0_l. rewrite Hlow at 1. rewrite <- Z.land_assoc.
    change (Z.land (Z.ones 16) (u64 (Z.lnot MS_MGC_MSK))) with (Z.ones 16).
    symmetry. exact Hlow. }
  assert (H2 : strip_magic f = f).
  { unfold strip_magic. rewrite Hmask. reflexivity. }
  split; [exact H1|]. split; [exact H2|].
  unfold Mount. rewrite H1, H2. reflexivity.
Qed.

Lemma Mount_ignores_magic_witness :
  Mount (mkEnv true None None None None None None None None 0 None None)
        (Z.lor MS_MGC_VAL MS_RDONLY)
  = (None, Some (MountAt (mkOpts false false false false true))).
Proof.
  destruct (Mount_ignores_magic
              (mkEnv true None None None None None None None None 0 None None) MS_RDONLY)
    as (_ & _ & H); [unfold MS_RDONLY; lia|].
  rewrite H. reflexivity.
Defined.

Ltac fin :=
  first [ reflexivity | discriminate | lia | congruence
        | solve [intuition (first [congruence | lia | discriminate])] ].

Lemma SchedSetscheduler_cases e args :
  let pid := Int (arg args 0) in
  let policy := Int (arg args 1) in
  SchedSetscheduler e args =
  if (0 <=? pid) && (policy =? 0) then
    if (0 <? pid) && negb (TaskWithID e pid) then (0, Some ESRCH)
    else match CopyIn_param e with
         | inr 0 => (0, None)
         | _ => (0, Some EINVAL)
         end
  else (0, Some EINVAL).
Proof.
  cbv zeta. unfold SchedSetscheduler, onlyScheduler, onlyPriority, SCHED_NORMAL.
  destruct (Z.ltb_spec (Int (arg args 0)) 0);
    destruct (Z.leb_spec 0 (Int (arg args 0))); try lia; simpl; [reflexivity|].
  destruct (Z.eqb_spec (Int (arg args 1)) 0); simpl; [|reflexivity].
  destruct (Z.eqb_spec (Int (arg args 0)) 0);
    destruct (Z.ltb_spec 0 (Int (arg args 0))); try lia; simpl.
  - destruct (CopyIn_param e) as [|[| |]]; reflexivity.
  - destruct (TaskWithID e _); simpl; [|reflexivity].
    destruct (CopyIn_param e) as [|[| |]]; reflexivity.
Qed.

(** X16. The only scheduling policy is SCHED_NORMAL at priority 0.
    sched_setscheduler tests the sign of the pid, then the policy, then looks
    the task up, then reads the parameter: it succeeds exactly for a
    non-negative pid that is 0 or names a task, the policy SCHED_NORMAL and a
    readable parameter of priority 0; it returns ESRCH exactly for a positive
    pid that names no task when the policy is SCHED_NORMAL; and it returns
    EINVAL exactly for a negative pid, for any other policy whatever the pid
    names, and, when the pid is 0 or names a task, for a parameter that cannot
    be read or is not 0.
    sched_getscheduler returns SCHED_NORMAL exactly for a non-negative pid
    that is 0 or names a task, ESRCH exactly for a positive pid that names no
    task, and EINVAL exactly for a negative pid. sched_getparam returns EINVAL
    for a null address whatever the pid; with a non-null address it returns
    EINVAL for a negative pid, ESRCH for a positive pid that names no task,
    and otherwise copies out priority 0 or returns the error of the copy. *)
Theorem Sched_only_normal (e : sched_env) (args : list SyscallArgument) :
  let pid := Int (arg args 0) in
  let known := pid = 0 \/ TaskWithID e pid = true in
  (SchedSetscheduler e args = (0, None) <->
   0 <= pid /\ known /\ Int (arg args 1) = SCHED_NORMAL /\ CopyIn_param e = inr 0) /\
  (SchedSetscheduler e args = (0, Some ESRCH) <->
   0 < pid /\ TaskWithID e pid = false /\ Int (arg args 1) = SCHED_NORMAL) /\
  (SchedSetscheduler e args = (0, Some EINVAL) <->
   pid < 0 \/ Int (arg args 1) <> SCHED_NORMAL \/
   (known /\ CopyIn_param e <> inr 0)) /\
  (SchedGetscheduler e args = (SCHED_NORMAL, None) <-> 0 <= pid /\ known) /\
  (SchedGetscheduler e args = (0, Some ESRCH) <->
   0 < pid /\ TaskWithID e pid = false) /\
  (SchedGetscheduler e args = (0, Some EINVAL) <-> pid < 0) /\
  (Pointer (arg args 1) = 0 -> SchedGetparam e args = (0, Some EINVAL, None)) /\
  (Pointer (arg args 1) <> 0 ->
   (pid < 0 -> SchedGetparam e args = (0, Some EINVAL, None)) /\
   (0 < pid -> TaskWithID e pid = false ->
    SchedGetparam e args = (0, Some ESRCH, None)) /\
   (0 <= pid -> known ->
    SchedGetparam e args
    = match CopyOut_param e with
      | Some err => (0, Some err, None)
      | None => (0, None, Some 0)
      end)).
Proof.
  cbv zeta. rewrite (SchedSetscheduler_cases e args). cbv zeta.
  unfold SchedGetscheduler, SchedGetparam, onlyScheduler, onlyPriority,
    SCHED_NORMAL, ESRCH, EINVAL.
  set (pid := Int (arg args 0)). set (policy := Int (arg args 1)).
  split_and!.
  - destruct (Z.leb_spec 0 pid); destruct (Z.eqb_spec policy 0); simpl;
      try (split; [discriminate | fin]).
    destruct (Z.ltb_spec 0 pid); destruct (TaskWithID e pid); simpl;
      try (split; [discriminate | fin]);
      destruct (CopyIn_param e) as [|[| |]];
      split; intros; try discriminate; try fin; repeat split; fin.
  - destruct (Z.leb_spec 0 pid); destruct (Z.eqb_spec policy 0); simpl;
      try (split; [discriminate | fin]).
    destruct (Z.ltb_spec 0 pid); destruct (TaskWithID e pid); simpl;
      try (destruct (CopyIn_param e) as [|[| |]]);
      split; intros; try discriminate; try fin; repeat split; fin.
  - destruct (Z.leb_spec 0 pid); destruct (Z.eqb_spec policy 0); simpl;
      try (split; [intros _; fin | reflexivity]).
    destruct (Z.ltb_spec 0 pid); destruct (TaskWithID e pid) eqn:Et; simpl;
      try (destruct (CopyIn_param e) as [|[| |]]);
      split; intros H'; try discriminate H'; try reflexivity;
      try (right; right; split; [fin | discriminate]);
      try (exfalso; destruct H' as [H'|[H'|[[H'|H'] H'']]]; fin).
  - destruct (Z.ltb_spec pid 0); [split; [discriminate|lia]|].
    destruct (Z.eqb_spec pid 0); destruct (TaskWithID e pid); simpl;
      split; intros H'; try discriminate H'; fin.
  - destruct (Z.ltb_spec pid 0); [split; [discriminate|lia]|].
    destruct (Z.eqb_spec pid 0); destruct (TaskWithID e pid); simpl;
      split; intros H'; try discriminate H'; fin.
  - destruct (Z.ltb_spec pid 0); [split; intros; fin|].
    destruct (Z.eqb_spec pid 0); destruct (TaskWithID e pid); simpl;
      split; intros H'; try discriminate H'; fin.
  - intros ->. reflexivity.
  - intros Hp. destruct (Z.eqb_spec (Pointer (arg args 1)) 0); [contradiction|].
    split_and!.
    + intros Hneg. destruct (Z.ltb_spec pid 0); [reflexivity|lia].
    + intros Hpos Ht. destruct (Z.ltb_spec pid 0); [lia|].
      destruct (Z.eqb_spec pid 0); [lia|]. rewrite Ht. reflexivity.
    + intros H0 Hk. destruct (Z.ltb_spec pid 0); [lia|].
      destruct (Z.eqb_spec pid 0); simpl; [reflexivity|].
      destruct Hk as [Hk|Hk]; [contradiction|]. rewrite Hk. reflexivity.
Qed.

Lemma land_u64_lnot f A : 0 <= f < 2 ^ 64 -> Z.land f (u64 (Z.lnot A)) = Z.land f (Z.lnot A).
Proof.
  intros Hf. rewrite u64_land, (Z.land_comm (Z.lnot A)), Z.land_assoc.
  f_equal. rewrite Z.land_ones by lia. apply Z.mod_small. exact Hf.
Qed.

Lemma Uint_u64 a : u64 (Uint a) = Uint a.
Proof.
  unfold u64. apply Z.mod_small.
  assert (0 <= Uint a < 2 ^ 32) by (unfold Uint, u32; apply Z.mod_pos_bound; lia). lia.
Qed.

(** X17. eventfd2 rejects every flag other than EFD_SEMAPHORE, EFD_NONBLOCK
    and EFD_CLOEXEC with EINVAL before it creates anything; when it does
    create an event fd, the initial value is the low 32 bits of the first
    argument, semaphore mode, O_NONBLOCK and close-on-exec are on exactly when
    their flag is given, and the file is opened O_RDWR. eventfd ignores its
    second argument: it creates a plain blocking event fd whatever that
    register holds. *)
Theorem Eventfd2_flags (e : eventfd_env) (args : list SyscallArgument) :
  (Z.land (Uint (arg args 1))
          (Z.lnot (Z.lor EFD_SEMAPHORE (Z.lor EFD_NONBLOCK EFD_CLOEXEC))) <> 0 ->
   Eventfd2 e args = (0, Some EINVAL, None)) /\
  (forall ret r c, Eventfd2 e args = (ret, r, Some c) ->
     Z.land (Uint (arg args 1))
            (Z.lnot (Z.lor EFD_SEMAPHORE (Z.lor EFD_NONBLOCK EFD_CLOEXEC))) = 0 /\
     initVal c = Uint (arg args 0) /\
     (semMode c = true <-> Z.land (Uint (arg args 1)) EFD_SEMAPHORE <> 0) /\
     (CloseOnExec c = true <-> Z.land (Uint (arg args 1)) EFD_CLOEXEC <> 0) /\
     fileFlags c = (if Z.land (Uint (arg args 1)) EFD_NONBLOCK =? 0
                    then O_RDWR else Z.lor O_RDWR O_NONBLOCK)) /\
  (forall a0 a1 rest fd, args = a0 :: a1 :: rest ->
     eventfd_New e = None -> NewFDFrom e = inr fd ->
     Eventfd e args = (u64 fd, None, Some (mkEventfdNew (Uint a0) false O_RDWR false))).
Proof.
  unfold Eventfd2. rewrite !Uint_u64.
  assert (Hf : 0 <= Uint (arg args 1) < 2 ^ 64).
  { assert (0 <= Uint (arg args 1) < 2 ^ 32)
      by (unfold Uint, u32; apply Z.mod_pos_bound; lia). lia. }
  rewrite (land_u64_lnot _ _ Hf).
  set (flags := Uint (arg args 1)) in *.
  set (allOps := Z.lor EFD_SEMAPHORE (Z.lor EFD_NONBLOCK EFD_CLOEXEC)).
  split; [|split].
  - intros Hbad. destruct (Z.eqb_spec (Z.land flags (Z.lnot allOps)) 0); [contradiction|].
    reflexivity.
  - intros ret r c.
    destruct (Z.eqb_spec (Z.land flags (Z.lnot allOps)) 0) as [H0|]; simpl; [|discriminate].
    destruct (eventfd_New e); [discriminate|].
    destruct (NewFDFrom e); intros H; injection H as _ _ <-; simpl;
      (split; [exact H0|]); (split; [reflexivity|]);
      (split; [destruct (Z.eqb_spec (Z.land flags EFD_SEMAPHORE) 0); simpl; split; fin|]);
      (split; [destruct (Z.eqb_spec (Z.land flags EFD_CLOEXEC) 0); simpl; split; fin|]);
      destruct (Z.land flags EFD_NONBLOCK =? 0); reflexivity.
  - intros a0 a1 rest fd -> HN HF. unfold Eventfd, Eventfd2. simpl.
    rewrite HN, HF. rewrite !Uint_u64. reflexivity.
Qed.

(** X18. getTaskPathOperation leaks no reference: when it fails (ENOENT for
    an empty relative path that is not allowed, EBADF for a dirfd with no
    file) it has dropped every reference it got, and when it succeeds,
    Release drops exactly what is left, for each of the root, the working
    directory, the dirfd file and its dentry. An absolute path starts at the
    root on the root's one reference; a second Release-like drop of the start
    is ruled out by haveStartRef, which Release clears. *)
Theorem getTaskPathOperation_refs (haveFile : bool) (dirfd : Z) (path : Path)
        (allowEmpty follow : bool) (o : obj) :
  match getTaskPathOperation haveFile dirfd path allowEmpty follow with
  | (tr, inl err) =>
      balance o tr = 0 /\ Absolute path = false /\
      (err = ENOENT <-> HasComponents path = false /\ allowEmpty = false) /\
      (err = EBADF <-> (HasComponents path = true \/ allowEmpty = true) /\
                       dirfd <> AT_FDCWD /\ haveFile = false)
  | (tr, inr tpop) =>
      balance o tr = (if decide (o = pop_Root tpop) then 1 else 0)
                     + (if haveStartRef tpop && bool_decide (o = pop_Start tpop)
                        then 1 else 0) /\
      balance o (tr ++ fst (Release tpop)) = 0 /\
      haveStartRef (snd (Release tpop)) = false /\
      pop_FollowFinalSymlink tpop = follow /\
      (Absolute path = true -> pop_Start tpop = Root /\ haveStartRef tpop = false) /\
      (Absolute path = false ->
       pop_Start tpop = (if dirfd =? AT_FDCWD then Cwd else DirFileVD))
  end.
Proof.
  unfold getTaskPathOperation, ENOENT, EBADF.
  destruct path as [[|] [|]]; destruct allowEmpty; simpl;
    try (destruct (Z.eqb_spec dirfd AT_FDCWD); simpl);
    try (destruct haveFile; simpl);
    destruct o; simpl; repeat split; intros; try fin.
Qed.

End SyscallsExtra.

(** ** pkg/sentry/socket/netfilter/owner_matcher.go *)

Module OwnerMatch.
Import GoInt.

(** Modelled from the spec: XT_OWNER_UID and XT_OWNER_GID of pkg/abi/linux
    (not among the sources), Linux's values. *)
Definition XT_OWNER_UID : Z := 1.
Definition XT_OWNER_GID : Z := 2.

Record OwnerMatcher := mkOwner {
  uid : Z;
  gid : Z;
  matchUID : bool;
  matchGID : bool;
  invertUID : bool;
  invertGID : bool
}.

(** linux.IPTOwnerInfo: UID and GID are uint32, Match and Invert uint8. *)
Record IPTOwnerInfo := mkInfo {
  UID : Z;
  GID : Z;
  Match_ : Z;
  Invert : Z
}.

(** The IPTOwnerInfo that [ownerMarshaler.marshal] builds and hands to
    marshal.Marshal. *)
Definition marshal_info (matcher : OwnerMatcher) : IPTOwnerInfo :=
  let m0 := 0 in
  let i0 := 0 in
  let '(m1, i1) :=
    if matchUID matcher
    then (XT_OWNER_UID, if invertUID matcher then XT_OWNER_UID else i0)
    else (m0, i0) in
  let '(m2, i2) :=
    if matchGID matcher
    then (Z.lor m1 XT_OWNER_GID,
          if invertGID matcher then Z.lor i1 XT_OWNER_GID else i1)
    else (m1, i1) in
  mkInfo (u32 (uid matcher)) (u32 (gid matcher)) m2 i2.

Section Namespace.
(** The id mappings of the task's user namespace. *)
Variables MapToKUID MapToKGID : Z -> Z.

(** The matcher [ownerMarshaler.unmarshal] makes of the IPTOwnerInfo it has
    read from the buffer. *)
Definition unmarshal_info (matchData : IPTOwnerInfo) : OwnerMatcher :=
  let mu := negb (Z.land (Match_ matchData) XT_OWNER_UID =? 0) in
  let iu := mu && negb (Z.land (Invert matchData) XT_OWNER_UID =? 0) in
  let mg := negb (Z.land (Match_ matchData) XT_OWNER_GID =? 0) in
  let ig := mg && negb (Z.land (Invert matchData) XT_OWNER_GID =? 0) in
  mkOwner (MapToKUID (UID matchData)) (MapToKGID (GID matchData)) mu mg iu ig.
End Namespace.

Inductive Hook := Prerouting | Input | Forward | Output | Postrouting.

Definition is_Output (h : Hook) : bool :=
  match h with Output => true | _ => false end.

(** [OwnerMatcher.Match]: does the packet match, and must it be dropped at
    once. [owner] is the KUID and KGID of [pkt.Owner], nil when not set. *)
Definition Match (om : OwnerMatcher) (hook : Hook) (owner : option (Z * Z))
  : bool * bool :=
  if negb (is_Output hook) then (false, true)
  else
    match owner with
    | None => (false, true)
    | Some (kuid, kgid) =>
        let matches := false in
        let '(matches, stop) :=
          if matchUID om then
            let matches := if kuid =? uid om then true else matches in
            (matches, Bool.eqb matches (invertUID om))
          else (matches, false) in
        if stop then (false, false)
        else
          let stop :=
            if matchGID om then
              let matches := false in
              let matches := if kgid =? gid om then true else matches in
              Bool.eqb matches (invertGID om)
            else false in
          if stop then (false, false) else (true, false)
    end.

End OwnerMatch.

Module OwnerMatchExtra.
Import GoInt OwnerMatch.

Lemma Match_eq om hook owner :
  Match om hook owner =
  if is_Output hook then
    match owner with
    | None => (false, true)
    | Some (kuid, kgid) =>
        (implb (matchUID om) (Bool.eqb (kuid =? uid om) (negb (invertUID om)))
         && implb (matchGID om) (Bool.eqb (kgid =? gid om) (negb (invertGID om))),
         false)
    end
  else (false, true).
Proof.
  unfold Match. destruct (is_Output hook); simpl; [|reflexivity].
  destruct owner as [[kuid kgid]|]; [|reflexivity].
  destruct (matchUID om), (matchGID om), (invertUID om), (invertGID om),
    (kuid =? uid om), (kgid =? gid om); reflexivity.
Qed.

(** X19. What an owner matcher matches: a packet matches exactly when it is
    on the OUTPUT hook, has an owner, and for each of UID and GID that the
    matcher looks at, the owner's id equals the matcher's if the test is not
    inverted and differs if it is. A packet on another hook or without an
    owner is dropped at once, and only such a packet is. *)
Theorem Match_spec (om : OwnerMatcher) (hook : Hook) (owner : option (Z * Z)) :
  (fst (Match om hook owner) = true <->
   hook = Output /\
   exists kuid kgid, owner = Some (kuid, kgid) /\
     (matchUID om = true -> (kuid =? uid om) = negb (invertUID om)) /\
     (matchGID om = true -> (kgid =? gid om) = negb (invertGID om))) /\
  (snd (Match om hook owner) = true <-> hook <> Output \/ owner = None) /\
  (snd (Match om hook owner) = true -> fst (Match om hook owner) = false).
Proof.
  rewrite Match_eq.
  assert (Hout : is_Output hook = true <-> hook = Output)
    by (destruct hook; simpl; split; intros; congruence).
  destruct (is_Output hook) eqn:Eo.
  - assert (Hh : hook = Output) by (apply Hout; reflexivity).
    destruct owner as [[kuid kgid]|]; simpl.
    + split; [|split; [|discriminate]].
      * rewrite andb_true_iff. split.
        -- intros [H1 H2]. split; [exact Hh|]. exists kuid, kgid.
           split; [reflexivity|]. split; intros Hm; rewrite Hm in *; simpl in *;
             apply Bool.eqb_prop; assumption.
        -- intros (_ & ku & kg & Ho & H1 & H2). injection Ho as <- <-.
           split.
           ++ destruct (matchUID om); [|reflexivity]. simpl.
              rewrite (H1 eq_refl). apply Bool.eqb_reflx.
           ++ destruct (matchGID om); [|reflexivity]. simpl.
              rewrite (H2 eq_refl). apply Bool.eqb_reflx.
      * split; [discriminate|]. intros [H|H]; [contradiction | discriminate H].
    + split; [|split; [|reflexivity]].
      * split; [discriminate|]. intros (_ & ? & ? & H & _). discriminate H.
      * split; auto.
  - assert (Hh : hook <> Output) by (intros H; apply Hout in H; discriminate H).
    simpl. split; [|split; [|reflexivity]].
    + split; [discriminate|]. intros [H _]. contradiction.
    + split; auto.
Qed.

(** X20. What marshal writes, unmarshal reads back as a matcher that matches
    the same packets: for ids that fit 32 bits and that the namespace maps to
    themselves, the matcher rebuilt from marshal's IPTOwnerInfo gives the same
    answer as the original on every hook and owner. It is the original itself
    unless that had an invert flag without its match flag, which marshal does
    not write. *)
Theorem marshal_unmarshal_Match (MapToKUID MapToKGID : Z -> Z) (om : OwnerMatcher) :
  MapToKUID (u32 (uid om)) = uid om -> MapToKGID (u32 (gid om)) = gid om ->
  (forall hook owner,
     Match (unmarshal_info MapToKUID MapToKGID (marshal_info om)) hook owner
     = Match om hook owner) /\
  unmarshal_info MapToKUID MapToKGID (marshal_info om)
  = mkOwner (uid om) (gid om) (matchUID om) (matchGID om)
      (matchUID om && invertUID om) (matchGID om && invertGID om) /\
  0 <= Match_ (marshal_info om) <= 3 /\ 0 <= Invert (marshal_info om) <= 3 /\
  Z.land (Invert (marshal_info om)) (Z.lnot (Match_ (marshal_info om))) = 0.
Proof.
  intros Hu Hg.
  assert (Heq : unmarshal_info MapToKUID MapToKGID (marshal_info om)
                = mkOwner (uid om) (gid om) (matchUID om) (matchGID om)
                    (matchUID om && invertUID om) (matchGID om && invertGID om)).
  { unfold unmarshal_info, marshal_info.
    destruct om as [u g mu mg iu ig]; simpl in *.
    destruct mu, mg, iu, ig; simpl; rewrite Hu, Hg; reflexivity. }
  split; [|split; [exact Heq|]].
  - intros hook owner. rewrite Heq, !Match_eq. simpl.
    destruct (is_Output hook); [|reflexivity].
    destruct owner as [[ku kg]|]; [|reflexivity].
    destruct (matchUID om), (matchGID om), (invertUID om), (invertGID om);
      reflexivity.
  - unfold marshal_info.
    destruct (matchUID om), (matchGID om), (invertUID om), (invertGID om);
      vm_compute; repeat split; try reflexivity; intros H; discriminate H.
Qed.

Lemma marshal_unmarshal_Match_witness :
  Match (unmarshal_info (fun x => x) (fun x => x)
           (marshal_info (mkOwner 1000 100 true false true true)))
        Output (Some (1000, 100))
  = (false, false).
Proof.
  destruct (marshal_unmarshal_Match (fun x => x) (fun x => x)
              (mkOwner 1000 100 true false true true)) as (H & _);
    [reflexivity | reflexivity |].
  rewrite H. reflexivity.
Defined.

End OwnerMatchExtra.

(** ** runsc/sandbox/sandbox.go: the control socket, DestroyContainer, stdio *)

Module SandboxMore.
Import GoInt Sandbox.

(** *** createControlSocket *)

(** The name of the socket in the abstract namespace: a NUL byte and then
    "runsc-sandbox." and the id. *)
Definition abstract_name (id : string) : string :=
  String Ascii.zero ("runsc-sandbox." +:+ id).

Section ControlSocket.
(** path/filepath's Join, and what server.CreateSocket answers for each path:
    the descriptor, or [None] for an error. *)
Variable Join : string -> string -> string.
Variable CreateSocket : string -> option Z.

Definition socket_paths (rootDir id : string) : list string :=
  let name := "runsc-" +:+ id +:+ ".sock" in
  map (fun dir => Join dir name) [rootDir; "/var/run"; "/run"; "/tmp"]
    ++ [abstract_name id].

Fixpoint first_socket (paths : list string) : option (string * Z) :=
  match paths with
  | [] => None
  | path :: rest =>
      match CreateSocket path with
      | Some fd => Some (path, fd)
      | None => first_socket rest
      end
  end.

(** The path, the descriptor and whether the error is nil. *)
Definition createControlSocket (rootDir id : string) : string * Z * bool :=
  match first_socket (socket_paths rootDir id) with
  | Some (path, fd) => (path, fd, true)
  | None => ("", -1, false)
  end.
End ControlSocket.

(** *** destroyContainer and DestroyContainer *)

Inductive cerror :=
| ErrSandbox (e : error)              (* from destroy *)
| ErrDestroying (e : string).         (* "destroying container %q: %w" *)

Inductive coutcome :=
| CReturns (err : option cerror) (s : Sandbox) (h : Host) (t : list syscall)
| CBlocks (t : list syscall).

Definition IsRootContainer (s : Sandbox) (cid : string) : bool :=
  String.eqb (ID s) cid.

(** [rpc] is what the ContMgrDestroySubcontainer call answers. *)
Definition destroyContainer (polls : nat) (rpc : option string)
           (s : Sandbox) (cid : string) (h : Host) : coutcome :=
  if IsRootContainer s cid then
    match destroy polls s h with
    | Returns err s' h' t => CReturns (option_map ErrSandbox err) s' h' t
    | Blocks t => CBlocks t
    end
  else
    match rpc with
    | Some e => CReturns (Some (ErrDestroying e)) s h []
    | None => CReturns None s h []
    end.

Definition DestroyContainer (polls : nat) (rpc : option string)
           (s : Sandbox) (cid : string) (h : Host) : coutcome :=
  match destroyContainer polls rpc s cid h with
  | CReturns (Some err) s' h' t =>
      if IsRunning s' h' then CReturns (Some err) s' h' (t ++ IsRunning_trace s')
      else CReturns None s' h' (t ++ IsRunning_trace s')
  | o => o
  end.

(** *** configureStdios *)

(** What Chown can answer: the three errors the loop looks for, or any
    other error. *)
Inductive chown_errno :=
| ChownEINVAL | ChownEPERM | ChownEROFS | ChownOther (msg : string).

Definition tolerated (e : chown_errno) : bool :=
  match e with
  | ChownEINVAL | ChownEPERM | ChownEROFS => true
  | ChownOther _ => false
  end.

(** The loop over the files; each file comes with what Chown answers. The
    files Chown was called on, by position, and the error returned. *)
Fixpoint chown_all (i : nat) (stdios : list (option chown_errno))
  : list nat * option chown_errno :=
  match stdios with
  | [] => ([], None)
  | r :: rest =>
      match r with
      | Some e =>
          if tolerated e then let '(c, err) := chown_all (S i) rest in (i :: c, err)
          else ([i], Some e)
      | None => let '(c, err) := chown_all (S i) rest in (i :: c, err)
      end
  end.

Inductive stdio_outcome :=
| StdioReturns (chowned : list nat) (err : option chown_errno)
| StdioPanic.     (* "sandbox UID/GID is not set: %d/%d" *)

Definition configureStdios (Rootless TestOnlyAllowRunAsCurrentUserWithoutChroot : bool)
           (UID GID : Z) (stdios : list (option chown_errno)) : stdio_outcome :=
  if Rootless || TestOnlyAllowRunAsCurrentUserWithoutChroot then StdioReturns [] None
  else if (UID <? 0) || (GID <? 0) then StdioPanic
  else let '(c, err) := chown_all 0 stdios in StdioReturns c err.

End SandboxMore.

Module SandboxExtra.
Import GoInt Sandbox SandboxSpec SandboxMore.

Lemma first_socket_spec CreateSocket paths :
  match first_socket CreateSocket paths with
  | Some (path, fd) =>
      exists before after, paths = before ++ path :: after /\
        CreateSocket path = Some fd /\
        Forall (fun p => CreateSocket p = None) before
  | None => Forall (fun p => CreateSocket p = None) paths
  end.
Proof.
  induction paths as [|p rest IH]; simpl; [constructor|].
  destruct (CreateSocket p) as [fd|] eqn:E.
  - exists [], rest. simpl. auto.
  - destruct (first_socket CreateSocket rest) as [[path fd]|].
    + destruct IH as (before & after & -> & Hc & Hb).
      exists (p :: before), after. simpl. auto.
    + constructor; assumption.
Qed.

(** X21. createControlSocket tries the root directory, /var/run, /run and
    /tmp in this order and then the abstract name, and returns the first path
    on which CreateSocket succeeds: every path before the one returned was
    tried and failed. It fails, with path "" and descriptor -1, exactly when
    all five fail. The abstract name is not a path for destroy: a sandbox
    whose control address it is has no socket file to unlink. *)
Theorem createControlSocket_first (Join : string -> string -> string)
        (CreateSocket : string -> option Z) (rootDir id : string) :
  length (socket_paths Join rootDir id) = 5%nat /\
  last (socket_paths Join rootDir id) = Some (abstract_name id) /\
  (forall path fd, createControlSocket Join CreateSocket rootDir id = (path, fd, true) ->
     exists before after,
       socket_paths Join rootDir id = before ++ path :: after /\
       CreateSocket path = Some fd /\
       Forall (fun p => CreateSocket p = None) before) /\
  (snd (createControlSocket Join CreateSocket rootDir id) = false <->
   Forall (fun p => CreateSocket p = None) (socket_paths Join rootDir id)) /\
  (snd (createControlSocket Join CreateSocket rootDir id) = false ->
   createControlSocket Join CreateSocket rootDir id = ("", -1, false)) /\
  is_path (abstract_name id) = false.
Proof.
  split; [reflexivity|]. split; [reflexivity|].
  unfold createControlSocket.
  pose proof (first_socket_spec CreateSocket (socket_paths Join rootDir id)) as H.
  destruct (first_socket CreateSocket (socket_paths Join rootDir id)) as [[p f]|].
  - split; [intros path fd E; injection E as <- <-; exact H|].
    split; [|split; [intros E; discriminate E | reflexivity]].
    split; [intros E; discriminate E|].
    intros HF. destruct H as (before & after & Hp & Hc & _).
    rewrite Forall_forall in HF.
    assert (Hin : p ∈ socket_paths Join rootDir id).
    { rewrite Hp. apply elem_of_app. right. apply elem_of_cons. left. reflexivity. }
    rewrite (HF p Hin) in Hc. discriminate.
  - split; [intros path fd E; discriminate E|].
    split; [split; auto|]. split; reflexivity.
Qed.

(** No step of the retry loop and no wait touches a file. *)
Lemma retry_IsRunning_files polls s :
  forall h t, files (fst (fst (retry_IsRunning polls s h t))) = files h.
Proof.
  induction polls as [|n IH]; intros h t; simpl;
    destruct (IsRunning s h); simpl; try reflexivity.
  rewrite IH. reflexivity.
Qed.

Lemma waitForStopped_files polls s h t err s' h' t' :
  waitForStopped polls s h t = Returns err s' h' t' -> files h' = files h.
Proof.
  unfold waitForStopped. destruct (child s).
  - destruct (Pid s =? 0); [intros H; injection H as _ _ <- _; reflexivity|].
    unfold unix_Wait4. destruct (procs h !! Pid s) as [p|];
      [|intros H; injection H as _ _ <- _; reflexivity].
    destruct (is_child p); simpl; [|intros H; injection H as _ _ <- _; reflexivity].
    destruct (state p); try discriminate; intros H; injection H as _ _ <- _; simpl;
      rewrite ?files_iter_tick, ?files_tick; reflexivity.
  - pose proof (retry_IsRunning_files polls s h t) as Hf.
    destruct (retry_IsRunning polls s h t) as [[h1 t1] e1]. simpl in Hf.
    intros H. injection H as _ _ <- _. exact Hf.
Qed.

(** X22. destroy touches no file but the control socket: whenever it
    returns, with or without an error, every other path names a file
    afterwards exactly if it did before, and the control socket file is still
    there exactly if it was there before and either the address is empty or
    abstract, so that no unlink was tried, or the host refused the unlink.
    What the host refuses to unlink is not changed. *)
Theorem destroy_files (polls : nat) (s s' : Sandbox) (h h' : Host)
        (err : option error) (t : list syscall) :
  destroy polls s h = Returns err s' h' t ->
  (forall p, p <> ControlAddress s -> p ∈ files h' <-> p ∈ files h) /\
  (ControlAddress s ∈ files h' <->
   ControlAddress s ∈ files h /\
   (is_path (ControlAddress s) = false \/
    is_Some (unlink_fails h !! ControlAddress s))) /\
  (is_path (ControlAddress s) = false -> files h' = files h) /\
  unlink_fails h' = unlink_fails h.
Proof.
  intros Hd.
  set (h1 := if is_path (ControlAddress s)
             then fst (os_Remove h (ControlAddress s)) else h).
  assert (Hmain : files h' = files h1 /\ unlink_fails h' = unlink_fails h1).
  { revert Hd. unfold destroy.
    set (t1 := if is_path (ControlAddress s)
               then [SysUnlink (ControlAddress s)] else []).
    replace (if is_path (ControlAddress s)
             then (fst (os_Remove h (ControlAddress s)), [SysUnlink (ControlAddress s)])
             else (h, [])) with (h1, t1)
      by (unfold h1, t1; destruct (is_path (ControlAddress s)); reflexivity).
    cbv beta iota.
    destruct (negb (Pid s =? 0)).
    - pose proof (files_Kill h1 (Pid s) SIGKILL) as Hk.
      pose proof (fails_Kill h1 (Pid s) SIGKILL) as Hu.
      destruct (unix_Kill h1 (Pid s) SIGKILL) as [h2 kerr]. simpl in Hk, Hu.
      assert (Hw : forall err0 s0 h0 t0,
                 waitForStopped polls s h2 (t1 ++ [SysKill (Pid s) SIGKILL])
                   = Returns err0 s0 h0 t0 ->
                 files h0 = files h1 /\ unlink_fails h0 = unlink_fails h1).
      { intros err0 s0 h0 t0 E.
        rewrite (waitForStopped_files _ _ _ _ _ _ _ _ E),
                (waitForStopped_fails _ _ _ _ _ _ _ _ E). auto. }
      destruct kerr as [e|].
      + destruct (negb (is_ESRCH e)).
        * intros H. injection H as _ _ <- _. auto.
        * destruct (waitForStopped polls s h2 _) as [[e'|] s3 h3 t3|t3] eqn:Ew;
            intros H; try discriminate H; injection H as _ _ <- _;
            exact (Hw _ _ _ _ eq_refl).
      + destruct (waitForStopped polls s h2 _) as [[e'|] s3 h3 t3|t3] eqn:Ew;
          intros H; try discriminate H; injection H as _ _ <- _;
          exact (Hw _ _ _ _ eq_refl).
    - intros H. injection H as _ _ <- _. auto. }
  destruct Hmain as [Hf Hu]. rewrite Hf, Hu. unfold h1.
  destruct (is_path (ControlAddress s)) eqn:Ep.
  - split_and!.
    + intros p Hne. rewrite Remove_elem. tauto.
    + rewrite Remove_elem. split.
      * intros [H1 [H2|H2]]; [contradiction|auto].
      * intros [H1 [H2|H2]]; [discriminate H2|auto].
    + discriminate.
    + apply fails_Remove.
  - split_and!; auto. tauto.
Qed.

Lemma destroy_files_witness :
  exists t, destroy 50 sb host0 = Returns None sb host1 t /\
            "/run/sb.sock" ∉ files host1.
Proof.
  destruct destroy_sb as [t Ht]. exists t. split; [exact Ht|].
  destruct (destroy_files 50 sb sb host0 host1 None t Ht) as (_ & H & _).
  intros Hin. apply H in Hin as [_ [Hp|[e He]]]; discriminate.
Defined.

(** After destroy has returned nil the sandbox is not running. *)
Lemma destroy_ok_not_running polls s h s' h' t :
  destroy polls s h = Returns None s' h' t -> IsRunning s' h' = false.
Proof.
  unfold destroy.
  set (h1 := if is_path (ControlAddress s)
             then fst (os_Remove h (ControlAddress s)) else h).
  set (t1 := if is_path (ControlAddress s)
             then [SysUnlink (ControlAddress s)] else []).
  replace (if is_path (ControlAddress s)
           then (fst (os_Remove h (ControlAddress s)), [SysUnlink (ControlAddress s)])
           else (h, [])) with (h1, t1)
    by (unfold h1, t1; destruct (is_path (ControlAddress s)); reflexivity).
  cbv beta iota.
  destruct (Z.eqb_spec (Pid s) 0) as [Hz|Hnz]; cbv beta iota delta [negb].
  - intros H. injection H as <- <- <-. unfold IsRunning. rewrite Hz. reflexivity.
  - destruct (unix_Kill h1 (Pid s) SIGKILL) as [h2 kerr] eqn:Ek.
    assert (Hw : (kerr = None \/ kerr = Some ESRCH) ->
                 waitForStopped polls s h2 (t1 ++ [SysKill (Pid s) SIGKILL])
                   = Returns None s' h' t -> IsRunning s' h' = false).
    { intros Hk Hwait.
      assert (Hsig : signalable h2 (Pid s)).
      { pose proof (Kill_signalable h1 (Pid s) kerr) as Hs.
        rewrite Ek in Hs. apply Hs; [reflexivity|exact Hk]. }
      destruct (waitForStopped_ok _ _ _ _ _ _ _ Hnz Hsig Hwait)
        as (Habs & _ & Hpid & _ & _ & _).
      destruct (child s).
      - unfold IsRunning. rewrite Hpid. reflexivity.
      - apply IsRunning_absent. rewrite Hpid. exact Habs. }
    destruct kerr as [e|].
    + destruct e; simpl; try discriminate.
      destruct (waitForStopped polls s h2 _) as [[e'|] s3 h3 t3|t3] eqn:Ew;
        try discriminate.
      intros H. injection H as <- <- <-. apply Hw; auto.
    + destruct (waitForStopped polls s h2 _) as [[e'|] s3 h3 t3|t3] eqn:Ew;
        try discriminate.
      intros H. injection H as <- <- <-. apply Hw; auto.
Qed.

(** X23. DestroyContainer reports a failure only while the sandbox is still
    running: whenever it returns an error, that is the error of
    destroyContainer and the sandbox process still answers signal 0; for the
    root container a nil return means the sandbox is not running; for any
    other container it returns nil exactly when the RPC succeeded or the
    sandbox is not running. *)
Theorem DestroyContainer_spec (polls : nat) (rpc : option string)
        (s : Sandbox) (cid : string) (h : Host) :
  (forall e s' h' t, DestroyContainer polls rpc s cid h = CReturns (Some e) s' h' t ->
     IsRunning s' h' = true /\
     exists t0, destroyContainer polls rpc s cid h = CReturns (Some e) s' h' t0) /\
  (forall s' h' t, IsRootContainer s cid = true ->
     DestroyContainer polls rpc s cid h = CReturns None s' h' t ->
     IsRunning s' h' = false) /\
  (IsRootContainer s cid = false ->
   exists err t, DestroyContainer polls rpc s cid h = CReturns err s h t /\
     (err = None <-> rpc = None \/ IsRunning s h = false)).
Proof.
  unfold DestroyContainer.
  split; [|split].
  - intros e s' h' t.
    destruct (destroyContainer polls rpc s cid h) as [[e0|] s0 h0 t0|t0];
      try discriminate.
    destruct (IsRunning s0 h0) eqn:Er; [|discriminate].
    intros H. injection H as <- <- <- <-. split; [exact Er|]. eauto.
  - intros s' h' t Hroot. unfold destroyContainer. rewrite Hroot.
    destruct (destroy polls s h) as [[e0|] s0 h0 t0|t0] eqn:Ed; simpl;
      try discriminate.
    + destruct (IsRunning s0 h0) eqn:Er; [discriminate|].
      intros H. injection H as <- <- _. exact Er.
    + intros H. injection H as <- <- _.
      exact (destroy_ok_not_running _ _ _ _ _ _ Ed).
  - intros Hroot. unfold destroyContainer. rewrite Hroot.
    destruct rpc as [e|].
    + destruct (IsRunning s h) eqn:Er; eexists; eexists; (split; [reflexivity|]);
        split; intros H; try discriminate H; try reflexivity; auto.
      destruct H as [H|H]; discriminate H.
    + eexists; eexists; split; [reflexivity|]. split; auto.
Qed.

(** X24. destroy fails fast when it may not signal the sandbox: if the boot
    process exists and SIGKILL is refused with EPERM, destroy returns the
    error at once, without waiting or polling, and the process is left as it
    was. The unlink of the control socket file was tried all the same, before
    the kill: that file is gone unless the host refused the unlink. *)
Theorem destroy_kill_refused (polls : nat) (s : Sandbox) (h : Host) (p : proc) :
  Pid s <> 0 -> procs h !! Pid s = Some p -> may_signal p = false ->
  exists h',
    destroy polls s h
    = Returns (Some (ErrKilling EPERM)) s h'
        ((if is_path (ControlAddress s) then [SysUnlink (ControlAddress s)] else [])
           ++ [SysKill (Pid s) SIGKILL]) /\
    procs h' = procs h /\
    (is_path (ControlAddress s) = true ->
     (ControlAddress s ∈ files h' <->
      ControlAddress s ∈ files h /\
      is_Some (unlink_fails h !! ControlAddress s))).
Proof.
  intros Hpid Hp Hm. unfold destroy.
  set (h1 := if is_path (ControlAddress s)
             then fst (os_Remove h (ControlAddress s)) else h).
  set (t1 := if is_path (ControlAddress s)
             then [SysUnlink (ControlAddress s)] else []).
  replace (if is_path (ControlAddress s)
           then (fst (os_Remove h (ControlAddress s)), [SysUnlink (ControlAddress s)])
           else (h, [])) with (h1, t1)
    by (unfold h1, t1; destruct (is_path (ControlAddress s)); reflexivity).
  cbv beta iota.
  assert (Hp1 : procs h1 = procs h).
  { unfold h1. destruct (is_path (ControlAddress s)); [apply procs_Remove|reflexivity]. }
  destruct (Z.eqb_spec (Pid s) 0) as [|_]; [contradiction|].
  cbv beta iota delta [negb].
  unfold unix_Kill. rewrite Hp1, Hp, Hm. simpl.
  exists h1. split; [reflexivity|]. split; [exact Hp1|].
  intros Hpath. unfold h1. rewrite Hpath, Remove_elem. split.
  - intros [H1 [H2|H2]]; [contradiction|auto].
  - intros [H1 H2]. auto.
Qed.

Lemma destroy_kill_refused_witness :
  exists h', destroy 50 sb (mkHost {["/run/sb.sock"]}
                              {[42 := mkProc false false (Running 3)]} ∅)
             = Returns (Some (ErrKilling EPERM)) sb h'
                 [SysUnlink "/run/sb.sock"; SysKill 42 SIGKILL] /\
             procs h' = {[42 := mkProc false false (Running 3)]}.
Proof.
  destruct (destroy_kill_refused 50 sb
              (mkHost {["/run/sb.sock"]} {[42 := mkProc false false (Running 3)]} ∅)
              (mkProc false false (Running 3))) as (h' & E & Hp & _).
  - discriminate.
  - apply lookup_singleton_eq.
  - reflexivity.
  - exists h'. split; [exact E | exact Hp].
Defined.

Definition harmless (r : option chown_errno) : bool :=
  match r with None => true | Some e => tolerated e end.

Lemma chown_all_spec stdios :
  forall i,
    match chown_all i stdios with
    | (c, None) => c = seq i (length stdios) /\ forallb harmless stdios = true
    | (c, Some e) =>
        tolerated e = false /\
        exists k, stdios !! k = Some (Some e) /\ c = seq i (S k) /\
                  forallb harmless (take k stdios) = true
    end.
Proof.
  induction stdios as [|r rest IH]; intros i; simpl; [auto|].
  specialize (IH (S i)).
  destruct r as [e|].
  - destruct (tolerated e) eqn:Et.
    + destruct (chown_all (S i) rest) as [c [e'|]].
      * destruct IH as (Ht & k & Hk & Hc & Hall). split; [exact Ht|].
        exists (S k). simpl. rewrite Et, Hall. subst c. auto.
      * destruct IH as [-> Hall]. simpl. rewrite Et, Hall. auto.
    + split; [exact Et|]. exists 0%nat. simpl. auto.
  - destruct (chown_all (S i) rest) as [c [e'|]].
    + destruct IH as (Ht & k & Hk & Hc & Hall). split; [exact Ht|].
      exists (S k). simpl. rewrite Hall. subst c. auto.
    + destruct IH as [-> Hall]. simpl. rewrite Hall. auto.
Qed.

(** X25. configureStdios changes no ownership for a rootless run or under
    the test-only flag; otherwise it panics when the sandbox UID or GID is
    negative; otherwise it calls Chown on the files in order, carries on after
    EINVAL, EPERM and EROFS, and stops at the first other error, which it
    returns: then Chown was called on that file and all before it and on none
    after, and when it returns nil Chown was called on every file and failed
    only in those three ways. *)
Theorem configureStdios_spec (Rootless TestOnly : bool) (UID GID : Z)
        (stdios : list (option chown_errno)) :
  (Rootless || TestOnly = true ->
   configureStdios Rootless TestOnly UID GID stdios = StdioReturns [] None) /\
  (Rootless || TestOnly = false ->
   (UID < 0 \/ GID < 0 ->
    configureStdios Rootless TestOnly UID GID stdios = StdioPanic) /\
   (0 <= UID -> 0 <= GID ->
    exists c err,
      configureStdios Rootless TestOnly UID GID stdios = StdioReturns c err /\
      (err = None ->
       c = seq 0 (length stdios) /\ forallb harmless stdios = true) /\
      (forall e, err = Some e ->
         tolerated e = false /\
         exists k, stdios !! k = Some (Some e) /\ c = seq 0 (S k) /\
                   forallb harmless (take k stdios) = true))).
Proof.
  unfold configureStdios.
  split; [intros ->; reflexivity|].
  intros ->. split.
  - intros H. destruct (Z.ltb_spec UID 0); destruct (Z.ltb_spec GID 0);
      try reflexivity; lia.
  - intros Hu Hg. destruct (Z.ltb_spec UID 0); [lia|].
    destruct (Z.ltb_spec GID 0); [lia|]. simpl.
    pose proof (chown_all_spec stdios 0%nat) as Hall.
    destruct (chown_all 0 stdios) as [c [e|]].
    + exists c, (Some e). split; [reflexivity|].
      split; [discriminate|]. intros e' He. injection He as <-. exact Hall.
    + exists c, None. split; [reflexivity|].
      split; [intros _; exact Hall | discriminate].
Qed.

End SandboxExtra.

(* ===================================================================== *)
(** ** runsc/config/flags.go: flag overrides from OCI annotations *)
(* ===================================================================== *)

Module ConfigFlags.

Inductive error :=
| ErrParseBool                      (* what strconv.ParseBool returns *)
| ErrDisabling (name : string)      (* "disabling %q requires flag ..." *)
| ErrOverrideDisabled.              (* "flag override disabled, ..." *)

Section Override.
(** strconv.ParseBool: the boolean, or [None] for an error. *)
Variable ParseBool : string -> option bool.

Definition checkOciSeccomp (name value : string) : option error :=
  match ParseBool value with
  | None => Some ErrParseBool
  | Some enable =>
      if negb enable then Some (ErrDisabling name) else None
  end.

(** The value of an entry is its check function, nil for most flags. *)
Definition overrideAllowlist : gmap string (option (string -> string -> option error)) :=
  list_to_map
    [ ("debug", None);
      ("strace", None);
      ("strace-syscalls", None);
      ("strace-log-size", None);
      ("host-uds", None);
      ("oci-seccomp", Some checkOciSeccomp) ].

Definition isOverrideAllowed (AllowFlagOverride : bool) (name value : string)
  : option error :=
  if AllowFlagOverride then None
  else
    match overrideAllowlist !! name with
    | Some allow =>
        match allow with
        | Some check =>
            match check name value with
            | Some err => Some err
            | None => None
            end
        | None => None
        end
    | None => Some ErrOverrideDisabled
    end.
End Override.

End ConfigFlags.

Module ConfigFlagsExtra.
Import ConfigFlags.

Lemma allowlist_cases (ParseBool : string -> option bool) (name : string) :
  ((name ∈ ["debug"; "strace"; "strace-syscalls"; "strace-log-size"; "host-uds"])
   /\ overrideAllowlist ParseBool !! name = Some None) \/
  (name = "oci-seccomp"
   /\ overrideAllowlist ParseBool !! name = Some (Some (checkOciSeccomp ParseBool))) \/
  ((name ∉ ["debug"; "strace"; "strace-syscalls"; "strace-log-size"; "host-uds";
            "oci-seccomp"])
   /\ overrideAllowlist ParseBool !! name = None).
Proof.
  unfold overrideAllowlist. cbn [list_to_map foldr fst snd uncurry].
  destruct (decide (name = "debug")) as [->|H1].
  { left. split; [repeat constructor|]. apply lookup_insert_eq. }
  rewrite lookup_insert_ne by congruence.
  destruct (decide (name = "strace")) as [->|H2].
  { left. split; [repeat constructor|]. apply lookup_insert_eq. }
  rewrite lookup_insert_ne by congruence.
  destruct (decide (name = "strace-syscalls")) as [->|H3].
  { left. split; [repeat constructor|]. apply lookup_insert_eq. }
  rewrite lookup_insert_ne by congruence.
  destruct (decide (name = "strace-log-size")) as [->|H4].
  { left. split; [repeat constructor|]. apply lookup_insert_eq. }
  rewrite lookup_insert_ne by congruence.
  destruct (decide (name = "host-uds")) as [->|H5].
  { left. split; [repeat constructor|]. apply lookup_insert_eq. }
  rewrite lookup_insert_ne by congruence.
  destruct (decide (name = "oci-seccomp")) as [->|H6].
  { right. left. split; [reflexivity|]. apply lookup_insert_eq. }
  rewrite lookup_insert_ne by congruence.
  right. right. split; [|apply lookup_empty].
  rewrite !elem_of_cons, elem_of_nil. intuition congruence.
Qed.

(** X26. Without --allow-flag-override an annotation may set exactly the
    flags debug, strace, strace-syscalls, strace-log-size and host-uds, to any
    value, and oci-seccomp to a value that parses as true: seccomp can be
    turned on but not off. Every other flag is refused, and with the override
    flag everything is allowed. *)
Theorem isOverrideAllowed_spec (ParseBool : string -> option bool)
        (name value : string) :
  isOverrideAllowed ParseBool true name value = None /\
  (isOverrideAllowed ParseBool false name value = None <->
   (name ∈ ["debug"; "strace"; "strace-syscalls"; "strace-log-size"; "host-uds"])
   \/ (name = "oci-seccomp" /\ ParseBool value = Some true)) /\
  (isOverrideAllowed ParseBool false name value = Some ErrOverrideDisabled <->
   name ∉ ["debug"; "strace"; "strace-syscalls"; "strace-log-size"; "host-uds";
           "oci-seccomp"]).
Proof.
  split; [reflexivity|].
  unfold isOverrideAllowed.
  destruct (allowlist_cases ParseBool name) as [[Hin ->]|[[-> ->]|[Hnin ->]]].
  - split.
    + split; auto.
    + split; [discriminate|]. intros Hn. exfalso. apply Hn.
      rewrite !elem_of_cons in *. tauto.
  - unfold checkOciSeccomp. split.
    + split.
      * destruct (ParseBool value) as [[|]|]; simpl; try discriminate. auto.
      * intros [Hin|[_ ->]]; [|reflexivity].
        rewrite !elem_of_cons, elem_of_nil in Hin.
        exfalso. intuition discriminate.
    + split.
      * destruct (ParseBool value) as [[|]|]; simpl; discriminate.
      * intros Hn. exfalso. apply Hn. rewrite !elem_of_cons. tauto.
  - split.
    + split; [discriminate|].
      intros [Hin|[-> _]]; exfalso; apply Hnin; rewrite !elem_of_cons in *; tauto.
    + split; auto.
Qed.

End ConfigFlagsExtra.

(* ===================================================================== *)
(** ** runsc/boot/loader.go: the trackers of unimplemented syscalls *)
(* ===================================================================== *)

Module Compat.

Section Trackers.
Variable Registers : Type.
(** argVal and reportLimit are declared in other files of the package: the
    value of a syscall argument in the registers, and the constant bound. *)
Variable argVal : Z -> Registers -> Z.
Variable reportLimit : Z.

(** The interface syscallTracker. *)
Class syscallTracker (T : Type) := {
  shouldReport : T -> Registers -> bool;
  onReported : T -> Registers -> T
}.

Record onceTracker := mkOnce { once_reported : bool }.

#[global] Instance onceTracker_syscallTracker : syscallTracker onceTracker := {|
  shouldReport o _ := negb (once_reported o);
  onReported o _ := mkOnce true
|}.

Record argsTracker := mkArgs {
  argsIdx : list Z;
  reported : gset string;
  count : Z
}.

Definition newArgsTracker (argIdx : list Z) : argsTracker := mkArgs argIdx ∅ 0.

(** rv += fmt.Sprintf("%d|", argVal(idx, regs)) for each index. *)
Definition key (a : argsTracker) (regs : Registers) : string :=
  fold_left (fun rv idx => rv +:+ pretty (argVal idx regs) +:+ "|") (argsIdx a) "".

(** count is a Go int; it is incremented only below reportLimit, an int
    constant, so the increment does not wrap around. *)
#[global] Instance argsTracker_syscallTracker : syscallTracker argsTracker := {|
  shouldReport a regs :=
    if reportLimit <=? count a then false
    else negb (bool_decide (key a regs ∈ reported a));
  onReported a regs :=
    mkArgs (argsIdx a) ({[key a regs]} ∪ reported a) (count a + 1)
|}.

(** What emitUnimplementedSyscall does with the tracker of the syscall: the
    tracker afterwards and whether the message was logged. *)
Definition emit {T} `{syscallTracker T} (tr : T) (regs : Registers) : T * bool :=
  if shouldReport tr regs then (onReported tr regs, true) else (tr, false).

(** A sequence of events of one syscall number: the tracker at the end and
    the events that were logged. *)
Fixpoint emit_all {T} `{syscallTracker T} (tr : T) (rs : list Registers)
  : T * list Registers :=
  match rs with
  | [] => (tr, [])
  | regs :: rest =>
      let '(tr1, logged) := emit tr regs in
      let '(tr2, out) := emit_all tr1 rest in
      (tr2, if logged then regs :: out else out)
  end.
End Trackers.

Arguments key {_} _ _ _.
Arguments emit {_ _ _} _ _.
Arguments emit_all {_ _ _} _ _.

End Compat.

Module CompatExtra.
Import Compat.

Section Trackers.
Context {Registers : Type}.
Variable argVal : Z -> Registers -> Z.
Variable reportLimit : Z.

#[local] Existing Instance argsTracker_syscallTracker.

Lemma key_idx (a b : argsTracker) regs :
  argsIdx a = argsIdx b -> key argVal a regs = key argVal b regs.
Proof. unfold Compat.key. intros ->. reflexivity. Qed.

Lemma emit_all_args (rs : list Registers) :
  forall a : argsTracker,
    let '(a', out) := emit_all (H := argsTracker_syscallTracker Registers argVal reportLimit) a rs in
    argsIdx a' = argsIdx a /\
    count a' = count a + Z.of_nat (length out) /\
    (reportLimit <= count a -> out = []) /\
    (count a <= reportLimit -> count a' <= reportLimit) /\
    reported a' = list_to_set (map (key argVal a) out) ∪ reported a /\
    NoDup (map (key argVal a) out) /\
    (forall regs, regs ∈ out -> key argVal a regs ∉ reported a) /\
    sublist out rs /\
    (count a' < reportLimit -> forall regs, regs ∈ rs -> key argVal a regs ∈ reported a').
Proof.
  induction rs as [|regs rest IH]; intros a; simpl.
  - split_and!; auto; try lia.
    + simpl. rewrite (left_id_L ∅ (∪)). reflexivity.
    + constructor.
    + intros regs H. inversion H.
    + intros _ regs H. inversion H.
  - unfold emit at 1. simpl.
    destruct (Z.leb_spec reportLimit (count a)) as [Hfull|Hroom].
    + specialize (IH a).
      destruct (emit_all (H := argsTracker_syscallTracker Registers argVal reportLimit) a rest) as [a' out].
      destruct IH as (Hi & Hc & He & Hl & Hr & Hn & Hd & Hs & Hall).
      specialize (He Hfull). subst out. simpl in *.
      split_and!; auto; try lia.
      apply sublist_nil_l.
    + destruct (bool_decide (key argVal a regs ∈ reported a)) eqn:Eseen; simpl.
      * apply bool_decide_eq_true in Eseen.
        specialize (IH a).
        destruct (emit_all (H := argsTracker_syscallTracker Registers argVal reportLimit) a rest) as [a' out].
        destruct IH as (Hi & Hc & He & Hl & Hr & Hn & Hd & Hs & Hall).
        split_and!; auto.
        -- apply sublist_cons. exact Hs.
        -- intros Hlt regs0 Hin. apply elem_of_cons in Hin as [->|Hin].
           ++ rewrite Hr. apply elem_of_union_r. exact Eseen.
           ++ apply Hall; assumption.
      * apply bool_decide_eq_false in Eseen.
        set (a1 := mkArgs (argsIdx a) ({[key argVal a regs]} ∪ reported a) (count a + 1)).
        specialize (IH a1).
        destruct (emit_all (H := argsTracker_syscallTracker Registers argVal reportLimit) a1 rest) as [a' out].
        destruct IH as (Hi & Hc & He & Hl & Hr & Hn & Hd & Hs & Hall).
        assert (Hk : forall r, key argVal a1 r = key argVal a r)
          by (intros r; apply key_idx; reflexivity).
        rewrite (map_ext _ _ Hk) in Hr, Hn.
        simpl in Hi, Hc, He, Hl, Hr.
        split_and!.
        -- exact Hi.
        -- rewrite Hc. simpl length. lia.
        -- intros. lia.
        -- intros _. apply Hl. lia.
        -- rewrite Hr. simpl. rewrite (assoc_L (∪)).
           f_equal. apply (comm_L (∪)).
        -- simpl. constructor; [|exact Hn].
           intros Hin. apply list_elem_of_In, in_map_iff in Hin as (r & Hr1 & Hr2).
           apply list_elem_of_In in Hr2.
           specialize (Hd r Hr2). rewrite Hk in Hd. simpl in Hd.
           apply Hd. rewrite Hr1. apply elem_of_union_l, elem_of_singleton.
           reflexivity.
        -- intros r Hin. apply elem_of_cons in Hin as [->|Hin]; [exact Eseen|].
           specialize (Hd r Hin). rewrite Hk in Hd. simpl in Hd.
           intros Hbad. apply Hd. apply elem_of_union_r. exact Hbad.
        -- apply sublist_skip. exact Hs.
        -- intros Hlt r Hin. apply elem_of_cons in Hin as [->|Hin].
           ++ rewrite Hr. apply elem_of_union_r, elem_of_union_l, elem_of_singleton.
              reflexivity.
           ++ rewrite <- Hk. apply Hall; assumption.
Qed.

(** X27. An argsTracker logs each combination of the tracked arguments at
    most once and never more than reportLimit events in all: of any sequence
    of events, those logged are a subsequence with pairwise different keys,
    their number is count and at most reportLimit (none when the limit is not
    positive), and as long as the limit has not been reached every event seen
    so far has had its key logged. *)
Theorem argsTracker_reports (argIdx : list Z) (rs : list Registers) :
  let a := newArgsTracker argIdx in
  let '(a', out) := emit_all (H := argsTracker_syscallTracker Registers argVal reportLimit) a rs in
  sublist out rs /\
  NoDup (map (key argVal a) out) /\
  count a' = Z.of_nat (length out) /\
  Z.of_nat (length out) <= Z.max 0 reportLimit /\
  (count a' < reportLimit ->
   forall regs, regs ∈ rs -> key argVal a regs ∈ map (key argVal a) out).
Proof.
  intros a.
  pose proof (emit_all_args rs a) as H.
  destruct (emit_all (H := argsTracker_syscallTracker Registers argVal reportLimit) a rs) as [a' out].
  destruct H as (Hi & Hc & He & Hl & Hr & Hn & Hd & Hs & Hall).
  simpl in Hc, He, Hl, Hr.
  split_and!; auto.
  - destruct (Z.le_gt_cases reportLimit 0) as [Hle|Hgt].
    + rewrite (He Hle). simpl. lia.
    + specialize (Hl ltac:(lia)). lia.
  - intros Hlt regs Hin. specialize (Hall Hlt regs Hin).
    rewrite Hr in Hall. apply elem_of_union in Hall as [Hall|Hall].
    + apply elem_of_list_to_set in Hall. exact Hall.
    + inversion Hall.
Qed.

(** X28. A onceTracker logs the first event and nothing after it, whatever
    the arguments: of any sequence of events on a fresh tracker exactly the
    first is logged, and a tracker that has logged once logs nothing more. *)
Theorem onceTracker_reports (rs rs' : list Registers) :
  let '(o, out) := emit_all (H := onceTracker_syscallTracker Registers) (mkOnce false) rs in
  out = take 1 rs /\
  (rs <> [] -> once_reported o = true /\
               snd (emit_all (H := onceTracker_syscallTracker Registers) o rs') = []).
Proof.
  assert (Hdone : forall l, emit_all (H := onceTracker_syscallTracker Registers) (mkOnce true) l = (mkOnce true, [])).
  { induction l as [|r l IH]; simpl; [reflexivity|].
    unfold emit. simpl. rewrite IH. reflexivity. }
  destruct rs as [|r rest]; simpl.
  - split; [reflexivity|]. intros H. contradiction.
  - unfold emit. simpl. rewrite Hdone. split; [reflexivity|].
    intros _. split; [reflexivity|]. rewrite Hdone. reflexivity.
Qed.
End Trackers.

End CompatExtra.

(* ===================================================================== *)
(** ** pkg/sentry/fsimpl/proc/tasks.go: the directory of tasks *)
(* ===================================================================== *)

Module ProcTasks.
Import GoInt.

Definition FIRST_PROCESS_ENTRY : Z := 256.
Definition selfName : string := "self".
Definition threadSelfName : string := "thread-self".
Definition STATX_NLINK : Z := 4.

Inductive dtype := DT_LNK | DT_DIR.

(** vfs.Dirent without Ino, which is a fresh number of the filesystem's
    counter for every entry. *)
Record Dirent := mkDirent { Name : string; Type_ : dtype; NextOff : Z }.

(** A thread group of the PID namespace: its id there (a ThreadID, int32)
    and whether it has a leader. *)
Record ThreadGroup := mkTG { IDOfThreadGroup : Z; Leader : bool }.

(** sort.Ints: ascending order. *)
Fixpoint insert_int (x : Z) (l : list Z) : list Z :=
  match l with
  | [] => [x]
  | y :: r => if x <=? y then x :: l else y :: insert_int x r
  end.

Definition sort_Ints (l : list Z) : list Z := foldr insert_int [] l.

(** The first loop: the ids at or above startTid of the groups that have a
    leader, in the order of ThreadGroups(). *)
Definition collect (startTid : Z) (tgs : list ThreadGroup) : list Z :=
  map IDOfThreadGroup
    (List.filter (fun tg => negb (IDOfThreadGroup tg <? startTid) && Leader tg) tgs).

Definition task_dirent (tid : Z) : Dirent :=
  mkDirent (pretty (u64 tid)) DT_DIR (FIRST_PROCESS_ENTRY + 2 + tid + 1).

Section Tasks.
(** kernel.TasksLimit is declared in package kernel. The callback is any
    function of the entries it has accepted in this call and the entry it is
    given; [true] stands for a nil error. *)
Variable TasksLimit : Z.
Variable Handle : list Dirent -> Dirent -> bool.

Definition maxTaskID : Z := TasksLimit + 1.

(** The entries the callback accepted, the offset returned and whether the
    error is nil. Offsets stay below maxTaskID, so that the increments do not
    wrap around. *)
Fixpoint iter_tids (hist : list Dirent) (offset : Z) (tids : list Z)
  : list Dirent * Z * bool :=
  match tids with
  | [] => (hist, maxTaskID, true)
  | tid :: rest =>
      let dirent := task_dirent tid in
      if Handle hist dirent then iter_tids (hist ++ [dirent]) (offset + 1) rest
      else (hist, offset, false)
  end.

Definition link_entry (name : string) (at_ : Z) (hist : list Dirent) (offset : Z)
  : option (list Dirent * Z) :=
  if offset =? at_ then
    let dirent := mkDirent name DT_LNK (offset + 1) in
    if Handle hist dirent then Some (hist ++ [dirent], offset + 1) else None
  else Some (hist, offset).

Definition IterDirents (offset : Z) (tgs : list ThreadGroup)
  : list Dirent * Z * bool :=
  if maxTaskID <=? offset then ([], offset, true)
  else
    let offset := if offset <? FIRST_PROCESS_ENTRY then FIRST_PROCESS_ENTRY else offset in
    match link_entry selfName FIRST_PROCESS_ENTRY [] offset with
    | None => ([], offset, false)
    | Some (hist, offset) =>
        match link_entry threadSelfName (FIRST_PROCESS_ENTRY + 1) hist offset with
        | None => (hist, offset, false)
        | Some (hist, offset) =>
            let startTid := offset - FIRST_PROCESS_ENTRY - 2 in
            let tids := collect startTid tgs in
            if (length tids =? 0)%nat then (hist, offset, true)
            else iter_tids hist offset (sort_Ints tids)
        end
    end.
End Tasks.

(** Stat: the link count, a uint32, is incremented once for every thread
    group that has a leader when STATX_NLINK is asked for. *)
Definition Stat (Nlink mask : Z) (tgs : list ThreadGroup) : Z :=
  if negb (Z.land mask STATX_NLINK =? 0) then
    fold_left (fun n tg => if Leader tg then u32 (n + 1) else n) tgs Nlink
  else Nlink.

End ProcTasks.

Module ProcTasksExtra.
Import GoInt ProcTasks.

Lemma insert_int_perm x l : Permutation (insert_int x l) (x :: l).
Proof.
  induction l as [|y r IH]; simpl; [reflexivity|].
  destruct (x <=? y); [reflexivity|].
  rewrite IH. apply perm_swap.
Qed.

Lemma sort_Ints_perm l : Permutation (sort_Ints l) l.
Proof.
  induction l as [|x l IH]; simpl; [reflexivity|].
  rewrite insert_int_perm, IH. reflexivity.
Qed.

Lemma insert_int_sorted x l :
  StronglySorted Z.le l -> StronglySorted Z.le (insert_int x l).
Proof.
  induction l as [|y r IH]; simpl; intros Hs.
  - repeat constructor.
  - apply StronglySorted_inv in Hs as [Hr Hy].
    destruct (Z.leb_spec x y).
    + constructor; [constructor; assumption|].
      constructor; [assumption|].
      eapply Forall_impl; [exact Hy|]. intros; simpl in *; lia.
    + constructor; [auto|].
      rewrite insert_int_perm. constructor; [lia|exact Hy].
Qed.

Lemma sort_Ints_sorted l : StronglySorted Z.le (sort_Ints l).
Proof.
  induction l as [|x l IH]; simpl; [constructor|].
  apply insert_int_sorted, IH.
Qed.

(** Sorting commutes with taking the ids at or above a bound. *)
Lemma filter_insert_int s x l :
  List.filter (fun y => s <=? y) (insert_int x l)
  = if s <=? x then insert_int x (List.filter (fun y => s <=? y) l)
    else List.filter (fun y => s <=? y) l.
Proof.
  induction l as [|y r IH]; simpl.
  - destruct (s <=? x); reflexivity.
  - destruct (Z.leb_spec x y) as [Hxy|Hxy]; simpl.
    + destruct (Z.leb_spec s x) as [Hsx|Hsx];
        destruct (Z.leb_spec s y) as [Hsy|Hsy]; simpl; try reflexivity; try lia.
      destruct (Z.leb_spec x y); [reflexivity|lia].
    + rewrite IH.
      destruct (Z.leb_spec s x) as [Hsx|Hsx];
        destruct (Z.leb_spec s y) as [Hsy|Hsy]; simpl; try reflexivity.
      destruct (Z.leb_spec x y); [lia|reflexivity].
Qed.

Lemma filter_sort_Ints s l :
  List.filter (fun y => s <=? y) (sort_Ints l)
  = sort_Ints (List.filter (fun y => s <=? y) l).
Proof.
  induction l as [|x l IH]; simpl; [reflexivity|].
  rewrite filter_insert_int, IH.
  destruct (s <=? x); reflexivity.
Qed.

Lemma collect_above s s' tgs :
  s' <= s ->
  collect s tgs = List.filter (fun y => s <=? y) (collect s' tgs).
Proof.
  intros Hs. unfold collect.
  induction tgs as [|tg tgs IH]; simpl; [reflexivity|].
  destruct (Z.ltb_spec (IDOfThreadGroup tg) s) as [H1|H1];
    destruct (Z.ltb_spec (IDOfThreadGroup tg) s') as [H2|H2];
    destruct (Leader tg); simpl; try lia; try exact IH;
    destruct (Z.leb_spec s (IDOfThreadGroup tg)); try lia; try exact IH.
  f_equal. exact IH.
Qed.

Lemma collect_NoDup s tgs :
  NoDup (map IDOfThreadGroup tgs) -> NoDup (collect s tgs).
Proof.
  unfold collect. induction tgs as [|tg tgs IH]; simpl; intros Hn; [constructor|].
  apply NoDup_cons in Hn as [Hx Hn].
  destruct (negb (IDOfThreadGroup tg <? s) && Leader tg); simpl; [|auto].
  constructor; [|auto].
  intros Hin. apply Hx.
  apply list_elem_of_In, in_map_iff in Hin as (y & Hy & Hin).
  apply filter_In in Hin as [Hin _].
  apply list_elem_of_In, in_map_iff. eauto.
Qed.

Lemma collect_spec s tgs tid :
  tid ∈ collect s tgs <->
  exists tg, tg ∈ tgs /\ IDOfThreadGroup tg = tid /\ Leader tg = true /\ s <= tid.
Proof.
  unfold collect. rewrite list_elem_of_In, in_map_iff. split.
  - intros (tg & <- & Hin). apply filter_In in Hin as [Hin Hp].
    apply andb_prop in Hp as [Hge Hl].
    exists tg. rewrite list_elem_of_In. repeat split; auto.
    destruct (Z.ltb_spec (IDOfThreadGroup tg) s); [discriminate|lia].
  - intros (tg & Hin & <- & Hl & Hge). exists tg. split; [reflexivity|].
    apply filter_In. split; [apply list_elem_of_In; exact Hin|].
    rewrite Hl. destruct (Z.ltb_spec (IDOfThreadGroup tg) s); [lia|reflexivity].
Qed.

Lemma filter_above_split pre t post :
  StronglySorted Z.le (pre ++ t :: post) -> NoDup (pre ++ t :: post) ->
  List.filter (fun y => t + 1 <=? y) (pre ++ t :: post) = post.
Proof.
  induction pre as [|x pre IH]; simpl; intros Hs Hn.
  - apply StronglySorted_inv in Hs as [_ Hall].
    apply NoDup_cons in Hn as [Hnt _].
    destruct (Z.leb_spec (t + 1) t); [lia|].
    induction post as [|y post IHp]; simpl; [reflexivity|].
    apply Forall_cons in Hall as [Hy Hall].
    assert (y <> t) by (intros ->; apply Hnt; left).
    destruct (Z.leb_spec (t + 1) y); [|lia].
    f_equal. apply IHp; [exact Hall|].
    intros Hin. apply Hnt. right. exact Hin.
  - apply StronglySorted_inv in Hs as [Hs Hall].
    apply NoDup_cons in Hn as [_ Hn].
    assert (x <= t).
    { rewrite Forall_forall in Hall. apply Hall.
      apply elem_of_app. right. left. }
    destruct (Z.leb_spec (t + 1) x); [lia|]. apply IH; assumption.
Qed.

Lemma Stat_links tgs : forall Nlink,
  0 <= Nlink -> Nlink + Z.of_nat (length tgs) < 2 ^ 32 ->
  fold_left (fun n tg => if Leader tg then u32 (n + 1) else n) tgs Nlink
  = Nlink + Z.of_nat (length (collect 0 (map (fun tg => mkTG 0 (Leader tg)) tgs))).
Proof.
  unfold collect.
  induction tgs as [|tg tgs IH]; intros Nlink H0 Hlt; simpl in *; [lia|].
  destruct (Leader tg); simpl.
  - unfold u32. rewrite Z.mod_small by lia. rewrite IH by lia. lia.
  - apply IH; lia.
Qed.

Lemma collect_length tgs :
  Forall (fun tg => 0 <= IDOfThreadGroup tg) tgs ->
  length (collect 0 (map (fun tg => mkTG 0 (Leader tg)) tgs)) = length (collect 0 tgs).
Proof.
  unfold collect. induction 1 as [|tg tgs H0 _ IH]; simpl; [reflexivity|].
  destruct (Z.ltb_spec (IDOfThreadGroup tg) 0); [lia|].
  destruct (Leader tg); simpl; [f_equal|]; exact IH.
Qed.

Section Tasks.
Variable TasksLimit : Z.
Variable Handle : list Dirent -> Dirent -> bool.
Hypothesis accepts : forall hist d, Handle hist d = true.

Lemma iter_tids_all tids : forall hist offset,
  iter_tids TasksLimit Handle hist offset tids
  = (hist ++ map task_dirent tids, maxTaskID TasksLimit, true).
Proof.
  induction tids as [|t tids IH]; intros hist offset; simpl.
  - rewrite app_nil_r. reflexivity.
  - rewrite accepts, IH, <- app_assoc. reflexivity.
Qed.

(** X29. A whole listing of /proc: read from the start by a callback that
    takes every entry, IterDirents gives "self", "thread-self" and then one
    directory for every thread group that has a leader and a non-negative id,
    in ascending order of the ids whatever the order of ThreadGroups(), and
    returns maxTaskID, or 258 when there is no such group. Stat counts the
    same directories: with STATX_NLINK it adds to the link count the number of
    entries listed after the two links. *)
Theorem IterDirents_lists_all (offset : Z) (tgs : list ThreadGroup) :
  offset <= FIRST_PROCESS_ENTRY -> FIRST_PROCESS_ENTRY < maxTaskID TasksLimit ->
  let tids := sort_Ints (collect 0 tgs) in
  IterDirents TasksLimit Handle offset tgs
  = (mkDirent "self" DT_LNK 257 :: mkDirent "thread-self" DT_LNK 258
       :: map task_dirent tids,
     if (length tids =? 0)%nat then 258 else maxTaskID TasksLimit, true) /\
  StronglySorted Z.le tids /\
  (forall tid, tid ∈ tids <->
     exists tg, tg ∈ tgs /\ IDOfThreadGroup tg = tid /\ Leader tg = true /\ 0 <= tid) /\
  (Forall (fun tg => 0 <= IDOfThreadGroup tg) tgs ->
   forall Nlink mask,
     Z.land mask STATX_NLINK <> 0 -> 0 <= Nlink ->
     Nlink + Z.of_nat (length tgs) < 2 ^ 32 ->
     Stat Nlink mask tgs = Nlink + Z.of_nat (length tids)).
Proof.
  intros Hoff Hmax tids.
  assert (Hlen : length tids = length (collect 0 tgs))
    by (apply Permutation_length, sort_Ints_perm).
  split_and!.
  - unfold IterDirents.
    destruct (Z.leb_spec (maxTaskID TasksLimit) offset) as [|_]; [lia|].
    replace (if offset <? FIRST_PROCESS_ENTRY then FIRST_PROCESS_ENTRY else offset)
      with FIRST_PROCESS_ENTRY
      by (destruct (Z.ltb_spec offset FIRST_PROCESS_ENTRY); lia).
    unfold link_entry. rewrite Z.eqb_refl, accepts.
    change (FIRST_PROCESS_ENTRY + 1 =? FIRST_PROCESS_ENTRY + 1)
      with true. cbv beta iota. rewrite accepts.
    change (FIRST_PROCESS_ENTRY + 1 + 1 - FIRST_PROCESS_ENTRY - 2) with 0.
    fold tids. rewrite <- Hlen.
    destruct (length tids =? 0)%nat eqn:El.
    + apply Nat.eqb_eq in El. destruct tids; [reflexivity|discriminate].
    + rewrite iter_tids_all. reflexivity.
  - apply sort_Ints_sorted.
  - intros tid. unfold tids. rewrite <- collect_spec.
    split; intros H; eapply elem_of_Permutation_proper; try exact H;
      [symmetry|]; apply sort_Ints_perm.
  - intros Hpos Nlink mask Hmask H0 Hlt. unfold Stat.
    destruct (Z.eqb_spec (Z.land mask STATX_NLINK) 0); [contradiction|]. simpl.
    rewrite Stat_links by assumption.
    rewrite collect_length by assumption. rewrite Hlen. reflexivity.
Qed.

End Tasks.

Section Resume.
Variable TasksLimit : Z.
Variable Handle : list Dirent -> Dirent -> bool.

(** The second loop with any callback: it accepts the first [k] entries and
    refuses the next one, if there is one. *)
Lemma iter_tids_prefix tids : forall hist offset,
  exists k, (k <= length tids)%nat /\
    iter_tids TasksLimit Handle hist offset tids
    = (hist ++ map task_dirent (take k tids),
       if (k <? length tids)%nat then offset + Z.of_nat k else maxTaskID TasksLimit,
       negb (k <? length tids)%nat) /\
    (forall j tid, (j < k)%nat -> tids !! j = Some tid ->
       Handle (hist ++ map task_dirent (take j tids)) (task_dirent tid) = true) /\
    (forall tid, tids !! k = Some tid ->
       Handle (hist ++ map task_dirent (take k tids)) (task_dirent tid) = false).
Proof.
  induction tids as [|t tids IH]; intros hist offset; cbn [iter_tids].
  - exists 0%nat. simpl. rewrite app_nil_r.
    split_and!; [lia | reflexivity | intros; lia | intros tid H; discriminate H].
  - destruct (Handle hist (task_dirent t)) eqn:Eh.
    + destruct (IH (hist ++ [task_dirent t]) (offset + 1))
        as (k & Hk & E & Hacc & Hrej).
      exists (S k). split; [simpl; lia|].
      split.
      { rewrite E. simpl. rewrite <- app_assoc. simpl.
        change (S k <? S (length tids))%nat with (k <? length tids)%nat.
        replace (offset + 1 + Z.of_nat k) with (offset + Z.of_nat (S k)) by lia.
        reflexivity. }
      split.
      { intros j tid Hj Hl. destruct j as [|j]; simpl in *.
        - injection Hl as <-. rewrite app_nil_r. exact Eh.
        - specialize (Hacc j tid ltac:(lia) Hl).
          rewrite <- app_assoc in Hacc. exact Hacc. }
      intros tid Hl. simpl in Hl. specialize (Hrej tid Hl).
      simpl. rewrite <- app_assoc in Hrej. exact Hrej.
    + exists 0%nat. simpl. rewrite app_nil_r, Z.add_0_r.
      split_and!; [lia | reflexivity | intros; lia |].
      intros tid H. injection H as <-. exact Eh.
Qed.

(** X30. A listing can be taken up after any of its directories, whatever
    the callback does: called with the NextOff of the directory of a thread
    group, IterDirents offers the callback the directories that came after it
    in the whole listing, in the same order and beginning with the next one,
    and nothing else. It goes on until the callback refuses an entry: the
    entries accepted are the first k of them, all of them exactly when the
    error is nil; when the callback refuses the entry after these k, the
    error comes with the offset NextOff + k, which counts the entries
    accepted. This holds provided the ids in the namespace are pairwise
    different and that NextOff is below maxTaskID. *)
Theorem IterDirents_resumes (tgs : list ThreadGroup) (pre post : list Z) (t : Z) :
  NoDup (map IDOfThreadGroup tgs) ->
  sort_Ints (collect 0 tgs) = pre ++ t :: post ->
  NextOff (task_dirent t) < maxTaskID TasksLimit ->
  exists k, (k <= length post)%nat /\
    IterDirents TasksLimit Handle (NextOff (task_dirent t)) tgs
    = (map task_dirent (take k post),
       if (k <? length post)%nat then NextOff (task_dirent t) + Z.of_nat k
       else if (length post =? 0)%nat then NextOff (task_dirent t)
       else maxTaskID TasksLimit,
       negb (k <? length post)%nat) /\
    (forall j tid, (j < k)%nat -> post !! j = Some tid ->
       Handle (map task_dirent (take j post)) (task_dirent tid) = true) /\
    (forall tid, post !! k = Some tid ->
       Handle (map task_dirent (take k post)) (task_dirent tid) = false).
Proof.
  intros Hnd Hsort Hmax.
  assert (Ht : 0 <= t).
  { assert (Hin : t ∈ collect 0 tgs).
    { eapply elem_of_Permutation_proper; [symmetry; apply sort_Ints_perm|].
      rewrite Hsort. apply elem_of_app. right. left. }
    apply collect_spec in Hin as (tg & _ & _ & _ & H). exact H. }
  assert (Hpost : sort_Ints (collect (t + 1) tgs) = post).
  { rewrite (collect_above (t + 1) 0) by lia.
    rewrite <- filter_sort_Ints, Hsort.
    apply filter_above_split.
    - rewrite <- Hsort. apply sort_Ints_sorted.
    - rewrite <- Hsort, sort_Ints_perm.
      apply collect_NoDup. exact Hnd. }
  assert (Hlen : length post = length (collect (t + 1) tgs)).
  { rewrite <- Hpost. apply Permutation_length, sort_Ints_perm. }
  simpl NextOff in *. unfold FIRST_PROCESS_ENTRY in *.
  unfold IterDirents, link_entry, FIRST_PROCESS_ENTRY.
  destruct (Z.leb_spec (maxTaskID TasksLimit) (256 + 2 + t + 1)) as [|_]; [lia|].
  destruct (Z.ltb_spec (256 + 2 + t + 1) 256) as [|_]; [lia|].
  destruct (Z.eqb_spec (256 + 2 + t + 1) 256) as [|_]; [lia|].
  destruct (Z.eqb_spec (256 + 2 + t + 1) (256 + 1)) as [|_]; [lia|].
  replace (256 + 2 + t + 1 - 256 - 2) with (t + 1) by lia.
  rewrite <- Hlen, Hpost.
  destruct (length post =? 0)%nat eqn:El.
  - apply Nat.eqb_eq in El. destruct post; [|discriminate].
    exists 0%nat. simpl.
    split_and!; [lia | reflexivity | intros; lia | intros tid H; discriminate H].
  - destruct (iter_tids_prefix post [] (256 + 2 + t + 1))
      as (k & Hk & E & Hacc & Hrej).
    exists k. split; [exact Hk|]. split; [|split; assumption].
    rewrite E. reflexivity.
Qed.
End Resume.

Lemma IterDirents_lists_all_witness :
  IterDirents 65536 (fun _ _ => true) 0
    [mkTG 7 true; mkTG 3 true; mkTG 5 false; mkTG 1 true]
  = ([mkDirent "self" DT_LNK 257; mkDirent "thread-self" DT_LNK 258;
      mkDirent "1" DT_DIR 260; mkDirent "3" DT_DIR 262; mkDirent "7" DT_DIR 266],
     65537, true).
Proof.
  apply (IterDirents_lists_all 65536 (fun _ _ => true) (fun _ _ => eq_refl) 0
           [mkTG 7 true; mkTG 3 true; mkTG 5 false; mkTG 1 true]).
  - vm_compute. discriminate.
  - reflexivity.
Defined.

Lemma IterDirents_resumes_witness :
  exists k, (k <= 2)%nat /\
    IterDirents 65536 (fun hist _ => (length hist <? 1)%nat) 262
      [mkTG 7 true; mkTG 3 true; mkTG 5 false; mkTG 1 true; mkTG 9 true]
    = (map task_dirent (take k [7; 9]),
       if (k <? 2)%nat then 262 + Z.of_nat k else 65537,
       negb (k <? 2)%nat).
Proof.
  destruct (IterDirents_resumes 65536 (fun hist _ => (length hist <? 1)%nat)
              [mkTG 7 true; mkTG 3 true; mkTG 5 false; mkTG 1 true; mkTG 9 true]
              [1] [7; 9] 3) as (k & Hk & E & _).
  - vm_compute. repeat constructor; cbv; intros H;
      repeat (apply elem_of_cons in H as [H|H]; [discriminate H|]);
      inversion H.
  - reflexivity.
  - reflexivity.
  - exists k. split; [exact Hk | exact E].
Defined.

End ProcTasksExtra.
